(** * Gang-sheet editor and export compositor: a shallow embedding

    The development follows the two programs of the repository:

    - the client ([App] component): the collision kernel
      ([getRotatedCorners], [doPolygonsIntersect]), the snapshot history
      ([saveHistory], [undo], [redo]), marquee selection ([handleMouseUp])
      and the drag handlers ([onDragStart], [onDragMove], [onDragEnd]);
    - the server: the [/api/export] handler, its validation, the asset
      loading phase and the canvas draw loop.

    JavaScript numbers are idealised as real numbers ([R]): all arithmetic
    is exact, and [Infinity] / [-Infinity] are kept as the two extra points
    of [xnum].  Comparisons of the source ([<], [>]) are the boolean tests
    [ltb] / [gtb]. *)

From Stdlib Require Import Reals Lra Lia List Bool.
From stdpp Require Import gmap strings.
Import ListNotations.

Local Open Scope R_scope.

(** ** Numbers *)

Definition ltb (a b : R) : bool := if Rlt_dec a b then true else false.
Definition gtb (a b : R) : bool := ltb b a.

(** Numbers extended with the two infinities used as loop seeds. *)
Inductive xnum : Type :=
| NegInfinity
| Finite (r : R)
| Infinity.

Definition xltb (a b : xnum) : bool :=
  match a, b with
  | NegInfinity, NegInfinity => false
  | NegInfinity, _ => true
  | Finite u, Finite v => ltb u v
  | Finite _, Infinity => true
  | Finite _, NegInfinity => false
  | Infinity, _ => false
  end.

(** ** Data model (client) *)

Module Point.
Record t : Type := mk { x : R; y : R }.
End Point.

Module DesignObject.
Record t : Type := mk {
  id : string;
  type : string;
  x : R;
  y : R;
  width : R;
  height : R;
  rotation : R;
  scaleX : R;
  scaleY : R;
  src : string;
  highResSrc : option string;
  zIndex : R
}.
End DesignObject.

Definition PPI : R := 96.

(** ** Collision logic *)

Definition getRotatedCorners (obj : DesignObject.t) (buffer : R) : list Point.t :=
  let rad := (DesignObject.rotation obj * PI) / 180 in
  let cos := cos rad in
  let sin := sin rad in
  let w := DesignObject.width obj * Rabs (DesignObject.scaleX obj) + buffer * 2 in
  let h := DesignObject.height obj * Rabs (DesignObject.scaleY obj) + buffer * 2 in
  let ox := DesignObject.x obj in
  let oy := DesignObject.y obj in
  let corners :=
    [ Point.mk (- buffer) (- buffer);
      Point.mk (w - buffer) (- buffer);
      Point.mk (w - buffer) (h - buffer);
      Point.mk (- buffer) (h - buffer) ] in
  map (fun p =>
         Point.mk (Point.x p * cos - Point.y p * sin + ox)
                  (Point.x p * sin + Point.y p * cos + oy))
      corners.

(** [polygon[j]]; the index is always in range where it is used. *)
Definition vertex (polygon : list Point.t) (j : nat) : Point.t :=
  nth j polygon (Point.mk 0 0).

(** The normal of the edge leaving vertex [j]. *)
Definition edgeNormal (polygon : list Point.t) (j : nat) : Point.t :=
  let p1 := vertex polygon j in
  let p2 := vertex polygon ((j + 1) mod length polygon) in
  Point.mk (Point.y p2 - Point.y p1) (Point.x p1 - Point.x p2).

Definition edgeNormals (polygon : list Point.t) : list Point.t :=
  map (edgeNormal polygon) (seq 0 (length polygon)).

Definition projected (normal p : Point.t) : R :=
  Point.x normal * Point.x p + Point.y normal * Point.y p.

(** One pass of the inner [for (const p of ...)] loop: the pair (min, max)
    of the projections, seeded with (Infinity, -Infinity). *)
Definition projectStep (normal : Point.t) (acc : xnum * xnum) (p : Point.t)
  : xnum * xnum :=
  let pr := projected normal p in
  (if xltb (Finite pr) (fst acc) then Finite pr else fst acc,
   if xltb (snd acc) (Finite pr) then Finite pr else snd acc).

Definition projectRange (normal : Point.t) (polygon : list Point.t)
  : xnum * xnum :=
  fold_left (projectStep normal) polygon (Infinity, NegInfinity).

(** [maxA < minB || maxB < minA] for one axis. *)
Definition separatedOn (normal : Point.t) (a b : list Point.t) : bool :=
  let ra := projectRange normal a in
  let rb := projectRange normal b in
  xltb (snd ra) (fst rb) || xltb (snd rb) (fst ra).

(** The two nested loops return [false] at the first separating axis and
    [true] when none is found. *)
Definition doPolygonsIntersect (a b : list Point.t) : bool :=
  forallb (fun polygon =>
             forallb (fun normal => negb (separatedOn normal a b))
                     (edgeNormals polygon))
          [a; b].

(** The corner polygon of an unrotated rectangle, in the order in which
    [getRotatedCorners] lists corners. *)
Definition rectPolygon (x y w h : R) : list Point.t :=
  [ Point.mk x y; Point.mk (x + w) y; Point.mk (x + w) (y + h); Point.mk x (y + h) ].

(** Plain closed-interval overlap test on one axis. *)
Definition rangesIntersect (lo1 hi1 lo2 hi2 : R) : Prop :=
  lo1 <= hi2 /\ lo2 <= hi1.

(** ** Application state (client) *)

Module SelectionBox.
Record t : Type := mk {
  startX : R; startY : R;
  x : R; y : R;
  width : R; height : R
}.
End SelectionBox.

(** A live Konva node: only its position is read and written here. *)
Module Node.
Record t : Type := mk { x : R; y : R }.
End Node.

(** The [useState] cells and the two refs of the [App] component.
    [stage] stands for [stageRef.current]: the live nodes, found by id
    ([findOne('#' + id)]); [dragStartAttrs] is the [Map] of anchors. *)
Module App.
Record t : Type := mk {
  objects : list DesignObject.t;
  selectedIds : list string;
  selectionBox : option SelectionBox.t;
  history : list (list DesignObject.t);
  historyStep : nat;
  isDragging : bool;
  isPanning : bool;
  stage : gmap string Node.t;
  dragStartAttrs : gmap string DesignObject.t
}.
End App.

Definition setObjects (v : list DesignObject.t) (st : App.t) : App.t :=
  App.mk v (App.selectedIds st) (App.selectionBox st) (App.history st)
         (App.historyStep st) (App.isDragging st) (App.isPanning st)
         (App.stage st) (App.dragStartAttrs st).

Definition setSelectedIds (v : list string) (st : App.t) : App.t :=
  App.mk (App.objects st) v (App.selectionBox st) (App.history st)
         (App.historyStep st) (App.isDragging st) (App.isPanning st)
         (App.stage st) (App.dragStartAttrs st).

Definition setSelectionBox (v : option SelectionBox.t) (st : App.t) : App.t :=
  App.mk (App.objects st) (App.selectedIds st) v (App.history st)
         (App.historyStep st) (App.isDragging st) (App.isPanning st)
         (App.stage st) (App.dragStartAttrs st).

Definition setHistory (v : list (list DesignObject.t)) (st : App.t) : App.t :=
  App.mk (App.objects st) (App.selectedIds st) (App.selectionBox st) v
         (App.historyStep st) (App.isDragging st) (App.isPanning st)
         (App.stage st) (App.dragStartAttrs st).

Definition setHistoryStep (v : nat) (st : App.t) : App.t :=
  App.mk (App.objects st) (App.selectedIds st) (App.selectionBox st)
         (App.history st) v (App.isDragging st) (App.isPanning st)
         (App.stage st) (App.dragStartAttrs st).

Definition setIsDragging (v : bool) (st : App.t) : App.t :=
  App.mk (App.objects st) (App.selectedIds st) (App.selectionBox st)
         (App.history st) (App.historyStep st) v (App.isPanning st)
         (App.stage st) (App.dragStartAttrs st).

Definition setIsPanning (v : bool) (st : App.t) : App.t :=
  App.mk (App.objects st) (App.selectedIds st) (App.selectionBox st)
         (App.history st) (App.historyStep st) (App.isDragging st) v
         (App.stage st) (App.dragStartAttrs st).

Definition setStage (v : gmap string Node.t) (st : App.t) : App.t :=
  App.mk (App.objects st) (App.selectedIds st) (App.selectionBox st)
         (App.history st) (App.historyStep st) (App.isDragging st)
         (App.isPanning st) v (App.dragStartAttrs st).

Definition setDragStartAttrs (v : gmap string DesignObject.t) (st : App.t) : App.t :=
  App.mk (App.objects st) (App.selectedIds st) (App.selectionBox st)
         (App.history st) (App.historyStep st) (App.isDragging st)
         (App.isPanning st) (App.stage st) v.

(** [useState] initial values: no objects, history [[[]]], step 0. *)
Definition initialApp : App.t :=
  App.mk [] [] None [[]] 0 false false ∅ ∅.

(** ** History *)

(** [history[i]]: an index outside the array reads [undefined] in the
    source; the model reads the empty list there.  Under the invariant
    [historyStep < history.length] neither [undo] nor [redo] reads outside
    (lemmas [undo_reads_inside], [redo_reads_inside]). *)
Definition historyAt (h : list (list DesignObject.t)) (i : nat) : list DesignObject.t :=
  default [] (h !! i).

Definition saveHistory (newObjects : list DesignObject.t) (st : App.t) : App.t :=
  let newHistory := take (App.historyStep st + 1) (App.history st) ++ [newObjects] in
  setObjects newObjects
    (setHistoryStep (length newHistory - 1)
       (setHistory newHistory st)).

Definition undo (st : App.t) : App.t :=
  if (0 <? App.historyStep st)%nat then
    setSelectedIds []
      (setObjects (historyAt (App.history st) (App.historyStep st - 1))
         (setHistoryStep (App.historyStep st - 1) st))
  else st.

Definition redo (st : App.t) : App.t :=
  if (App.historyStep st <? length (App.history st) - 1)%nat then
    setSelectedIds []
      (setObjects (historyAt (App.history st) (App.historyStep st + 1))
         (setHistoryStep (App.historyStep st + 1) st))
  else st.

(** The History invariant: the cursor addresses an existing entry. *)
Definition historyInvariant (st : App.t) : Prop :=
  (0 <= App.historyStep st < length (App.history st))%nat.

(** ** Marquee selection *)

(** The filter predicate of [handleMouseUp]: the marquee against the
    object's unrotated box, scale taken with its sign. *)
Definition marqueeHits (sb : SelectionBox.t) (obj : DesignObject.t) : bool :=
  let bx := SelectionBox.x sb in
  let by_ := SelectionBox.y sb in
  let bw := SelectionBox.width sb in
  let bh := SelectionBox.height sb in
  let ox := DesignObject.x obj in
  let oy := DesignObject.y obj in
  let ow := DesignObject.width obj * DesignObject.scaleX obj in
  let oh := DesignObject.height obj * DesignObject.scaleY obj in
  ltb bx (ox + ow) && gtb (bx + bw) ox && ltb by_ (oy + oh) && gtb (by_ + bh) oy.

Definition handleMouseUp (st : App.t) : App.t :=
  let st := setIsPanning false st in
  match App.selectionBox st with
  | Some sb =>
      let selected := List.filter (marqueeHits sb) (App.objects st) in
      let ids := map DesignObject.id selected in
      let st := if (0 <? length ids)%nat then setSelectedIds ids st else st in
      setSelectionBox None st
  | None => st
  end.

(** ** Drag handlers *)

(** A Konva drag event: [e.target.id()] and the target's live position
    [e.target.x()], [e.target.y()]. *)
Module DragEvent.
Record t : Type := mk { id : string; x : R; y : R }.
End DragEvent.

Definition includes (ids : list string) (id : string) : bool :=
  bool_decide (id ∈ ids).

Definition findObject (objects : list DesignObject.t) (id : string)
  : option DesignObject.t :=
  find (fun o => bool_decide (DesignObject.id o = id)) objects.

(** [{ ...obj, x: x, y: y }] *)
Definition withPosition (obj : DesignObject.t) (x y : R) : DesignObject.t :=
  DesignObject.mk (DesignObject.id obj) (DesignObject.type obj) x y
    (DesignObject.width obj) (DesignObject.height obj)
    (DesignObject.rotation obj) (DesignObject.scaleX obj)
    (DesignObject.scaleY obj) (DesignObject.src obj)
    (DesignObject.highResSrc obj) (DesignObject.zIndex obj).

Definition recordAnchor (st : App.t) (anchors : gmap string DesignObject.t)
  (sId : string) : gmap string DesignObject.t :=
  match App.stage st !! sId, findObject (App.objects st) sId with
  | Some sNode, Some obj =>
      <[ sId := withPosition obj (Node.x sNode) (Node.y sNode) ]> anchors
  | _, _ => anchors
  end.

Definition onDragStart (e : DragEvent.t) (st : App.t) : App.t :=
  let id := DragEvent.id e in
  let anchors :=
    if includes (App.selectedIds st) id then
      fold_left (recordAnchor st) (App.selectedIds st) (App.dragStartAttrs st)
    else
      match findObject (App.objects st) id with
      | Some obj =>
          <[ id := withPosition obj (DragEvent.x e) (DragEvent.y e) ]>
            (App.dragStartAttrs st)
      | None => App.dragStartAttrs st
      end in
  setIsDragging true (setDragStartAttrs anchors st).

(** The body of the [forEach] in [onDragMove]: [node.position(...)]
    overwrites the live position of the node [sId]. *)
Definition followDrag (anchors : gmap string DesignObject.t) (id : string)
  (dx dy : R) (nodes : gmap string Node.t) (sId : string) : gmap string Node.t :=
  if bool_decide (sId ≠ id) then
    match nodes !! sId, anchors !! sId with
    | Some node, Some sStart =>
        <[ sId := Node.mk (DesignObject.x sStart + dx) (DesignObject.y sStart + dy) ]> nodes
    | _, _ => nodes
    end
  else nodes.

Definition onDragMove (e : DragEvent.t) (st : App.t) : App.t :=
  let id := DragEvent.id e in
  if includes (App.selectedIds st) id && (1 <? length (App.selectedIds st))%nat then
    match App.dragStartAttrs st !! id with
    | None => st
    | Some startAttrs =>
        let dx := DragEvent.x e - DesignObject.x startAttrs in
        let dy := DragEvent.y e - DesignObject.y startAttrs in
        setStage
          (fold_left (followDrag (App.dragStartAttrs st) id dx dy)
                     (App.selectedIds st) (App.stage st))
          st
    end
  else st.

Definition onDragEnd (e : DragEvent.t) (st : App.t) : App.t :=
  let id := DragEvent.id e in
  let idsToUpdate :=
    if includes (App.selectedIds st) id then App.selectedIds st else [id] in
  let potentialObjects :=
    map (fun obj =>
           if includes idsToUpdate (DesignObject.id obj) then
             match App.stage st !! DesignObject.id obj with
             | Some node => withPosition obj (Node.x node) (Node.y node)
             | None => obj
             end
           else obj)
        (App.objects st) in
  setDragStartAttrs ∅ (setIsDragging false (saveHistory potentialObjects st)).

(** What Konva does around the handlers: the pointer moves the dragged
    node itself, then the handler runs with that node as [e.target]. *)
Definition moveNode (id : string) (x y : R) (st : App.t) : App.t :=
  setStage (<[ id := Node.mk x y ]> (App.stage st)) st.

Definition targetEvent (id : string) (st : App.t) : option DragEvent.t :=
  match App.stage st !! id with
  | Some node => Some (DragEvent.mk id (Node.x node) (Node.y node))
  | None => None
  end.

Definition dispatch (handler : DragEvent.t -> App.t -> App.t) (id : string)
  (st : App.t) : App.t :=
  match targetEvent id st with
  | Some e => handler e st
  | None => st
  end.

(** One pointer move of a drag of node [id] to position [pos]. *)
Definition dragMoveTo (id : string) (st : App.t) (pos : R * R) : App.t :=
  dispatch onDragMove id (moveNode id (fst pos) (snd pos) st).

(** A whole drag gesture on node [id]: start, the pointer path, end. *)
Definition dragGesture (id : string) (path : list (R * R)) (st : App.t) : App.t :=
  dispatch onDragEnd id
    (fold_left (dragMoveTo id) path (dispatch onDragStart id st)).

(** ** Export request (server) *)

Module Size.
Record t : Type := mk { width : R; height : R }.
End Size.

(** An element of [req.body.objects].  The fields the handler guards with
    [||] may be absent ([None]). *)
Module ExportObject.
Record t : Type := mk {
  id : string;
  type : string;
  x : R;
  y : R;
  width : R;
  height : R;
  rotation : option R;
  scaleX : option R;
  scaleY : option R;
  src : option string;
  highResSrc : option string
}.
End ExportObject.

(** [req.body.objects]: absent (or another falsy value), a truthy value
    that is not an array, or an array.  The elements of the array are
    taken to be objects: on a [null] element the [filter] callback would
    throw, which the handler's [catch] reports as a 500. *)
Inductive ObjectsField : Type :=
| ObjectsMissing
| ObjectsNotArray
| ObjectsArray (objects : list ExportObject.t).

Module Body.
Record t : Type := mk { size : option Size.t; objects : ObjectsField }.
End Body.

(** A decoded image. *)
Module Image.
Record t : Type := mk { source : string; width : nat; height : nat }.
End Image.

(** [v || d] on a number: absent and [0] are falsy. *)
Definition numOr (v : option R) (d : R) : R :=
  match v with
  | Some r => if Req_dec_T r 0 then d else r
  | None => d
  end.

(** [a || b] on strings: absent and the empty string are falsy. *)
Definition strOr (a b : option string) : option string :=
  match a with
  | Some s => if bool_decide (s = EmptyString) then b else Some s
  | None => b
  end.

Definition truthyStr (a : option string) : bool :=
  match a with
  | Some s => negb (bool_decide (s = EmptyString))
  | None => false
  end.

(** [Math.ceil] *)
Definition ceil (r : R) : Z := (- Int_part (- r))%Z.

(** ** The 2D canvas context *)

(** The current transformation matrix [[a c e; b d f]]. *)
Module Matrix.
Record t : Type := mk { a : R; b : R; c : R; d : R; e : R; f : R }.
Definition identity : t := mk 1 0 0 1 0 0.
Definition apply (m : t) (p : Point.t) : Point.t :=
  Point.mk (a m * Point.x p + c m * Point.y p + e m)
           (b m * Point.x p + d m * Point.y p + f m).
End Matrix.

(** One [drawImage] call as it reaches the surface: the image, the
    transform in force, and the rectangle in the transformed frame. *)
Module DrawOp.
Record t : Type := mk {
  image : Image.t;
  transform : Matrix.t;
  dx : R; dy : R; dw : R; dh : R
}.
End DrawOp.

Module Context2D.
Record t : Type := mk {
  ctm : Matrix.t;
  saved : list Matrix.t;
  drawn : list DrawOp.t
}.
End Context2D.

Definition ctx_save (ctx : Context2D.t) : Context2D.t :=
  Context2D.mk (Context2D.ctm ctx) (Context2D.ctm ctx :: Context2D.saved ctx)
               (Context2D.drawn ctx).

Definition ctx_restore (ctx : Context2D.t) : Context2D.t :=
  match Context2D.saved ctx with
  | m :: rest => Context2D.mk m rest (Context2D.drawn ctx)
  | [] => ctx
  end.

Definition ctx_translate (tx ty : R) (ctx : Context2D.t) : Context2D.t :=
  let m := Context2D.ctm ctx in
  Context2D.mk
    (Matrix.mk (Matrix.a m) (Matrix.b m) (Matrix.c m) (Matrix.d m)
       (Matrix.a m * tx + Matrix.c m * ty + Matrix.e m)
       (Matrix.b m * tx + Matrix.d m * ty + Matrix.f m))
    (Context2D.saved ctx) (Context2D.drawn ctx).

Definition ctx_rotate (angle : R) (ctx : Context2D.t) : Context2D.t :=
  let m := Context2D.ctm ctx in
  Context2D.mk
    (Matrix.mk (Matrix.a m * cos angle + Matrix.c m * sin angle)
               (Matrix.b m * cos angle + Matrix.d m * sin angle)
               (Matrix.c m * cos angle - Matrix.a m * sin angle)
               (Matrix.d m * cos angle - Matrix.b m * sin angle)
               (Matrix.e m) (Matrix.f m))
    (Context2D.saved ctx) (Context2D.drawn ctx).

Definition ctx_drawImage (image : Image.t) (dx dy dw dh : R) (ctx : Context2D.t)
  : Context2D.t :=
  Context2D.mk (Context2D.ctm ctx) (Context2D.saved ctx)
    (Context2D.drawn ctx ++ [DrawOp.mk image (Context2D.ctm ctx) dx dy dw dh]).

Module Canvas.
Record t : Type := mk { width : Z; height : Z; ctx : Context2D.t }.
End Canvas.

Definition newCanvas (w h : Z) : Canvas.t :=
  Canvas.mk w h (Context2D.mk Matrix.identity [] []).

(** ** The export handler *)

Definition SCALE_FACTOR : R := 300 / 96.

(** What the handler gets from outside: the result of fetching and
    decoding a URL, and of encoding the finished surface to PNG bytes. *)
Inductive LoadResult : Type :=
| Loaded (image : Image.t)
| LoadFailed (message : string).

Inductive EncodeResult : Type :=
| Encoded (buffer : string)
| EncodeFailed (message : string).

Module World.
Record t : Type := mk {
  fetchImage : string -> LoadResult;
  encodePng : Canvas.t -> EncodeResult
}.
End World.

(** An entry of [imageData]; [null] entries are [None] in the list. *)
Module ImageData.
Record t : Type := mk {
  image : option Image.t;
  obj : ExportObject.t;
  success : bool;
  error : option string
}.
End ImageData.

Inductive Effect : Type :=
| CreateCanvas (w h : Z)
| Fetch (url : string)
| WarnNoUrl (id : string)
| WarnPartial (successCount total : nat).

Inductive Response : Type :=
| JsonError (status : nat) (error : string) (details : option string)
| PngAttachment (buffer : string).

Module Outcome.
Record t : Type := mk {
  response : Response;
  effects : list Effect;
  surface : option Canvas.t
}.
End Outcome.

Definition isImage (obj : ExportObject.t) : bool :=
  bool_decide (ExportObject.type obj = "image"%string).

Definition imageUrl (obj : ExportObject.t) : option string :=
  strOr (ExportObject.highResSrc obj) (ExportObject.src obj).

(** The body of the [imageObjects.map(async ...)] callback.  The guard
    [if (!imageUrl)] takes a missing source and the empty string alike:
    a warning, a [null] entry, no request. *)
Definition loadImage (w : World.t) (obj : ExportObject.t) : option ImageData.t :=
  match imageUrl obj with
  | None => None
  | Some url =>
      if bool_decide (url = EmptyString) then None
      else
        match World.fetchImage w url with
        | Loaded img => Some (ImageData.mk (Some img) obj true None)
        | LoadFailed msg => Some (ImageData.mk None obj false (Some msg))
        end
  end.

Definition loadEffects (obj : ExportObject.t) : list Effect :=
  match imageUrl obj with
  | None => [WarnNoUrl (ExportObject.id obj)]
  | Some url =>
      if bool_decide (url = EmptyString) then [WarnNoUrl (ExportObject.id obj)]
      else [Fetch url]
  end.

(** [item && item.success] *)
Definition isSuccessful (item : option ImageData.t) : bool :=
  match item with
  | Some d => ImageData.success d
  | None => false
  end.

(** Position and dimensions computed in the draw loop. *)
Definition destX (obj : ExportObject.t) : R := ExportObject.x obj * SCALE_FACTOR.
Definition destY (obj : ExportObject.t) : R := ExportObject.y obj * SCALE_FACTOR.
Definition destWidth (obj : ExportObject.t) : R :=
  ExportObject.width obj * SCALE_FACTOR * numOr (ExportObject.scaleX obj) 1.
Definition destHeight (obj : ExportObject.t) : R :=
  ExportObject.height obj * SCALE_FACTOR * numOr (ExportObject.scaleY obj) 1.
Definition destRotation (obj : ExportObject.t) : R :=
  numOr (ExportObject.rotation obj) 0 * PI / 180.

(** The callback of [successfulImages.forEach]. *)
Definition drawItem (ctx : Context2D.t) (item : option ImageData.t) : Context2D.t :=
  match item with
  | Some d =>
      match ImageData.image d with
      | None => ctx
      | Some image =>
          let obj := ImageData.obj d in
          let ctx := ctx_save ctx in
          let x := destX obj in
          let y := destY obj in
          let width := destWidth obj in
          let height := destHeight obj in
          let rotation := destRotation obj in
          let ctx := ctx_translate (x + width / 2) (y + height / 2) ctx in
          let ctx := ctx_rotate rotation ctx in
          let ctx := ctx_drawImage image (- width / 2) (- height / 2) width height ctx in
          ctx_restore ctx
      end
  | None => ctx
  end.

Definition drawAll (items : list (option ImageData.t)) (ctx : Context2D.t)
  : Context2D.t :=
  fold_left drawItem items ctx.

Definition errMissing : string := "Missing size or objects data".
Definition errNoObjects : string := "No objects to export".
Definition errNoImageObjects : string := "No image objects to export".
Definition errLoadFailed : string :=
  "Failed to load any images. Please ensure images are uploaded and accessible.".
Definition errGenerate : string := "Failed to generate image".
(** The inner [catch] rethrows with this prefix; the outer one reports the
    message as [details]. *)
Definition errConvert : string := "Failed to convert canvas to buffer: ".

(** [app.post('/api/export', ...)] *)
Definition export (w : World.t) (body : Body.t) : Outcome.t :=
  match Body.size body, Body.objects body with
  | None, _ | _, ObjectsMissing =>
      Outcome.mk (JsonError 400 errMissing None) [] None
  | Some _, ObjectsNotArray | Some _, ObjectsArray [] =>
      Outcome.mk (JsonError 400 errNoObjects None) [] None
  | Some size, ObjectsArray objects =>
      let stageWidth := ceil (Size.width size * SCALE_FACTOR) in
      let stageHeight := ceil (Size.height size * SCALE_FACTOR) in
      let canvasElement := newCanvas stageWidth stageHeight in
      let created := [CreateCanvas stageWidth stageHeight] in
      let imageObjects := List.filter isImage objects in
      if (length imageObjects =? 0)%nat then
        Outcome.mk (JsonError 400 errNoImageObjects None) created (Some canvasElement)
      else
        let imageData := map (loadImage w) imageObjects in
        let loading := created ++ concat (map loadEffects imageObjects) in
        let successfulImages := List.filter isSuccessful imageData in
        let successCount := length successfulImages in
        if (successCount =? 0)%nat then
          Outcome.mk (JsonError 500 errLoadFailed None) loading (Some canvasElement)
        else
          let warned :=
            if (successCount <? length imageObjects)%nat
            then loading ++ [WarnPartial successCount (length imageObjects)]
            else loading in
          let painted :=
            Canvas.mk stageWidth stageHeight
              (drawAll successfulImages (Canvas.ctx canvasElement)) in
          match World.encodePng w painted with
          | Encoded buffer =>
              Outcome.mk (PngAttachment buffer) warned (Some painted)
          | EncodeFailed message =>
              Outcome.mk (JsonError 500 errGenerate (Some (errConvert ++ message)%string)) warned (Some painted)
          end
  end.

(** ** Derived notions used in the statements *)

(** The three history operations, as data. *)
Inductive HistoryOp : Type :=
| Commit (newObjects : list DesignObject.t)
| Undo
| Redo.

Definition applyOp (st : App.t) (op : HistoryOp) : App.t :=
  match op with
  | Commit newObjects => saveHistory newObjects st
  | Undo => undo st
  | Redo => redo st
  end.

Definition runOps (ops : list HistoryOp) (st : App.t) : App.t :=
  fold_left applyOp ops st.

(** Committing a list of states, one after the other. *)
Definition commitAll (commits : list (list DesignObject.t)) (st : App.t) : App.t :=
  fold_left (fun s newObjects => saveHistory newObjects s) commits st.

(** The entries a commit drops: those after the cursor. *)
Definition forwardEntries (st : App.t) : list (list DesignObject.t) :=
  drop (App.historyStep st + 1) (App.history st).

(** Sample data for the concrete instances. *)
Definition sampleObject (id : string) (x y : R) : DesignObject.t :=
  DesignObject.mk id "image" x y 96 48 0 1 1 "thumb.png" (Some "full.png"%string) 0.

Definition objA : DesignObject.t := sampleObject "A" 10 20.
Definition objB : DesignObject.t := sampleObject "B" 200 40.
Definition objC : DesignObject.t := sampleObject "C" 50 300.

Definition threeCommits : list (list DesignObject.t) :=
  [ [objA]; [objA; objB]; [objA; objB; objC] ].

(** The axis-aligned overlap of the marquee with the object's unrotated
    box [(x, y, width*scaleX, height*scaleY)], as inequalities. *)
Definition marqueeOverlap (sb : SelectionBox.t) (obj : DesignObject.t) : Prop :=
  SelectionBox.x sb < DesignObject.x obj + DesignObject.width obj * DesignObject.scaleX obj
  /\ SelectionBox.x sb + SelectionBox.width sb > DesignObject.x obj
  /\ SelectionBox.y sb < DesignObject.y obj + DesignObject.height obj * DesignObject.scaleY obj
  /\ SelectionBox.y sb + SelectionBox.height sb > DesignObject.y obj.

(** The region the unrotated box of an object covers: the points between
    the corner [(x, y)] and the opposite corner
    [(x + width*scaleX, y + height*scaleY)], whichever way the scale
    points. *)
Definition boxLeft (obj : DesignObject.t) : R :=
  Rmin (DesignObject.x obj)
       (DesignObject.x obj + DesignObject.width obj * DesignObject.scaleX obj).
Definition boxRight (obj : DesignObject.t) : R :=
  Rmax (DesignObject.x obj)
       (DesignObject.x obj + DesignObject.width obj * DesignObject.scaleX obj).
Definition boxTop (obj : DesignObject.t) : R :=
  Rmin (DesignObject.y obj)
       (DesignObject.y obj + DesignObject.height obj * DesignObject.scaleY obj).
Definition boxBottom (obj : DesignObject.t) : R :=
  Rmax (DesignObject.y obj)
       (DesignObject.y obj + DesignObject.height obj * DesignObject.scaleY obj).

(** The marquee rectangle and that region intersect, by the interval test
    on both axes. *)
Definition boxesMeet (sb : SelectionBox.t) (obj : DesignObject.t) : Prop :=
  SelectionBox.x sb < boxRight obj
  /\ SelectionBox.x sb + SelectionBox.width sb > boxLeft obj
  /\ SelectionBox.y sb < boxBottom obj
  /\ SelectionBox.y sb + SelectionBox.height sb > boxTop obj.

(** An object whose signed size [width*scaleX], [height*scaleY] is not
    negative on either axis. *)
Definition unmirrored (obj : DesignObject.t) : Prop :=
  0 <= DesignObject.width obj * DesignObject.scaleX obj
  /\ 0 <= DesignObject.height obj * DesignObject.scaleY obj.

Definition sampleMarquee : SelectionBox.t := SelectionBox.mk 0 0 0 0 150 100.




Definition marqueeApp : App.t :=
  setSelectionBox (Some sampleMarquee)
    (setSelectedIds ["C"%string] (setObjects [objA; objB; objC] initialApp)).

(** The anchor [onDragStart] records for a selected id: the object with
    that id, at the live position of its node. *)
Definition anchorOf (st : App.t) (sId : string) : option DesignObject.t :=
  match App.stage st !! sId, findObject (App.objects st) sId with
  | Some sNode, Some obj => Some (withPosition obj (Node.x sNode) (Node.y sNode))
  | _, _ => None
  end.

(** After a render every object has a live node at its own position. *)
Definition synced (st : App.t) : Prop :=
  forall o, In o (App.objects st) ->
    App.stage st !! DesignObject.id o
    = Some (Node.mk (DesignObject.x o) (DesignObject.y o)).

(** An object moved by [(dx, dy)] when its id is among [ids]. *)
Definition shifted (ids : list string) (dx dy : R) (o : DesignObject.t)
  : DesignObject.t :=
  if includes ids (DesignObject.id o)
  then withPosition o (DesignObject.x o + dx) (DesignObject.y o + dy)
  else o.

Definition nodesOf (objects : list DesignObject.t) : gmap string Node.t :=
  list_to_map
    (map (fun o => (DesignObject.id o,
                    Node.mk (DesignObject.x o) (DesignObject.y o))) objects).

Definition dragApp : App.t :=
  setStage (nodesOf [objA; objB; objC])
    (setSelectedIds ["A"; "B"; "C"]%string
       (commitAll [[objA; objB; objC]] initialApp)).

Definition dragPath : list (R * R) := [ (15, 25); (10 + 30, 20 + 40) ].

(** The transform in force at [drawImage] when the loop body starts from
    the matrix [m]: [m], then the translation to the centre of the
    destination rectangle, then the rotation. *)
Definition paintTransform (m : Matrix.t) (obj : ExportObject.t) : Matrix.t :=
  Context2D.ctm
    (ctx_rotate (destRotation obj)
       (ctx_translate (destX obj + destWidth obj / 2) (destY obj + destHeight obj / 2)
          (Context2D.mk m [] []))).

Definition paintOf (m : Matrix.t) (image : Image.t) (obj : ExportObject.t) : DrawOp.t :=
  DrawOp.mk image (paintTransform m obj)
            (- destWidth obj / 2) (- destHeight obj / 2)
            (destWidth obj) (destHeight obj).

(** The draw calls the loop issues for a list of loaded items. *)
Definition painted (m : Matrix.t) (items : list (option ImageData.t)) : list DrawOp.t :=
  flat_map (fun item =>
              match item with
              | Some d =>
                  match ImageData.image d with
                  | Some image => [paintOf m image (ImageData.obj d)]
                  | None => []
                  end
              | None => []
              end) items.

(** The draw calls that reached the surface of an export. *)
Definition paintedOps (out : Outcome.t) : list DrawOp.t :=
  match Outcome.surface out with
  | Some c => Context2D.drawn (Canvas.ctx c)
  | None => []
  end.

Definition isFetch (e : Effect) : bool :=
  match e with Fetch _ => true | _ => false end.

(** The requests the validation step turns away. *)
Definition invalidBody (body : Body.t) : Prop :=
  Body.size body = None
  \/ Body.objects body = ObjectsMissing
  \/ Body.objects body = ObjectsNotArray
  \/ Body.objects body = ObjectsArray []
  \/ exists objects, Body.objects body = ObjectsArray objects
                     /\ List.filter isImage objects = [].

(** The items that loaded, for a request that passes validation. *)
Definition successfulImages (w : World.t) (objects : list ExportObject.t)
  : list (option ImageData.t) :=
  List.filter isSuccessful (map (loadImage w) (List.filter isImage objects)).

(** Sample requests and worlds. *)
Definition exportObject (id : string) (x y : R) (scaleX : option R) (url : string)
  : ExportObject.t :=
  ExportObject.mk id "image" x y 96 48 (Some 0) scaleX (Some 1) (Some url) None.

Definition sampleImage (url : string) : Image.t := Image.mk url 96 48.

(** Every URL loads except ["missing.png"]; encoding succeeds. *)
Definition goodWorld : World.t :=
  World.mk (fun url => if bool_decide (url = "missing.png"%string)
                       then LoadFailed "404" else Loaded (sampleImage url))
           (fun _ => Encoded "png-bytes").

(** Every URL loads, but the surface cannot be encoded. *)
Definition encodeFailsWorld : World.t :=
  World.mk (fun url => Loaded (sampleImage url))
           (fun _ => EncodeFailed "Canvas buffer is empty").

Definition sampleSize : Size.t := Size.mk (22 * 96) (12 * 96).

Definition oneObjectBody : Body.t :=
  Body.mk (Some sampleSize)
          (ObjectsArray [exportObject "A" 0 0 (Some 1) "a.png"]).

Definition mirroredObject : ExportObject.t :=
  exportObject "M" 0 0 (Some (-1)) "m.png".

(** ** Plane geometry used in the statements *)

Definition sqDist (p q : Point.t) : R :=
  (Point.x q - Point.x p) * (Point.x q - Point.x p)
  + (Point.y q - Point.y p) * (Point.y q - Point.y p).

(** Dot and cross product of the vectors [o -> p] and [o -> q]. *)
Definition dotAt (o p q : Point.t) : R :=
  (Point.x p - Point.x o) * (Point.x q - Point.x o)
  + (Point.y p - Point.y o) * (Point.y q - Point.y o).

Definition crossAt (o p q : Point.t) : R :=
  (Point.x p - Point.x o) * (Point.y q - Point.y o)
  - (Point.y p - Point.y o) * (Point.x q - Point.x o).

(** The point [p] turned by [angle] radians about [pivot]. *)
Definition rotateAbout (pivot : Point.t) (angle : R) (p : Point.t) : Point.t :=
  Point.mk
    (Point.x pivot + (Point.x p - Point.x pivot) * cos angle
                   - (Point.y p - Point.y pivot) * sin angle)
    (Point.y pivot + (Point.x p - Point.x pivot) * sin angle
                   + (Point.y p - Point.y pivot) * cos angle).

(** The object's scaled size and the centre of its unrotated box. *)
Definition scaledWidth (obj : DesignObject.t) : R :=
  DesignObject.width obj * Rabs (DesignObject.scaleX obj).
Definition scaledHeight (obj : DesignObject.t) : R :=
  DesignObject.height obj * Rabs (DesignObject.scaleY obj).
Definition anchor (obj : DesignObject.t) : Point.t :=
  Point.mk (DesignObject.x obj) (DesignObject.y obj).
Definition centre (obj : DesignObject.t) : Point.t :=
  Point.mk (DesignObject.x obj + scaledWidth obj / 2)
           (DesignObject.y obj + scaledHeight obj / 2).

(** The unrotated box placed at [(x, y)] and grown by [buffer] on every
    side, as a corner polygon. *)
Definition inflatedBox (obj : DesignObject.t) (buffer : R) : list Point.t :=
  rectPolygon (DesignObject.x obj - buffer) (DesignObject.y obj - buffer)
              (scaledWidth obj + 2 * buffer) (scaledHeight obj + 2 * buffer).

(** The corners as the specification words them: the inflated box turned
    by [rotation] degrees about the object's own centre. *)
Definition cornersAboutCentre (obj : DesignObject.t) (buffer : R) : list Point.t :=
  map (rotateAbout (centre obj) (DesignObject.rotation obj * PI / 180))
      (inflatedBox obj buffer).

(** The same box turned about the anchor [(x, y)], its top-left corner. *)
Definition cornersAboutAnchor (obj : DesignObject.t) (buffer : R) : list Point.t :=
  map (rotateAbout (anchor obj) (DesignObject.rotation obj * PI / 180))
      (inflatedBox obj buffer).

(** The mean of the four corners of a quadrilateral. *)
Definition centroid (corners : list Point.t) : Point.t :=
  Point.mk (fold_right (fun p acc => Point.x p + acc) 0 corners / 4)
           (fold_right (fun p acc => Point.y p + acc) 0 corners / 4).

(** A 2 by 1 box at the origin, turned by a quarter turn. *)
Definition quarterTurned : DesignObject.t :=
  DesignObject.mk "Q" "image" 0 0 2 1 90 1 1 "thumb.png" None 0.

(** The canvas as created, what the loading phase does, and the canvas
    after the draw loop, for a request that passes validation. *)
Definition blankCanvas (size : Size.t) : Canvas.t :=
  newCanvas (ceil (Size.width size * SCALE_FACTOR))
            (ceil (Size.height size * SCALE_FACTOR)).

Definition loadingEffects (size : Size.t) (objects : list ExportObject.t)
  : list Effect :=
  [CreateCanvas (ceil (Size.width size * SCALE_FACTOR))
                (ceil (Size.height size * SCALE_FACTOR))]
  ++ concat (map loadEffects (List.filter isImage objects)).

Definition paintedCanvas (w : World.t) (size : Size.t)
  (objects : list ExportObject.t) : Canvas.t :=
  Canvas.mk (ceil (Size.width size * SCALE_FACTOR))
            (ceil (Size.height size * SCALE_FACTOR))
            (Context2D.mk Matrix.identity []
               (painted Matrix.identity (successfulImages w objects))).

(** An axis separates two polygons when all of one lies strictly before
    all of the other along it. *)
Definition separates (n : Point.t) (a b : list Point.t) : Prop :=
  (forall p q, In p a -> In q b -> projected n p < projected n q)
  \/ (forall p q, In p a -> In q b -> projected n q < projected n p).

(** ** The rest of the component state and its handlers (client) *)

Inductive ToolType : Type := Select | Hand.

Module SizeOption.
Record t : Type := mk { label : string; width : R; height : R }.
End SizeOption.

Module UploadedFile.
Record t : Type := mk {
  id : string;
  src : string;
  highResSrc : option string;
  width : R;
  height : R;
  name : string;
  isUploading : bool
}.
End UploadedFile.

(** The [useState] cells beside those of [App.t]. *)
Module Editor.
Record t : Type := mk {
  app : App.t;
  size : SizeOption.t;
  zoom : R;
  pan : Point.t;
  activeTool : ToolType;
  isSpacePressed : bool;
  uploadedFiles : list UploadedFile.t
}.
End Editor.

Definition onApp (f : App.t -> App.t) (ed : Editor.t) : Editor.t :=
  Editor.mk (f (Editor.app ed)) (Editor.size ed) (Editor.zoom ed) (Editor.pan ed)
            (Editor.activeTool ed) (Editor.isSpacePressed ed) (Editor.uploadedFiles ed).

Definition setSize (v : SizeOption.t) (ed : Editor.t) : Editor.t :=
  Editor.mk (Editor.app ed) v (Editor.zoom ed) (Editor.pan ed)
            (Editor.activeTool ed) (Editor.isSpacePressed ed) (Editor.uploadedFiles ed).

Definition setZoom (v : R) (ed : Editor.t) : Editor.t :=
  Editor.mk (Editor.app ed) (Editor.size ed) v (Editor.pan ed)
            (Editor.activeTool ed) (Editor.isSpacePressed ed) (Editor.uploadedFiles ed).

Definition setPan (v : Point.t) (ed : Editor.t) : Editor.t :=
  Editor.mk (Editor.app ed) (Editor.size ed) (Editor.zoom ed) v
            (Editor.activeTool ed) (Editor.isSpacePressed ed) (Editor.uploadedFiles ed).

Definition setActiveTool (v : ToolType) (ed : Editor.t) : Editor.t :=
  Editor.mk (Editor.app ed) (Editor.size ed) (Editor.zoom ed) (Editor.pan ed)
            v (Editor.isSpacePressed ed) (Editor.uploadedFiles ed).

Definition setUploadedFiles (v : list UploadedFile.t) (ed : Editor.t) : Editor.t :=
  Editor.mk (Editor.app ed) (Editor.size ed) (Editor.zoom ed) (Editor.pan ed)
            (Editor.activeTool ed) (Editor.isSpacePressed ed) v.

Definition SIZE_OPTIONS : list SizeOption.t :=
  [ SizeOption.mk "22 x 12 in" (22 * PPI) (12 * PPI);
    SizeOption.mk "22 x 24 in" (22 * PPI) (24 * PPI);
    SizeOption.mk "22 x 36 in" (22 * PPI) (36 * PPI);
    SizeOption.mk "22 x 48 in" (22 * PPI) (48 * PPI);
    SizeOption.mk "22 x 60 in" (22 * PPI) (60 * PPI) ].

Definition MIN_ZOOM : R := 0.1.
Definition MAX_ZOOM : R := 3.0.

Definition initialEditor : Editor.t :=
  Editor.mk initialApp (SizeOption.mk "22 x 12 in" (22 * PPI) (12 * PPI))
            0.5 (Point.mk 0 0) Select false [].

(** *** Overlap check *)

(** [potentialObjects || objects]: an array, even an empty one, is truthy. *)
Definition checkOverlap (objects : list DesignObject.t) (target : DesignObject.t)
  (potentialObjects : option (list DesignObject.t)) : bool :=
  let objList := match potentialObjects with Some l => l | None => objects end in
  if (length objList <=? 1)%nat then false
  else
    let buffer := 0.25 * PPI in
    let targetCorners := getRotatedCorners target buffer in
    existsb (fun obj =>
               if bool_decide (DesignObject.id obj = DesignObject.id target) then false
               else doPolygonsIntersect targetCorners (getRotatedCorners obj buffer))
            objList.

(** *** Adding, patching, deleting, duplicating *)

Definition addObject (obj : DesignObject.t) (ed : Editor.t) : Editor.t :=
  let objects := App.objects (Editor.app ed) in
  if existsb (fun o => bool_decide (DesignObject.id o = DesignObject.id obj)) objects
  then ed
  else
    let newObjects := objects ++ [obj] in
    setActiveTool Select
      (onApp (fun st => setSelectedIds [DesignObject.id obj] (saveHistory newObjects st))
             ed).

(** [generateId()] is random; its result is an argument here. *)
Definition addToCanvas (newId : string) (file : UploadedFile.t) (ed : Editor.t)
  : Editor.t :=
  if UploadedFile.isUploading file then ed
  else
    let maxInches := 10 in
    let maxPx := maxInches * PPI in
    let scale :=
      if gtb (UploadedFile.width file) maxPx
      then maxPx / UploadedFile.width file else 1 in
    let count := length (App.objects (Editor.app ed)) in
    let offset := INR (count mod 10) * 20 in
    let newObj :=
      DesignObject.mk newId "image" (50 + offset) (50 + offset)
        (UploadedFile.width file) (UploadedFile.height file) 0 scale scale
        (UploadedFile.src file) (UploadedFile.highResSrc file)
        (INR (length (App.objects (Editor.app ed)))) in
    addObject newObj ed.

(** [Partial<DesignObject>]: the keys a patch carries. *)
Module Patch.
Record t : Type := mk {
  id : option string;
  type : option string;
  x : option R;
  y : option R;
  width : option R;
  height : option R;
  rotation : option R;
  scaleX : option R;
  scaleY : option R;
  src : option string;
  highResSrc : option (option string);
  zIndex : option R
}.
Definition empty : t :=
  mk None None None None None None None None None None None None.
End Patch.

(** [{ ...obj, ...attrs }] *)
Definition applyPatch (obj : DesignObject.t) (attrs : Patch.t) : DesignObject.t :=
  DesignObject.mk
    (default (DesignObject.id obj) (Patch.id attrs))
    (default (DesignObject.type obj) (Patch.type attrs))
    (default (DesignObject.x obj) (Patch.x attrs))
    (default (DesignObject.y obj) (Patch.y attrs))
    (default (DesignObject.width obj) (Patch.width attrs))
    (default (DesignObject.height obj) (Patch.height attrs))
    (default (DesignObject.rotation obj) (Patch.rotation attrs))
    (default (DesignObject.scaleX obj) (Patch.scaleX attrs))
    (default (DesignObject.scaleY obj) (Patch.scaleY attrs))
    (default (DesignObject.src obj) (Patch.src attrs))
    (default (DesignObject.highResSrc obj) (Patch.highResSrc attrs))
    (default (DesignObject.zIndex obj) (Patch.zIndex attrs)).

Definition getUpdatedObjects (objects : list DesignObject.t) (id : string)
  (attrs : Patch.t) : list DesignObject.t :=
  map (fun obj => if bool_decide (DesignObject.id obj = id)
                  then applyPatch obj attrs else obj)
      objects.

Definition handleDelete (st : App.t) : App.t :=
  if (0 <? length (App.selectedIds st))%nat then
    let newObjects :=
      List.filter (fun o => negb (includes (App.selectedIds st) (DesignObject.id o)))
                  (App.objects st) in
    setSelectedIds [] (saveHistory newObjects st)
  else st.

Definition deleteSingle (id : string) (st : App.t) : App.t :=
  let newObjects :=
    List.filter (fun o => negb (bool_decide (DesignObject.id o = id))) (App.objects st) in
  setSelectedIds
    (List.filter (fun pid => negb (bool_decide (pid = id))) (App.selectedIds st))
    (saveHistory newObjects st).

(** The copy [handleDuplicate] makes of [obj] when [added] copies were
    made before it. *)
Definition duplicateOf (count : nat) (newId : string) (added : nat)
  (obj : DesignObject.t) : DesignObject.t :=
  DesignObject.mk newId (DesignObject.type obj)
    (DesignObject.x obj + 30) (DesignObject.y obj + 30)
    (DesignObject.width obj) (DesignObject.height obj)
    (DesignObject.rotation obj) (DesignObject.scaleX obj) (DesignObject.scaleY obj)
    (DesignObject.src obj) (DesignObject.highResSrc obj)
    (INR (count + added)).

(** The body of the [objects.forEach] of [handleDuplicate]; [gen k] is the
    result of the k-th call of [generateId()]. *)
Definition duplicateStep (gen : nat -> string) (selectedIds : list string)
  (count : nat) (acc : list DesignObject.t * list string) (obj : DesignObject.t)
  : list DesignObject.t * list string :=
  if includes selectedIds (DesignObject.id obj) then
    let newId := gen (length (fst acc)) in
    (fst acc ++ [duplicateOf count newId (length (fst acc)) obj],
     snd acc ++ [newId])
  else acc.

Definition handleDuplicate (gen : nat -> string) (st : App.t) : App.t :=
  if (length (App.selectedIds st) =? 0)%nat then st
  else
    let r := fold_left (duplicateStep gen (App.selectedIds st) (length (App.objects st)))
                       (App.objects st) ([], []) in
    if (0 <? length (fst r))%nat then
      setSelectedIds (snd r) (saveHistory (App.objects st ++ fst r) st)
    else st.

(** *** Transform handlers *)

(** A Konva transform event: the target's id and its live attributes. *)
Module TransformEvent.
Record t : Type := mk {
  id : string; x : R; y : R; rotation : R; scaleX : R; scaleY : R
}.
End TransformEvent.

Definition onTransformStart (id : string) (st : App.t) : App.t :=
  let st :=
    match findObject (App.objects st) id with
    | Some obj => setDragStartAttrs (<[ id := obj ]> (App.dragStartAttrs st)) st
    | None => st
    end in
  setIsDragging true st.

Definition transformPatch (e : TransformEvent.t) : Patch.t :=
  Patch.mk None None (Some (TransformEvent.x e)) (Some (TransformEvent.y e))
           None None (Some (TransformEvent.rotation e))
           (Some (TransformEvent.scaleX e)) (Some (TransformEvent.scaleY e))
           None None None.

Definition onTransformEnd (e : TransformEvent.t) (st : App.t) : App.t :=
  let finalObjects :=
    getUpdatedObjects (App.objects st) (TransformEvent.id e) (transformPatch e) in
  setIsDragging false (saveHistory finalObjects st).

(** *** Pointer handlers on the stage *)

(** What was hit: a handle of the transformer, the empty stage, or a node
    whose parent chain gives [clickedId] (or no id at all). *)
Inductive MouseTarget : Type :=
| OnTransformer
| OnStage
| OnNode (clickedId : option string).

(** [localPos] is the pointer position brought into sheet space by the
    inverse of the layer transform. *)
Module StageMouseEvent.
Record t : Type := mk {
  target : MouseTarget;
  button : nat;
  shiftKey : bool;
  ctrlKey : bool;
  metaKey : bool;
  localPos : Point.t
}.
End StageMouseEvent.

Definition isMultiSelect (e : StageMouseEvent.t) : bool :=
  StageMouseEvent.shiftKey e || StageMouseEvent.ctrlKey e || StageMouseEvent.metaKey e.

Definition isSelectTool (tool : ToolType) : bool :=
  match tool with Select => true | Hand => false end.

Definition handleStageMouseDown (e : StageMouseEvent.t) (ed : Editor.t) : Editor.t :=
  match StageMouseEvent.target e with
  | OnTransformer => ed
  | target =>
      let isMiddleClick := (StageMouseEvent.button e =? 1)%nat in
      let isHandMode :=
        negb (isSelectTool (Editor.activeTool ed))
        || Editor.isSpacePressed ed || isMiddleClick in
      if isHandMode then onApp (setIsPanning true) ed
      else if isSelectTool (Editor.activeTool ed) then
        let localPos := StageMouseEvent.localPos e in
        match target with
        | OnStage =>
            let ed :=
              onApp (setSelectionBox
                       (Some (SelectionBox.mk (Point.x localPos) (Point.y localPos)
                                (Point.x localPos) (Point.y localPos) 0 0))) ed in
            if isMultiSelect e then ed else onApp (setSelectedIds []) ed
        | OnNode (Some clickedId) =>
            let selectedIds := App.selectedIds (Editor.app ed) in
            if isMultiSelect e then
              if includes selectedIds clickedId then
                onApp (setSelectedIds
                         (List.filter (fun id => negb (bool_decide (id = clickedId)))
                                      selectedIds)) ed
              else onApp (setSelectedIds (selectedIds ++ [clickedId])) ed
            else
              if includes selectedIds clickedId then ed
              else onApp (setSelectedIds [clickedId]) ed
        | _ => ed
        end
      else ed
  end.

Module MouseMoveEvent.
Record t : Type := mk { movementX : R; movementY : R; localPos : Point.t }.
End MouseMoveEvent.

Definition handleMouseMove (e : MouseMoveEvent.t) (ed : Editor.t) : Editor.t :=
  if App.isPanning (Editor.app ed) then
    setPan (Point.mk (Point.x (Editor.pan ed) + MouseMoveEvent.movementX e)
                     (Point.y (Editor.pan ed) + MouseMoveEvent.movementY e)) ed
  else
    match App.selectionBox (Editor.app ed) with
    | Some prev =>
        let localPos := MouseMoveEvent.localPos e in
        onApp (setSelectionBox
                 (Some (SelectionBox.mk
                          (SelectionBox.startX prev) (SelectionBox.startY prev)
                          (Rmin (SelectionBox.startX prev) (Point.x localPos))
                          (Rmin (SelectionBox.startY prev) (Point.y localPos))
                          (Rabs (Point.x localPos - SelectionBox.startX prev))
                          (Rabs (Point.y localPos - SelectionBox.startY prev)))))
              ed
    | None => ed
    end.

(** A marquee gesture on the empty stage: press at [p0] with the given
    modifier keys, move through [path], release. *)
Definition marqueeGesture (shiftKey ctrlKey metaKey : bool) (p0 : Point.t)
  (path : list Point.t) (ed : Editor.t) : Editor.t :=
  onApp handleMouseUp
    (fold_left (fun s p => handleMouseMove (MouseMoveEvent.mk 0 0 p) s) path
       (handleStageMouseDown
          (StageMouseEvent.mk OnStage 0 shiftKey ctrlKey metaKey p0) ed)).

(** *** Zoom and pan *)

Module DOMRect.
Record t : Type := mk { left : R; top : R; width : R; height : R }.
End DOMRect.

Module WheelEvent.
Record t : Type := mk { deltaX : R; deltaY : R; clientX : R; clientY : R }.
End WheelEvent.

(** [container] is [containerRef.current]'s bounding rectangle, absent
    when the ref is not set. *)
Definition handleWheel (container : option DOMRect.t) (e : WheelEvent.t)
  (ed : Editor.t) : Editor.t :=
  match container with
  | None => ed
  | Some rect =>
      if negb (Editor.isSpacePressed ed) then
        setPan (Point.mk (Point.x (Editor.pan ed) - WheelEvent.deltaX e)
                         (Point.y (Editor.pan ed) - WheelEvent.deltaY e)) ed
      else if Req_dec_T (WheelEvent.deltaY e) 0 then ed
      else
        let delta := Rabs (WheelEvent.deltaY e) in
        let scaleBy := 1.01 + Rmax 0.04 (delta * 0.001) in
        let oldZoom := Editor.zoom ed in
        let newZoom :=
          if ltb (WheelEvent.deltaY e) 0 then oldZoom * scaleBy else oldZoom / scaleBy in
        let newZoom := Rmax MIN_ZOOM (Rmin MAX_ZOOM newZoom) in
        let centerX := DOMRect.width rect / 2 in
        let centerY := DOMRect.height rect / 2 in
        let mouseX := WheelEvent.clientX e - DOMRect.left rect - centerX in
        let mouseY := WheelEvent.clientY e - DOMRect.top rect - centerY in
        let pan := Editor.pan ed in
        let newPanX := mouseX - (mouseX - Point.x pan) * (newZoom / oldZoom) in
        let newPanY := mouseY - (mouseY - Point.y pan) * (newZoom / oldZoom) in
        setPan (Point.mk newPanX newPanY) (setZoom newZoom ed)
  end.

(** The two zoom buttons. *)
Definition zoomOut (ed : Editor.t) : Editor.t :=
  setZoom (Rmax MIN_ZOOM (Editor.zoom ed - 0.1)) ed.
Definition zoomIn (ed : Editor.t) : Editor.t :=
  setZoom (Rmin MAX_ZOOM (Editor.zoom ed + 0.1)) ed.

(** *** The size inputs of the selected object *)

Definition selectedObject (st : App.t) : option DesignObject.t :=
  match App.selectedIds st with
  | [id] => findObject (App.objects st) id
  | _ => None
  end.

Definition scalePatch (sx sy : R) : Patch.t :=
  Patch.mk None None None None None None None (Some sx) (Some sy) None None None.

(** The values shown in the two inputs, in inches. *)
Definition shownWidth (o : DesignObject.t) : R :=
  (DesignObject.width o * DesignObject.scaleX o) / PPI.
Definition shownHeight (o : DesignObject.t) : R :=
  (DesignObject.height o * DesignObject.scaleY o) / PPI.

(** [onChange] of the width input, reached from [handleChange] only for a
    number greater than 0 ([parsed = None] stands for [NaN]). *)
Definition widthInputChange (parsed : option R) (st : App.t) : App.t :=
  match parsed, selectedObject st with
  | Some val, Some so =>
      if gtb val 0 then
        let newScaleX := (val * PPI) / DesignObject.width so in
        let ratio := DesignObject.scaleY so / DesignObject.scaleX so in
        let newScaleY := newScaleX * ratio in
        setObjects (getUpdatedObjects (App.objects st) (DesignObject.id so)
                      (scalePatch newScaleX newScaleY)) st
      else st
  | _, _ => st
  end.

Definition heightInputChange (parsed : option R) (st : App.t) : App.t :=
  match parsed, selectedObject st with
  | Some val, Some so =>
      if gtb val 0 then
        let newScaleY := (val * PPI) / DesignObject.height so in
        let ratio := DesignObject.scaleX so / DesignObject.scaleY so in
        let newScaleX := newScaleY * ratio in
        setObjects (getUpdatedObjects (App.objects st) (DesignObject.id so)
                      (scalePatch newScaleX newScaleY)) st
      else st
  | _, _ => st
  end.

(** [onCommit] of both inputs. *)
Definition sizeInputCommit (st : App.t) : App.t :=
  saveHistory (App.objects st) st.

(** *** Loading a saved design *)

Module DesignData.
Record t : Type := mk {
  objects : option (list DesignObject.t);
  size : option SizeOption.t;
  uploadedFiles : option (list UploadedFile.t)
}.
End DesignData.

(** The [.then(data => ...)] callback of the load effect. *)
Definition applyLoadedDesign (data : DesignData.t) (ed : Editor.t) : Editor.t :=
  let ed := match DesignData.objects data with
            | Some l => onApp (setObjects l) ed
            | None => ed
            end in
  let ed := match DesignData.size data with
            | Some s => setSize s ed
            | None => ed
            end in
  let ed := match DesignData.uploadedFiles data with
            | Some l => setUploadedFiles l ed
            | None => ed
            end in
  onApp (setHistory [default [] (DesignData.objects data)]) ed.

(** *** Sending an export *)

(** [!obj.highResSrc] *)
Definition lacksHighRes (obj : DesignObject.t) : bool :=
  bool_decide (DesignObject.type obj = "image"%string)
  && negb (truthyStr (DesignObject.highResSrc obj)).

(** The first part of [handleExport]: what is sent, if anything;
    [confirmed] is the answer to [window.confirm]. *)
Definition exportRequest (confirmed : bool) (ed : Editor.t)
  : option (SizeOption.t * list DesignObject.t) :=
  let objects := App.objects (Editor.app ed) in
  if (length objects =? 0)%nat then None
  else
    let imagesWithoutHighRes := List.filter lacksHighRes objects in
    if (0 <? length imagesWithoutHighRes)%nat && negb confirmed then None
    else Some (Editor.size ed, objects).

(** [JSON.stringify({ size, objects })] as the server's [req.body] reads
    it: every field of a [DesignObject] is present, [highResSrc] when set. *)
Definition toExportObject (o : DesignObject.t) : ExportObject.t :=
  ExportObject.mk (DesignObject.id o) (DesignObject.type o)
    (DesignObject.x o) (DesignObject.y o)
    (DesignObject.width o) (DesignObject.height o)
    (Some (DesignObject.rotation o)) (Some (DesignObject.scaleX o))
    (Some (DesignObject.scaleY o)) (Some (DesignObject.src o))
    (DesignObject.highResSrc o).

Definition toBody (request : SizeOption.t * list DesignObject.t) : Body.t :=
  Body.mk (Some (Size.mk (SizeOption.width (fst request))
                         (SizeOption.height (fst request))))
          (ObjectsArray (map toExportObject (snd request))).

(** *** Notions for the statements about the added code *)

(** A weighted sum of the vertices of a polygon, and the points of its
    convex hull: the weighted sums with non-negative weights of total 1. *)
Fixpoint combination (ws : list R) (ps : list Point.t) : Point.t :=
  match ws, ps with
  | w :: ws', p :: ps' =>
      Point.mk (w * Point.x p + Point.x (combination ws' ps'))
               (w * Point.y p + Point.y (combination ws' ps'))
  | _, _ => Point.mk 0 0
  end.

Fixpoint weightSum (ws : list R) : R :=
  match ws with
  | w :: ws' => w + weightSum ws'
  | [] => 0
  end.

Definition inHull (polygon : list Point.t) (p : Point.t) : Prop :=
  exists ws, length ws = length polygon
             /\ Forall (fun w => 0 <= w) ws
             /\ weightSum ws = 1
             /\ p = combination ws polygon.

Definition translate (dx dy : R) (p : Point.t) : Point.t :=
  Point.mk (Point.x p + dx) (Point.y p + dy).

(** An unrotated object with a box of positive size. *)
Definition upright (o : DesignObject.t) : Prop :=
  DesignObject.rotation o = 0 /\ 0 < scaledWidth o /\ 0 < scaledHeight o.

(** The boxes of two objects come within [gap] of each other on both
    axes. *)
Definition within (gap : R) (a b : DesignObject.t) : Prop :=
  DesignObject.x a <= DesignObject.x b + scaledWidth b + gap
  /\ DesignObject.x b <= DesignObject.x a + scaledWidth a + gap
  /\ DesignObject.y a <= DesignObject.y b + scaledHeight b + gap
  /\ DesignObject.y b <= DesignObject.y a + scaledHeight a + gap.

(** The objects shown are the history entry under the cursor. *)
Definition historyCurrent (st : App.t) : Prop :=
  App.history st !! App.historyStep st = Some (App.objects st).

Definition objectIds (objects : list DesignObject.t) : list string :=
  map DesignObject.id objects.

(** Adding [c] to a projection bound; the infinities stay. *)
Definition xshift (c : R) (v : xnum) : xnum :=
  match v with
  | Finite r => Finite (r + c)
  | other => other
  end.

(** The copies [handleDuplicate] makes of the picked objects, the first
    one being the [k]-th copy of the call. *)
Fixpoint copiesFrom (gen : nat -> string) (count k : nat)
  (picked : list DesignObject.t) : list DesignObject.t :=
  match picked with
  | [] => []
  | o :: rest => duplicateOf count (gen k) k o :: copiesFrom gen count (S k) rest
  end.

(** The selected objects, in list order. *)
Definition pickedObjects (st : App.t) : list DesignObject.t :=
  List.filter (fun o => includes (App.selectedIds st) (DesignObject.id o))
              (App.objects st).

(** The marquee spanned from the press point [start] to the pointer [p]. *)
Definition spanBox (start p : Point.t) : SelectionBox.t :=
  SelectionBox.mk (Point.x start) (Point.y start)
    (Rmin (Point.x start) (Point.x p)) (Rmin (Point.y start) (Point.y p))
    (Rabs (Point.x p - Point.x start)) (Rabs (Point.y p - Point.y start)).

(** The editor ready for a marquee: select tool, space bar up, not
    panning. *)
Definition readyToSelect (ed : Editor.t) : Prop :=
  Editor.activeTool ed = Select
  /\ Editor.isSpacePressed ed = false
  /\ App.isPanning (Editor.app ed) = false.

(** The zoom stays between [MIN_ZOOM] and [MAX_ZOOM]. *)
Definition zoomInRange (ed : Editor.t) : Prop :=
  MIN_ZOOM <= Editor.zoom ed <= MAX_ZOOM.

(** The sheet point shown at the offset [m] from the centre of the
    container: the CSS transform is [translate(pan) scale(zoom)] about the
    centre. *)
Definition sheetPointAt (ed : Editor.t) (m : Point.t) : Point.t :=
  Point.mk ((Point.x m - Point.x (Editor.pan ed)) / Editor.zoom ed)
           ((Point.y m - Point.y (Editor.pan ed)) / Editor.zoom ed).

(** The pointer position of a wheel event, from the centre of the
    container. *)
Definition wheelMouse (rect : DOMRect.t) (e : WheelEvent.t) : Point.t :=
  Point.mk (WheelEvent.clientX e - DOMRect.left rect - DOMRect.width rect / 2)
           (WheelEvent.clientY e - DOMRect.top rect - DOMRect.height rect / 2).

(** The view operations, as data. *)
Inductive ViewOp : Type :=
| Wheel (container : option DOMRect.t) (e : WheelEvent.t)
| ZoomIn
| ZoomOut.

Definition applyViewOp (ed : Editor.t) (op : ViewOp) : Editor.t :=
  match op with
  | Wheel container e => handleWheel container e ed
  | ZoomIn => zoomIn ed
  | ZoomOut => zoomOut ed
  end.

(** The corners of the rectangle a draw call covers on the raster, in the
    order top-left, top-right, bottom-right, bottom-left of the image. *)
Definition drawnCorners (op : DrawOp.t) : list Point.t :=
  map (Matrix.apply (DrawOp.transform op))
      [ Point.mk (DrawOp.dx op) (DrawOp.dy op);
        Point.mk (DrawOp.dx op + DrawOp.dw op) (DrawOp.dy op);
        Point.mk (DrawOp.dx op + DrawOp.dw op) (DrawOp.dy op + DrawOp.dh op);
        Point.mk (DrawOp.dx op) (DrawOp.dy op + DrawOp.dh op) ].

(** A sheet point on the raster. *)
Definition toRaster (p : Point.t) : Point.t :=
  Point.mk (Point.x p * SCALE_FACTOR) (Point.y p * SCALE_FACTOR).

(** The URLs the loading phase asks for. *)
Definition requestedUrls (objects : list ExportObject.t) : list string :=
  flat_map (fun o => match imageUrl o with Some url => [url] | None => [] end)
           (List.filter isImage objects).

(** A request whose only object is a text. *)
Definition textOnlyBody : Body.t :=
  Body.mk (Some sampleSize)
          (ObjectsArray [ExportObject.mk "T" "text" 0 0 10 10 None None None None None]).

(** * Properties *)

(** ** Comparisons *)

Lemma ltb_true_iff a b : ltb a b = true <-> a < b.
Proof. unfold ltb. destruct (Rlt_dec a b); split; intros; try easy. Qed.

Lemma ltb_false_iff a b : ltb a b = false <-> b <= a.
Proof.
  unfold ltb. destruct (Rlt_dec a b); split; intros; try easy; lra.
Qed.

(** ** Oriented corners *)

Lemma sin_cos_unit a : sin a * sin a + cos a * cos a = 1.
Proof. pose proof (sin2_cos2 a) as H. unfold Rsqr in H. exact H. Qed.

Lemma point_eq x1 y1 x2 y2 : x1 = x2 -> y1 = y2 -> Point.mk x1 y1 = Point.mk x2 y2.
Proof. intros -> ->. reflexivity. Qed.

Lemma getRotatedCorners_unfold obj buffer :
  let c := cos (DesignObject.rotation obj * PI / 180) in
  let s := sin (DesignObject.rotation obj * PI / 180) in
  let W := scaledWidth obj + 2 * buffer in
  let H := scaledHeight obj + 2 * buffer in
  let ox := DesignObject.x obj in
  let oy := DesignObject.y obj in
  getRotatedCorners obj buffer
  = [ Point.mk (ox - buffer * c + buffer * s) (oy - buffer * s - buffer * c);
      Point.mk (ox + (W - buffer) * c + buffer * s) (oy + (W - buffer) * s - buffer * c);
      Point.mk (ox + (W - buffer) * c - (H - buffer) * s)
               (oy + (W - buffer) * s + (H - buffer) * c);
      Point.mk (ox - buffer * c - (H - buffer) * s) (oy - buffer * s + (H - buffer) * c) ].
Proof.
  cbv zeta. unfold getRotatedCorners, scaledWidth, scaledHeight.
  cbn [map Point.x Point.y].
  repeat apply (f_equal2 (@cons Point.t)); try reflexivity; apply point_eq; ring.
Qed.

Lemma getRotatedCorners_about_anchor obj buffer :
  getRotatedCorners obj buffer = cornersAboutAnchor obj buffer.
Proof.
  rewrite getRotatedCorners_unfold. cbv zeta.
  unfold cornersAboutAnchor, inflatedBox, rectPolygon, rotateAbout, anchor.
  cbn [map Point.x Point.y].
  repeat apply (f_equal2 (@cons Point.t)); try reflexivity; apply point_eq; ring.
Qed.

Lemma quarter_turn : 90 * PI / 180 = PI / 2.
Proof. lra. Qed.
Lemma half_turn : 180 * PI / 180 = PI.
Proof. lra. Qed.
Lemma three_quarter_turn : 270 * PI / 180 = 3 * (PI / 2).
Proof. lra. Qed.
Lemma no_turn : 0 * PI / 180 = 0.
Proof. lra. Qed.

Ltac corner_list :=
  repeat apply (f_equal2 (@cons Point.t)); try reflexivity; apply point_eq.

(** C2 (as amended): [getRotatedCorners] returns the four corners of the
    rectangle of size [(width*|scaleX| + 2*buffer)] by
    [(height*|scaleY| + 2*buffer)] obtained by growing the object's box at
    [(x, y)] by [buffer] and turning it by [rotation] degrees about the
    anchor [(x, y)], the box's top-left corner; the corners come in the
    same winding order for every object.  For rotation 0, 90, 180 and 270
    and zero buffer they are the corners of the axis-aligned rectangle
    that results from turning the box about [(x, y)]: exactly so with the
    real cosine and sine used here, hence up to the rounding of the
    floating-point ones in the program. *)
Theorem rotated_corners_about_anchor (obj : DesignObject.t) (buffer : R) :
  let W := scaledWidth obj + 2 * buffer in
  let H := scaledHeight obj + 2 * buffer in
  let x := DesignObject.x obj in
  let y := DesignObject.y obj in
  let w := scaledWidth obj in
  let h := scaledHeight obj in
  getRotatedCorners obj buffer = cornersAboutAnchor obj buffer
  /\ (exists c0 c1 c2 c3,
        getRotatedCorners obj buffer = [c0; c1; c2; c3]
        /\ sqDist c0 c1 = W * W /\ sqDist c1 c2 = H * H
        /\ sqDist c2 c3 = W * W /\ sqDist c3 c0 = H * H
        /\ dotAt c0 c1 c3 = 0 /\ dotAt c1 c2 c0 = 0
        /\ dotAt c2 c3 c1 = 0 /\ dotAt c3 c0 c2 = 0
        /\ crossAt c0 c1 c3 = W * H
        /\ (buffer = 0 -> c0 = anchor obj))
  /\ (buffer = 0 -> DesignObject.rotation obj = 0 ->
      getRotatedCorners obj buffer
      = [ Point.mk x y; Point.mk (x + w) y;
          Point.mk (x + w) (y + h); Point.mk x (y + h) ])
  /\ (buffer = 0 -> DesignObject.rotation obj = 90 ->
      getRotatedCorners obj buffer
      = [ Point.mk x y; Point.mk x (y + w);
          Point.mk (x - h) (y + w); Point.mk (x - h) y ])
  /\ (buffer = 0 -> DesignObject.rotation obj = 180 ->
      getRotatedCorners obj buffer
      = [ Point.mk x y; Point.mk (x - w) y;
          Point.mk (x - w) (y - h); Point.mk x (y - h) ])
  /\ (buffer = 0 -> DesignObject.rotation obj = 270 ->
      getRotatedCorners obj buffer
      = [ Point.mk x y; Point.mk x (y - w);
          Point.mk (x + h) (y - w); Point.mk (x + h) y ]).
Proof.
  intros W H x y w h.
  split; [apply getRotatedCorners_about_anchor|].
  rewrite getRotatedCorners_unfold. cbv zeta. fold W H x y w h.
  pose proof (sin_cos_unit (DesignObject.rotation obj * PI / 180)) as Hu.
  split.
  { do 4 eexists. split; [reflexivity|].
    unfold sqDist, dotAt, crossAt, anchor. cbn [Point.x Point.y].
    set (c := cos _) in *. set (s := sin _) in *.
    repeat split.
    - replace (W * W) with (W * W * (s * s + c * c)) by (rewrite Hu; ring). ring.
    - replace (H * H) with (H * H * (s * s + c * c)) by (rewrite Hu; ring). ring.
    - replace (W * W) with (W * W * (s * s + c * c)) by (rewrite Hu; ring). ring.
    - replace (H * H) with (H * H * (s * s + c * c)) by (rewrite Hu; ring). ring.
    - ring.
    - ring.
    - ring.
    - ring.
    - replace (W * H) with (W * H * (s * s + c * c)) by (rewrite Hu; ring). ring.
    - intros ->. fold x y. apply point_eq; ring. }
  split; [|split; [|split]]; intros -> Hrot; rewrite Hrot; subst W H x y w h.
  - rewrite no_turn, cos_0, sin_0. corner_list; ring.
  - rewrite quarter_turn, cos_PI2, sin_PI2. corner_list; ring.
  - rewrite half_turn, cos_PI, sin_PI. corner_list; ring.
  - rewrite three_quarter_turn, cos_3PI2, sin_3PI2. corner_list; ring.
Qed.

Lemma rotated_corners_about_anchor_witness :
  getRotatedCorners quarterTurned 0
  = [ Point.mk 0 0;
      Point.mk 0 (0 + scaledWidth quarterTurned);
      Point.mk (0 - scaledHeight quarterTurned) (0 + scaledWidth quarterTurned);
      Point.mk (0 - scaledHeight quarterTurned) 0 ].
Proof.
  destruct (rotated_corners_about_anchor quarterTurned 0)
    as (_ & _ & _ & H90 & _).
  exact (H90 eq_refl eq_refl).
Defined.

Lemma quarterTurned_size :
  scaledWidth quarterTurned = 2 /\ scaledHeight quarterTurned = 1.
Proof.
  unfold scaledWidth, scaledHeight, quarterTurned.
  cbn [DesignObject.width DesignObject.height DesignObject.scaleX DesignObject.scaleY].
  rewrite Rabs_pos_eq by lra. split; lra.
Qed.

(** Turning the box about the object's centre leaves its centroid at that
    centre, whatever the angle. *)
Lemma cornersAboutCentre_centroid obj buffer :
  centroid (cornersAboutCentre obj buffer) = centre obj.
Proof.
  unfold centroid, cornersAboutCentre, inflatedBox, rectPolygon, rotateAbout, centre.
  cbn [map fold_right Point.x Point.y]. apply point_eq; field.
Qed.

(** C2 as first stated fails: the box is not turned about the object's
    own centre.  For a 2 by 1 box at the origin turned by 90 degrees the
    code returns the corners of [[-1,0] x [0,2]], while turning about the
    centre [(1, 1/2)] gives [[1/2,3/2] x [-1/2,3/2]]; the two have no
    corner in common, and the centroid of the returned corners,
    [(-1/2, 1)], is not the object's centre. *)
Lemma rotated_corners_centre_counterexample :
  getRotatedCorners quarterTurned 0
  = [ Point.mk 0 0; Point.mk 0 2; Point.mk (-1) 2; Point.mk (-1) 0 ]
  /\ cornersAboutCentre quarterTurned 0
     = [ Point.mk (3/2) (-1/2); Point.mk (3/2) (3/2);
         Point.mk (1/2) (3/2); Point.mk (1/2) (-1/2) ]
  /\ getRotatedCorners quarterTurned 0 <> cornersAboutCentre quarterTurned 0
  /\ (forall p, In p (getRotatedCorners quarterTurned 0) ->
                ~ In p (cornersAboutCentre quarterTurned 0))
  /\ centroid (getRotatedCorners quarterTurned 0) = Point.mk (-1/2) 1
  /\ centre quarterTurned = Point.mk 1 (1/2)
  /\ centroid (getRotatedCorners quarterTurned 0) <> centre quarterTurned.
Proof.
  destruct quarterTurned_size as [Hw Hh].
  assert (Hcode : getRotatedCorners quarterTurned 0
                  = [ Point.mk 0 0; Point.mk 0 2; Point.mk (-1) 2; Point.mk (-1) 0 ]).
  { rewrite getRotatedCorners_unfold. cbv zeta. rewrite Hw, Hh.
    cbn [DesignObject.rotation DesignObject.x DesignObject.y quarterTurned].
    rewrite quarter_turn, cos_PI2, sin_PI2. corner_list; ring. }
  assert (Hspec : cornersAboutCentre quarterTurned 0
                  = [ Point.mk (3/2) (-1/2); Point.mk (3/2) (3/2);
                      Point.mk (1/2) (3/2); Point.mk (1/2) (-1/2) ]).
  { unfold cornersAboutCentre, inflatedBox, rectPolygon, rotateAbout, centre.
    rewrite Hw, Hh.
    cbn [map Point.x Point.y DesignObject.rotation DesignObject.x DesignObject.y
         quarterTurned].
    rewrite quarter_turn, cos_PI2, sin_PI2. corner_list; lra. }
  assert (Hmid : centroid (getRotatedCorners quarterTurned 0) = Point.mk (-1/2) 1).
  { rewrite Hcode. unfold centroid. cbn [fold_right Point.x Point.y].
    apply point_eq; lra. }
  assert (Hcentre : centre quarterTurned = Point.mk 1 (1/2)).
  { unfold centre. rewrite Hw, Hh.
    cbn [DesignObject.x DesignObject.y quarterTurned]. apply point_eq; lra. }
  split; [exact Hcode|]. split; [exact Hspec|]. rewrite Hcode, Hspec.
  split; [|split; [|split; [|split]]].
  - intros Heq. injection Heq. intros. lra.
  - intros p Hp Hq. simpl in Hp, Hq.
    destruct Hp as [<-|[<-|[<-|[<-|[]]]]];
      destruct Hq as [Hq|[Hq|[Hq|[Hq|[]]]]]; injection Hq; intros; lra.
  - rewrite <- Hcode. exact Hmid.
  - exact Hcentre.
  - rewrite <- Hcode, Hmid, Hcentre. intros Heq. injection Heq. intros. lra.
Qed.

(** ** Separating axes *)

Lemma projectStep_finite n m M p :
  projectStep n (Finite m, Finite M) p
  = (Finite (if Rlt_dec (projected n p) m then projected n p else m),
     Finite (if Rlt_dec M (projected n p) then projected n p else M)).
Proof.
  unfold projectStep, xltb, ltb. cbn [fst snd].
  destruct (Rlt_dec (projected n p) m), (Rlt_dec M (projected n p)); reflexivity.
Qed.

Lemma projectFold_finite n rest : forall m M,
  m <= M ->
  exists m' M',
    fold_left (projectStep n) rest (Finite m, Finite M) = (Finite m', Finite M')
    /\ m' <= m /\ M <= M'
    /\ (forall q, In q rest -> m' <= projected n q <= M')
    /\ (m' = m \/ exists q, In q rest /\ projected n q = m')
    /\ (M' = M \/ exists q, In q rest /\ projected n q = M').
Proof.
  induction rest as [|p rest IH]; intros m M HmM; cbn [fold_left].
  - exists m, M. split; [reflexivity|]. split; [lra|]. split; [lra|].
    split; [intros q []|]. split; left; reflexivity.
  - rewrite projectStep_finite.
    set (m1 := if Rlt_dec (projected n p) m then projected n p else m).
    set (M1 := if Rlt_dec M (projected n p) then projected n p else M).
    assert (Hm1 : m1 <= m /\ m1 <= projected n p
                  /\ (m1 = m \/ m1 = projected n p)).
    { unfold m1. destruct (Rlt_dec (projected n p) m); repeat split; auto; lra. }
    assert (HM1 : M <= M1 /\ projected n p <= M1
                  /\ (M1 = M \/ M1 = projected n p)).
    { unfold M1. destruct (Rlt_dec M (projected n p)); repeat split; auto; lra. }
    destruct Hm1 as (Ha & Hb & Hc). destruct HM1 as (Hd & He & Hf).
    destruct (IH m1 M1) as (m' & M' & Hfold & H1 & H2 & H3 & H4 & H5); [lra|].
    exists m', M'. split; [exact Hfold|]. split; [lra|]. split; [lra|].
    split; [|split].
    + intros q [<-|Hq]; [lra|]. apply H3, Hq.
    + destruct H4 as [H4|(q & Hq & Hpq)].
      * destruct Hc as [Hc|Hc]; [left; lra|].
        right. exists p. split; [simpl; auto|lra].
      * right. exists q. split; [simpl; auto|exact Hpq].
    + destruct H5 as [H5|(q & Hq & Hpq)].
      * destruct Hf as [Hf|Hf]; [left; lra|].
        right. exists p. split; [simpl; auto|lra].
      * right. exists q. split; [simpl; auto|exact Hpq].
Qed.

(** On a polygon with at least one vertex the loop leaves the least and
    the greatest projection in [minA], [maxA]. *)
Lemma projectRange_spec n poly :
  poly <> [] ->
  exists m M,
    projectRange n poly = (Finite m, Finite M)
    /\ (forall q, In q poly -> m <= projected n q <= M)
    /\ (exists q, In q poly /\ projected n q = m)
    /\ (exists q, In q poly /\ projected n q = M).
Proof.
  destruct poly as [|p rest]; [congruence|]. intros _.
  unfold projectRange. cbn [fold_left].
  assert (Hfirst : projectStep n (Infinity, NegInfinity) p
                   = (Finite (projected n p), Finite (projected n p)))
    by reflexivity.
  rewrite Hfirst.
  destruct (projectFold_finite n rest (projected n p) (projected n p))
    as (m & M & Hfold & H1 & H2 & H3 & H4 & H5); [lra|].
  exists m, M. split; [exact Hfold|]. split; [|split].
  - intros q [<-|Hq]; [lra|]. apply H3, Hq.
  - destruct H4 as [->|(q & Hq & Hpq)].
    + exists p. simpl; auto.
    + exists q. simpl; auto.
  - destruct H5 as [->|(q & Hq & Hpq)].
    + exists p. simpl; auto.
    + exists q. simpl; auto.
Qed.

Lemma separatedOn_true_iff n a b :
  a <> [] -> b <> [] -> (separatedOn n a b = true <-> separates n a b).
Proof.
  intros Ha Hb. unfold separatedOn, separates.
  destruct (projectRange_spec n a Ha) as (mA & MA & -> & HA & (pm & Hpm & Epm) & (pM & HpM & EpM)).
  destruct (projectRange_spec n b Hb) as (mB & MB & -> & HB & (qm & Hqm & Eqm) & (qM & HqM & EqM)).
  cbn [fst snd xltb]. rewrite orb_true_iff, !ltb_true_iff. split.
  - intros [H|H]; [left|right]; intros p q Hp Hq;
      specialize (HA p Hp); specialize (HB q Hq); lra.
  - intros [H|H]; [left|right].
    + specialize (H pM qm HpM Hqm). lra.
    + specialize (H pm qM Hpm HqM). lra.
Qed.

Lemma doPolygonsIntersect_true_iff a b :
  doPolygonsIntersect a b = true <->
  forall n, In n (edgeNormals a ++ edgeNormals b) -> separatedOn n a b = false.
Proof.
  unfold doPolygonsIntersect. cbn [forallb]. rewrite andb_true_r, andb_true_iff.
  rewrite !forallb_forall. split.
  - intros [H1 H2] n Hn. apply in_app_iff in Hn as [Hn|Hn];
      [specialize (H1 n Hn)|specialize (H2 n Hn)];
      now apply negb_true_iff.
  - intros H. split; intros n Hn; apply negb_true_iff, H, in_app_iff; auto.
Qed.

(** ** Unrotated rectangles *)

Lemma edgeNormals_rect x y w h :
  edgeNormals (rectPolygon x y w h)
  = [ Point.mk (y - y) (x - (x + w));
      Point.mk (y + h - y) (x + w - (x + w));
      Point.mk (y + h - (y + h)) (x + w - x);
      Point.mk (y - (y + h)) (x - x) ].
Proof. reflexivity. Qed.

Lemma rectPolygon_nonempty x y w h : rectPolygon x y w h <> [].
Proof. discriminate. Qed.

Lemma in_rectPolygon p x y w h :
  In p (rectPolygon x y w h) ->
  (Point.x p = x \/ Point.x p = x + w) /\ (Point.y p = y \/ Point.y p = y + h).
Proof.
  simpl. intros [<-|[<-|[<-|[<-|[]]]]]; simpl; auto.
Qed.

Section TwoRectangles.
Variables (ax ay aw ah bx by_ bw bh : R).
Hypothesis Haw : 0 < aw.
Hypothesis Hah : 0 < ah.
Hypothesis Hbw : 0 < bw.
Hypothesis Hbh : 0 < bh.

(** An axis along x or along y never separates rectangles whose ranges
    on that axis meet. *)
Lemma horizontal_axis_keeps n :
  Point.y n = 0 -> rangesIntersect ax (ax + aw) bx (bx + bw) ->
  separatedOn n (rectPolygon ax ay aw ah) (rectPolygon bx by_ bw bh) = false.
Proof.
  intros Hn [H1 H2]. apply not_true_is_false. intros Hsep.
  apply separatedOn_true_iff in Hsep; try apply rectPolygon_nonempty.
  unfold separates, projected in Hsep. rewrite Hn in Hsep.
  destruct Hsep as [Hsep|Hsep].
  - pose proof (Hsep (Point.mk ax ay) (Point.mk (bx + bw) by_)) as Hp.
    pose proof (Hsep (Point.mk (ax + aw) ay) (Point.mk bx by_)) as Hq.
    cbn [Point.x Point.y] in Hp, Hq.
    assert (Ha0 : In (Point.mk ax ay) (rectPolygon ax ay aw ah)) by (simpl; auto).
    assert (Ha1 : In (Point.mk (ax + aw) ay) (rectPolygon ax ay aw ah)) by (simpl; auto).
    assert (Hb0 : In (Point.mk bx by_) (rectPolygon bx by_ bw bh)) by (simpl; auto).
    assert (Hb1 : In (Point.mk (bx + bw) by_) (rectPolygon bx by_ bw bh)) by (simpl; auto).
    specialize (Hp Ha0 Hb1). specialize (Hq Ha1 Hb0).
    destruct (Rtotal_order (Point.x n) 0) as [Hk|[Hk|Hk]]; nra.
  - pose proof (Hsep (Point.mk ax ay) (Point.mk (bx + bw) by_)) as Hp.
    pose proof (Hsep (Point.mk (ax + aw) ay) (Point.mk bx by_)) as Hq.
    cbn [Point.x Point.y] in Hp, Hq.
    assert (Ha0 : In (Point.mk ax ay) (rectPolygon ax ay aw ah)) by (simpl; auto).
    assert (Ha1 : In (Point.mk (ax + aw) ay) (rectPolygon ax ay aw ah)) by (simpl; auto).
    assert (Hb0 : In (Point.mk bx by_) (rectPolygon bx by_ bw bh)) by (simpl; auto).
    assert (Hb1 : In (Point.mk (bx + bw) by_) (rectPolygon bx by_ bw bh)) by (simpl; auto).
    specialize (Hp Ha0 Hb1). specialize (Hq Ha1 Hb0).
    destruct (Rtotal_order (Point.x n) 0) as [Hk|[Hk|Hk]]; nra.
Qed.

Lemma vertical_axis_keeps n :
  Point.x n = 0 -> rangesIntersect ay (ay + ah) by_ (by_ + bh) ->
  separatedOn n (rectPolygon ax ay aw ah) (rectPolygon bx by_ bw bh) = false.
Proof.
  intros Hn [H1 H2]. apply not_true_is_false. intros Hsep.
  apply separatedOn_true_iff in Hsep; try apply rectPolygon_nonempty.
  unfold separates, projected in Hsep. rewrite Hn in Hsep.
  assert (Ha0 : In (Point.mk ax ay) (rectPolygon ax ay aw ah)) by (simpl; auto).
  assert (Ha1 : In (Point.mk ax (ay + ah)) (rectPolygon ax ay aw ah)) by (simpl; auto).
  assert (Hb0 : In (Point.mk bx by_) (rectPolygon bx by_ bw bh)) by (simpl; auto).
  assert (Hb1 : In (Point.mk bx (by_ + bh)) (rectPolygon bx by_ bw bh)) by (simpl; auto).
  destruct Hsep as [Hsep|Hsep];
    pose proof (Hsep _ _ Ha0 Hb1) as Hp; pose proof (Hsep _ _ Ha1 Hb0) as Hq;
    cbn [Point.x Point.y] in Hp, Hq;
    destruct (Rtotal_order (Point.y n) 0) as [Hk|[Hk|Hk]]; nra.
Qed.

(** Disjoint ranges on an axis are told apart by a positive multiple of
    that axis. *)
Lemma horizontal_axis_separates n :
  Point.y n = 0 -> 0 < Point.x n ->
  ~ rangesIntersect ax (ax + aw) bx (bx + bw) ->
  separatedOn n (rectPolygon ax ay aw ah) (rectPolygon bx by_ bw bh) = true.
Proof.
  intros Hn Hk Hdis. apply separatedOn_true_iff; try apply rectPolygon_nonempty.
  unfold rangesIntersect in Hdis. unfold separates, projected. rewrite Hn.
  destruct (Rle_dec ax (bx + bw)) as [H1|H1].
  - assert (H2 : ax + aw < bx) by lra. left. intros p q Hp Hq.
    apply in_rectPolygon in Hp as [Hp _]. apply in_rectPolygon in Hq as [Hq _].
    destruct Hp as [-> | ->], Hq as [-> | ->]; nra.
  - right. intros p q Hp Hq.
    apply in_rectPolygon in Hp as [Hp _]. apply in_rectPolygon in Hq as [Hq _].
    destruct Hp as [-> | ->], Hq as [-> | ->]; nra.
Qed.

Lemma vertical_axis_separates n :
  Point.x n = 0 -> 0 < Point.y n ->
  ~ rangesIntersect ay (ay + ah) by_ (by_ + bh) ->
  separatedOn n (rectPolygon ax ay aw ah) (rectPolygon bx by_ bw bh) = true.
Proof.
  intros Hn Hk Hdis. apply separatedOn_true_iff; try apply rectPolygon_nonempty.
  unfold rangesIntersect in Hdis. unfold separates, projected. rewrite Hn.
  destruct (Rle_dec ay (by_ + bh)) as [H1|H1].
  - assert (H2 : ay + ah < by_) by lra. left. intros p q Hp Hq.
    apply in_rectPolygon in Hp as [_ Hp]. apply in_rectPolygon in Hq as [_ Hq].
    destruct Hp as [-> | ->], Hq as [-> | ->]; nra.
  - right. intros p q Hp Hq.
    apply in_rectPolygon in Hp as [_ Hp]. apply in_rectPolygon in Hq as [_ Hq].
    destruct Hp as [-> | ->], Hq as [-> | ->]; nra.
Qed.

Lemma rectangles_intersect_iff :
  doPolygonsIntersect (rectPolygon ax ay aw ah) (rectPolygon bx by_ bw bh) = true <->
  rangesIntersect ax (ax + aw) bx (bx + bw)
  /\ rangesIntersect ay (ay + ah) by_ (by_ + bh).
Proof.
  rewrite doPolygonsIntersect_true_iff.
  rewrite !edgeNormals_rect. split.
  - intros Hall. split.
    + destruct (Rle_dec ax (bx + bw)) as [H1|H1];
        [destruct (Rle_dec bx (ax + aw)) as [H2|H2]; [split; assumption|]|].
      * exfalso.
        assert (Hs : separatedOn (Point.mk (ay + ah - ay) (ax + aw - (ax + aw))) (rectPolygon ax ay aw ah) (rectPolygon bx by_ bw bh) = true).
        { apply horizontal_axis_separates; cbn [Point.x Point.y]; try lra.
          unfold rangesIntersect. lra. }
        rewrite Hall in Hs; [discriminate|]. simpl. auto.
      * exfalso.
        assert (Hs : separatedOn (Point.mk (ay + ah - ay) (ax + aw - (ax + aw))) (rectPolygon ax ay aw ah) (rectPolygon bx by_ bw bh) = true).
        { apply horizontal_axis_separates; cbn [Point.x Point.y]; try lra.
          unfold rangesIntersect. lra. }
        rewrite Hall in Hs; [discriminate|]. simpl. auto.
    + destruct (Rle_dec ay (by_ + bh)) as [H1|H1];
        [destruct (Rle_dec by_ (ay + ah)) as [H2|H2]; [split; assumption|]|].
      * exfalso.
        assert (Hs : separatedOn (Point.mk (ay + ah - (ay + ah)) (ax + aw - ax)) (rectPolygon ax ay aw ah) (rectPolygon bx by_ bw bh) = true).
        { apply vertical_axis_separates; cbn [Point.x Point.y]; try lra.
          unfold rangesIntersect. lra. }
        rewrite Hall in Hs; [discriminate|]. simpl. auto.
      * exfalso.
        assert (Hs : separatedOn (Point.mk (ay + ah - (ay + ah)) (ax + aw - ax)) (rectPolygon ax ay aw ah) (rectPolygon bx by_ bw bh) = true).
        { apply vertical_axis_separates; cbn [Point.x Point.y]; try lra.
          unfold rangesIntersect. lra. }
        rewrite Hall in Hs; [discriminate|]. simpl. auto.
  - intros [Hx Hy] n Hn. simpl in Hn.
    destruct Hn as [<-|[<-|[<-|[<-|[<-|[<-|[<-|[<-|[]]]]]]]]];
      first [ apply vertical_axis_keeps; [cbn [Point.x]; lra | exact Hy]
            | apply horizontal_axis_keeps; [cbn [Point.y]; lra | exact Hx] ].
Qed.
End TwoRectangles.

(** C5: for two unrotated rectangles (positive width and height) given by
    their corner polygons, [doPolygonsIntersect] answers [true] exactly
    when their x-ranges meet and their y-ranges meet, that is, it agrees
    with the plain interval test on both axes. *)
Theorem sat_agrees_with_interval_test (ax ay aw ah bx by_ bw bh : R) :
  0 < aw -> 0 < ah -> 0 < bw -> 0 < bh ->
  (doPolygonsIntersect (rectPolygon ax ay aw ah) (rectPolygon bx by_ bw bh) = true
   <-> rangesIntersect ax (ax + aw) bx (bx + bw)
       /\ rangesIntersect ay (ay + ah) by_ (by_ + bh)).
Proof.
  intros Haw Hah Hbw Hbh.
  apply (rectangles_intersect_iff ax ay aw ah bx by_ bw bh Haw Hah Hbw Hbh).
Qed.

Lemma sat_agrees_with_interval_test_witness :
  doPolygonsIntersect (rectPolygon 0 0 4 2) (rectPolygon 3 1 4 2) = true
  /\ doPolygonsIntersect (rectPolygon 0 0 4 2) (rectPolygon 5 1 4 2) <> true.
Proof.
  split.
  - apply (sat_agrees_with_interval_test 0 0 4 2 3 1 4 2); try lra.
    unfold rangesIntersect. lra.
  - intros H. apply (sat_agrees_with_interval_test 0 0 4 2 5 1 4 2) in H; try lra.
    unfold rangesIntersect in H. lra.
Defined.

Lemma getRotatedCorners_unrotated obj buffer :
  DesignObject.rotation obj = 0 ->
  getRotatedCorners obj buffer = inflatedBox obj buffer.
Proof.
  intros Hrot. rewrite getRotatedCorners_unfold. cbv zeta.
  rewrite Hrot, no_turn, cos_0, sin_0. unfold inflatedBox, rectPolygon.
  corner_list; ring.
Qed.

(** The same for two unrotated design objects and the buffer used by
    [checkOverlap]. *)
Corollary unrotated_objects_overlap_iff (a b : DesignObject.t) (buffer : R) :
  DesignObject.rotation a = 0 -> DesignObject.rotation b = 0 ->
  0 < scaledWidth a + 2 * buffer -> 0 < scaledHeight a + 2 * buffer ->
  0 < scaledWidth b + 2 * buffer -> 0 < scaledHeight b + 2 * buffer ->
  (doPolygonsIntersect (getRotatedCorners a buffer) (getRotatedCorners b buffer) = true
   <-> rangesIntersect (DesignObject.x a - buffer)
         (DesignObject.x a - buffer + (scaledWidth a + 2 * buffer))
         (DesignObject.x b - buffer)
         (DesignObject.x b - buffer + (scaledWidth b + 2 * buffer))
       /\ rangesIntersect (DesignObject.y a - buffer)
            (DesignObject.y a - buffer + (scaledHeight a + 2 * buffer))
            (DesignObject.y b - buffer)
            (DesignObject.y b - buffer + (scaledHeight b + 2 * buffer))).
Proof.
  intros Ha Hb H1 H2 H3 H4.
  rewrite !getRotatedCorners_unrotated by assumption.
  apply rectangles_intersect_iff; assumption.
Qed.

(** Where the positivity matters: two segments of zero width on the same
    vertical line have no edge normal along y, so no axis tells their
    disjoint y-ranges apart. *)
Lemma zero_width_rectangles_not_separated :
  doPolygonsIntersect (rectPolygon 0 0 0 1) (rectPolygon 0 5 0 1) = true
  /\ ~ rangesIntersect 0 (0 + 1) 5 (5 + 1).
Proof.
  split; [|unfold rangesIntersect; lra].
  apply doPolygonsIntersect_true_iff. intros n Hn.
  apply not_true_is_false. intros Hsep.
  apply separatedOn_true_iff in Hsep; try apply rectPolygon_nonempty.
  assert (Hy : Point.y n = 0).
  { rewrite !edgeNormals_rect in Hn. simpl in Hn.
    destruct Hn as [<-|[<-|[<-|[<-|[<-|[<-|[<-|[<-|[]]]]]]]]]; simpl; lra. }
  unfold separates, projected in Hsep. rewrite Hy in Hsep.
  assert (Ha : In (Point.mk 0 0) (rectPolygon 0 0 0 1)) by (simpl; auto).
  assert (Hb : In (Point.mk 0 5) (rectPolygon 0 5 0 1)) by (simpl; auto).
  destruct Hsep as [Hsep|Hsep]; specialize (Hsep _ _ Ha Hb);
    cbn [Point.x Point.y] in Hsep; lra.
Qed.


(** ** History *)

Lemma saveHistory_history newObjects st :
  App.history (saveHistory newObjects st)
  = take (App.historyStep st + 1) (App.history st) ++ [newObjects].
Proof. reflexivity. Qed.

Lemma saveHistory_step newObjects st :
  App.historyStep (saveHistory newObjects st)
  = (length (App.history (saveHistory newObjects st)) - 1)%nat.
Proof. reflexivity. Qed.

Lemma saveHistory_objects newObjects st :
  App.objects (saveHistory newObjects st) = newObjects.
Proof. reflexivity. Qed.

Lemma saveHistory_invariant newObjects st :
  historyInvariant (saveHistory newObjects st).
Proof.
  unfold historyInvariant. rewrite saveHistory_step, saveHistory_history.
  rewrite length_app. simpl. lia.
Qed.

Lemma undo_invariant st : historyInvariant st -> historyInvariant (undo st).
Proof.
  unfold historyInvariant, undo. intros H.
  destruct (0 <? App.historyStep st)%nat eqn:E; simpl; lia.
Qed.

Lemma redo_invariant st : historyInvariant st -> historyInvariant (redo st).
Proof.
  unfold historyInvariant, redo. intros H.
  destruct (App.historyStep st <? length (App.history st) - 1)%nat eqn:E; simpl.
  - apply Nat.ltb_lt in E. lia.
  - lia.
Qed.

Lemma initial_invariant : historyInvariant initialApp.
Proof. unfold historyInvariant. simpl. lia. Qed.

Lemma applyOp_invariant st op :
  historyInvariant st -> historyInvariant (applyOp st op).
Proof.
  destruct op; simpl; intros H.
  - apply saveHistory_invariant.
  - now apply undo_invariant.
  - now apply redo_invariant.
Qed.

Lemma runOps_invariant ops : forall st,
  historyInvariant st -> historyInvariant (runOps ops st).
Proof.
  induction ops as [|op ops IH]; intros st H; simpl; [exact H|].
  apply IH. now apply applyOp_invariant.
Qed.

(** Under the invariant [undo] and [redo] read an existing entry. *)
Lemma undo_reads_inside st :
  historyInvariant st -> (0 < App.historyStep st)%nat ->
  is_Some (App.history st !! (App.historyStep st - 1)%nat).
Proof.
  unfold historyInvariant. intros H Hpos. apply lookup_lt_is_Some. lia.
Qed.

Lemma redo_reads_inside st :
  (App.historyStep st < length (App.history st) - 1)%nat ->
  is_Some (App.history st !! (App.historyStep st + 1)%nat).
Proof. intros H. apply lookup_lt_is_Some. lia. Qed.

(** C9: the History invariant [0 <= cursor < entries.length] holds
    initially and is preserved by commit, undo and redo; hence it holds
    after every sequence of history operations. *)
Theorem history_invariant_preserved :
  historyInvariant initialApp
  /\ (forall st newObjects,
        historyInvariant st -> historyInvariant (saveHistory newObjects st))
  /\ (forall st, historyInvariant st -> historyInvariant (undo st))
  /\ (forall st, historyInvariant st -> historyInvariant (redo st))
  /\ (forall ops,
        historyInvariant (runOps ops initialApp)
        /\ is_Some (App.history (runOps ops initialApp)
                      !! App.historyStep (runOps ops initialApp))).
Proof.
  split; [apply initial_invariant|].
  split; [intros; apply saveHistory_invariant|].
  split; [apply undo_invariant|].
  split; [apply redo_invariant|].
  intros ops.
  assert (H : historyInvariant (runOps ops initialApp))
    by (apply runOps_invariant, initial_invariant).
  split; [exact H|]. apply lookup_lt_is_Some. unfold historyInvariant in H. lia.
Qed.

Lemma commitAll_tip commits : forall st,
  (App.historyStep st + 1 = length (App.history st))%nat ->
  App.history (commitAll commits st) = App.history st ++ commits
  /\ (App.historyStep (commitAll commits st) + 1
      = length (App.history st ++ commits))%nat.
Proof.
  induction commits as [|c commits IH]; intros st Htip; simpl.
  - rewrite app_nil_r. auto.
  - destruct (IH (saveHistory c st)) as [Hh Hs].
    + rewrite saveHistory_step, saveHistory_history, length_app. simpl. lia.
    + unfold commitAll in *. rewrite Hh, Hs, saveHistory_history.
      rewrite take_ge by lia. rewrite <- !app_assoc. simpl. auto.
Qed.

Lemma undo_at_zero st : App.historyStep st = 0%nat -> undo st = st.
Proof. intros H. unfold undo. now rewrite H. Qed.

Lemma redo_at_tip st :
  (App.historyStep st + 1 = length (App.history st))%nat -> redo st = st.
Proof.
  intros H. unfold redo.
  destruct (App.historyStep st <? length (App.history st) - 1)%nat eqn:E; [|reflexivity].
  apply Nat.ltb_lt in E. lia.
Qed.

Lemma iter_fixed {A} (f : A -> A) x m : f x = x -> Nat.iter m f x = x.
Proof. intros H. induction m; simpl; [reflexivity|]. now rewrite IHm. Qed.

Lemma undo_iter j : forall st,
  (j <= App.historyStep st)%nat ->
  App.history (Nat.iter j undo st) = App.history st
  /\ App.historyStep (Nat.iter j undo st) = (App.historyStep st - j)%nat
  /\ ((0 < j)%nat ->
      App.objects (Nat.iter j undo st)
      = historyAt (App.history st) (App.historyStep st - j)).
Proof.
  induction j as [|j IH]; intros st Hj; simpl.
  - repeat split; lia.
  - destruct (IH st) as (Hh & Hs & _); [lia|].
    unfold undo at 1 3 5. rewrite Hs.
    destruct (0 <? App.historyStep st - j)%nat eqn:E.
    + simpl. rewrite Hh. repeat split; try lia. intros _. f_equal. lia.
    + apply Nat.ltb_ge in E. lia.
Qed.

Lemma redo_iter j : forall st,
  (App.historyStep st + j < length (App.history st))%nat ->
  App.history (Nat.iter j redo st) = App.history st
  /\ App.historyStep (Nat.iter j redo st) = (App.historyStep st + j)%nat
  /\ ((0 < j)%nat ->
      App.objects (Nat.iter j redo st)
      = historyAt (App.history st) (App.historyStep st + j)).
Proof.
  induction j as [|j IH]; intros st Hj; simpl.
  - repeat split; lia.
  - destruct (IH st) as (Hh & Hs & _); [lia|].
    unfold redo at 1 3 5. rewrite Hs, Hh.
    destruct (App.historyStep st + j <? length (App.history st) - 1)%nat eqn:E.
    + simpl. rewrite Hh. repeat split; try lia. intros _. f_equal. lia.
    + apply Nat.ltb_ge in E. lia.
Qed.

Lemma commitAll_initial commits :
  App.history (commitAll commits initialApp) = [] :: commits
  /\ App.historyStep (commitAll commits initialApp) = length commits.
Proof.
  destruct (commitAll_tip commits initialApp) as [Hh Hs]; [reflexivity|].
  split; [exact Hh|]. simpl in Hs. lia.
Qed.

Lemma historyAt_last commits :
  commits <> [] ->
  last commits = Some (historyAt ([] :: commits) (length commits)).
Proof.
  intros Hne. unfold historyAt. rewrite last_lookup.
  destruct commits as [|c cs]; [congruence|]. simpl.
  destruct (lookup_lt_is_Some_2 (c :: cs) (length cs)) as [v Hv]; [simpl; lia|].
  now rewrite Hv.
Qed.

(** C4 (as amended): from the initial history, after committing N >= 1
    states, N undos give the empty state at cursor 0 and further undos
    change nothing; N redos then give the N-th committed state and further
    redos change nothing; a commit after k < N undos drops exactly the k
    forward entries (the last k commits), keeps the first N-k+1 entries,
    and leaves nothing to redo. *)
Theorem history_undo_redo_roundtrip (commits : list (list DesignObject.t)) (N : nat) :
  N = length commits -> (1 <= N)%nat ->
  let stN := commitAll commits initialApp in
  let st0 := Nat.iter N undo stN in
  let stR := Nat.iter N redo st0 in
  (App.objects st0 = [] /\ App.historyStep st0 = 0%nat
   /\ forall m, Nat.iter m undo st0 = st0)
  /\ (last commits = Some (App.objects stR) /\ App.historyStep stR = N
      /\ forall m, Nat.iter m redo stR = stR)
  /\ (forall k newObjects, (k < N)%nat ->
        let stk := Nat.iter k undo stN in
        let st' := saveHistory newObjects stk in
        forwardEntries stk = drop (N - k) commits
        /\ length (forwardEntries stk) = k
        /\ App.history st' = take (N - k + 1) ([] :: commits) ++ [newObjects]
        /\ redo st' = st').
Proof.
  intros HN Hpos stN st0 stR.
  destruct (commitAll_initial commits) as [HhN HsN]. fold stN in HhN, HsN.
  destruct (undo_iter N stN) as (Hh0 & Hs0 & Ho0); [lia|]. fold st0 in Hh0, Hs0, Ho0.
  destruct (redo_iter N st0) as (HhR & HsR & HoR).
  { rewrite Hs0, Hh0, HhN. simpl. lia. }
  fold stR in HhR, HsR, HoR.
  split; [|split].
  - rewrite Ho0 by lia. rewrite HhN, HsN, <- HN, Nat.sub_diag. 
    repeat split; [lia|]. intros m. apply iter_fixed, undo_at_zero. lia.
  - rewrite HoR by lia. rewrite Hs0, Hh0, HhN, HsN, <- HN, Nat.sub_diag. simpl (0 + N)%nat.
    split; [|split].
    + rewrite HN. apply historyAt_last. destruct commits; simpl in *; [lia|congruence].
    + rewrite HsR, Hs0. lia.
    + intros m. apply iter_fixed, redo_at_tip. rewrite HsR, HhR, Hs0, Hh0, HhN. simpl. lia.
  - intros k newObjects Hk stk st'.
    destruct (undo_iter k stN) as (Hhk & Hsk & _); [lia|]. fold stk in Hhk, Hsk.
    assert (Hfw : forwardEntries stk = drop (N - k) commits).
    { unfold forwardEntries. rewrite Hhk, Hsk, HhN, HsN, <- HN.
      replace (N - k + 1)%nat with (S (N - k)) by lia. reflexivity. }
    split; [exact Hfw|]. split.
    + rewrite Hfw, length_drop. lia.
    + split.
      * unfold st'. rewrite saveHistory_history, Hhk, Hsk, HhN, HsN, <- HN. reflexivity.
      * apply redo_at_tip. unfold st'. rewrite saveHistory_step, saveHistory_history.
        rewrite length_app. simpl. lia.
Qed.

Lemma history_undo_redo_roundtrip_witness :
  App.objects (Nat.iter 3 undo (commitAll threeCommits initialApp)) = []
  /\ last threeCommits
     = Some (App.objects (Nat.iter 3 redo
               (Nat.iter 3 undo (commitAll threeCommits initialApp)))).
Proof.
  destruct (history_undo_redo_roundtrip threeCommits 3) as ((H1 & _) & (H2 & _) & _).
  - reflexivity.
  - lia.
  - split; [exact H1 | exact H2].
Defined.

(** C4 as first stated fails: with N = 3 commits and k = 1 undo, the next
    commit drops one forward entry, not N - k = 2. *)
Lemma history_discard_count_counterexample :
  let stN := commitAll threeCommits initialApp in
  let stk := Nat.iter 1 undo stN in
  let st' := saveHistory [objC] stk in
  length (forwardEntries stk) = 1%nat
  /\ length (forwardEntries stk) <> (3 - 1)%nat
  /\ App.history stk = [ []; [objA]; [objA; objB]; [objA; objB; objC] ]
  /\ App.history st' = [ []; [objA]; [objA; objB]; [objC] ].
Proof.
  cbv zeta. repeat split.
  cbv [forwardEntries]. simpl. lia.
Qed.

Lemma history_invariant_preserved_witness :
  historyInvariant initialApp
  /\ historyInvariant (redo (undo (saveHistory [objA] initialApp))).
Proof.
  destruct history_invariant_preserved as (H0 & Hs & Hu & Hr & _).
  split; [exact H0|]. apply Hr, Hu, Hs, H0.
Defined.

(** ** Marquee selection *)

Lemma marqueeHits_iff sb obj : marqueeHits sb obj = true <-> marqueeOverlap sb obj.
Proof.
  unfold marqueeHits, marqueeOverlap, gtb.
  rewrite !andb_true_iff, !ltb_true_iff. unfold Rgt. tauto.
Qed.

Lemma handleMouseUp_selection st sb :
  App.selectionBox st = Some sb ->
  let ids := map DesignObject.id (List.filter (marqueeHits sb) (App.objects st)) in
  App.selectedIds (handleMouseUp st)
  = if (0 <? length ids)%nat then ids else App.selectedIds st.
Proof.
  intros Hsb. unfold handleMouseUp. simpl. rewrite Hsb.
  destruct (0 <? _)%nat; reflexivity.
Qed.

Lemma boxesMeet_unmirrored sb obj :
  unmirrored obj -> (marqueeOverlap sb obj <-> boxesMeet sb obj).
Proof.
  intros [Hw Hh]. unfold marqueeOverlap, boxesMeet, boxLeft, boxRight, boxTop, boxBottom.
  rewrite !Rmin_left, !Rmax_right by lra. tauto.
Qed.

Lemma marqueeOverlap_boxesMeet sb obj : marqueeOverlap sb obj -> boxesMeet sb obj.
Proof.
  unfold marqueeOverlap, boxesMeet, boxLeft, boxRight, boxTop, boxBottom.
  intros (H1 & H2 & H3 & H4).
  pose proof (Rmax_r (DesignObject.x obj)
                (DesignObject.x obj + DesignObject.width obj * DesignObject.scaleX obj)).
  pose proof (Rmin_l (DesignObject.x obj)
                (DesignObject.x obj + DesignObject.width obj * DesignObject.scaleX obj)).
  pose proof (Rmax_r (DesignObject.y obj)
                (DesignObject.y obj + DesignObject.height obj * DesignObject.scaleY obj)).
  pose proof (Rmin_l (DesignObject.y obj)
                (DesignObject.y obj + DesignObject.height obj * DesignObject.scaleY obj)).
  lra.
Qed.

(** [boxesMeet] is the intersection of the two regions: for a marquee of
    non-negative size and a box with some extent on both axes, it holds
    exactly when some point lies in the marquee and inside the box. *)
Lemma boxesMeet_common_point sb obj :
  0 <= SelectionBox.width sb -> 0 <= SelectionBox.height sb ->
  boxLeft obj < boxRight obj -> boxTop obj < boxBottom obj ->
  boxesMeet sb obj <->
  exists p : Point.t,
    SelectionBox.x sb <= Point.x p <= SelectionBox.x sb + SelectionBox.width sb
    /\ SelectionBox.y sb <= Point.y p <= SelectionBox.y sb + SelectionBox.height sb
    /\ boxLeft obj < Point.x p < boxRight obj
    /\ boxTop obj < Point.y p < boxBottom obj.
Proof.
  intros Hw Hh Hx Hy. unfold boxesMeet. split.
  - intros (H1 & H2 & H3 & H4).
    exists (Point.mk
              ((Rmax (SelectionBox.x sb) (boxLeft obj)
                + Rmin (SelectionBox.x sb + SelectionBox.width sb) (boxRight obj)) / 2)
              ((Rmax (SelectionBox.y sb) (boxTop obj)
                + Rmin (SelectionBox.y sb + SelectionBox.height sb) (boxBottom obj)) / 2)).
    cbn [Point.x Point.y]. unfold Rmax, Rmin.
    repeat match goal with |- context [Rle_dec ?a ?b] => destruct (Rle_dec a b) end;
      lra.
  - intros (p & H1 & H2 & H3 & H4). lra.
Qed.




(** C10: when no object's unrotated box overlaps the marquee, releasing
    the marquee leaves the existing selection as it was (it is neither
    cleared nor replaced); the marquee is dismissed. *)
Theorem marquee_empty_keeps_selection (st : App.t) (sb : SelectionBox.t) :
  App.selectionBox st = Some sb ->
  (forall obj, In obj (App.objects st) -> ~ marqueeOverlap sb obj) ->
  App.selectedIds (handleMouseUp st) = App.selectedIds st
  /\ App.objects (handleMouseUp st) = App.objects st
  /\ App.selectionBox (handleMouseUp st) = None.
Proof.
  intros Hsb Hnone.
  assert (Hf : List.filter (marqueeHits sb) (App.objects st) = []).
  { destruct (List.filter (marqueeHits sb) (App.objects st)) as [|o l] eqn:E;
      [reflexivity|].
    assert (Ho : In o (List.filter (marqueeHits sb) (App.objects st)))
      by (rewrite E; simpl; auto).
    apply filter_In in Ho as [Ho1 Ho2]. apply marqueeHits_iff in Ho2.
    exfalso. exact (Hnone o Ho1 Ho2). }
  rewrite (handleMouseUp_selection st sb Hsb). cbv zeta. rewrite Hf. simpl.
  split; [reflexivity|].
  unfold handleMouseUp. simpl. rewrite Hsb, Hf. simpl. auto.
Qed.

Lemma marquee_empty_keeps_selection_witness :
  App.selectedIds
    (handleMouseUp (setSelectionBox (Some (SelectionBox.mk 0 0 500 500 10 10)) marqueeApp))
  = ["C"%string].
Proof.
  refine (proj1 (marquee_empty_keeps_selection
                   (setSelectionBox (Some (SelectionBox.mk 0 0 500 500 10 10)) marqueeApp)
                   (SelectionBox.mk 0 0 500 500 10 10) _ _)).
  - reflexivity.
  - intros obj Hin. unfold marqueeOverlap. simpl in Hin.
    destruct Hin as [<-|[<-|[<-|[]]]]; simpl; lra.
Defined.

(** ** Multi-object drag *)

Lemma includes_true ids id : includes ids id = true <-> In id ids.
Proof. unfold includes. rewrite bool_decide_eq_true. apply list_elem_of_In. Qed.

Lemma includes_false ids id : includes ids id = false <-> ~ In id ids.
Proof. unfold includes. rewrite bool_decide_eq_false, list_elem_of_In. tauto. Qed.

Lemma findObject_Some objects id o :
  findObject objects id = Some o -> In o objects /\ DesignObject.id o = id.
Proof.
  unfold findObject. intros H. apply find_some in H as [H1 H2].
  apply bool_decide_eq_true in H2. auto.
Qed.

Lemma findObject_is_Some objects id o :
  In o objects -> DesignObject.id o = id -> is_Some (findObject objects id).
Proof.
  intros Hin Hid. unfold findObject.
  destruct (find _ objects) as [o'|] eqn:E; [eauto|].
  exfalso. pose proof (find_none _ _ E o Hin) as Hn. simpl in Hn.
  apply bool_decide_eq_false in Hn. congruence.
Qed.

Lemma recordAnchor_fold_lookup st l : forall (m : gmap string DesignObject.t) s,
  fold_left (recordAnchor st) l m !! s
  = if bool_decide (s ∈ l) then
      match anchorOf st s with Some a => Some a | None => m !! s end
    else m !! s.
Proof.
  induction l as [|k l IH]; intros m s; cbn [fold_left].
  - rewrite bool_decide_eq_false_2 by apply not_elem_of_nil. reflexivity.
  - rewrite IH. unfold recordAnchor at 1 2, anchorOf.
    destruct (decide (k = s)) as [->|Hne].
    + rewrite (bool_decide_eq_true_2 (s ∈ s :: l)) by apply list_elem_of_here.
      destruct (App.stage st !! s), (findObject (App.objects st) s);
        try rewrite lookup_insert_eq; destruct (bool_decide (s ∈ l)); reflexivity.
    + assert (Hb : bool_decide (s ∈ k :: l) = bool_decide (s ∈ l)).
      { apply bool_decide_ext. rewrite elem_of_cons. intuition congruence. }
      rewrite Hb.
      destruct (App.stage st !! k), (findObject (App.objects st) k);
        try rewrite lookup_insert_ne by exact Hne; reflexivity.
Qed.

Lemma followDrag_lookup anchors id dx dy (nodes : gmap string Node.t) k s :
  followDrag anchors id dx dy nodes k !! s
  = if bool_decide (s = k /\ s <> id) then
      match nodes !! s, anchors !! s with
      | Some _, Some a => Some (Node.mk (DesignObject.x a + dx) (DesignObject.y a + dy))
      | _, _ => nodes !! s
      end
    else nodes !! s.
Proof.
  unfold followDrag.
  destruct (decide (s = k)) as [->|Hne].
  - destruct (decide (k = id)) as [->|Hid].
    + rewrite (bool_decide_eq_false_2 (id <> id)) by tauto.
      rewrite bool_decide_eq_false_2 by tauto. reflexivity.
    + rewrite (bool_decide_eq_true_2 (k <> id)) by exact Hid.
      rewrite bool_decide_eq_true_2 by tauto.
      destruct (nodes !! k) eqn:En, (anchors !! k) eqn:Ea;
        try rewrite lookup_insert_eq; try rewrite En; reflexivity.
  - rewrite (bool_decide_eq_false_2 (s = k /\ s <> id)) by tauto.
    destruct (bool_decide (k <> id)); [|reflexivity].
    destruct (nodes !! k), (anchors !! k);
      try rewrite lookup_insert_ne by congruence; reflexivity.
Qed.

Lemma followDrag_fold_lookup anchors id dx dy l :
  forall (nodes : gmap string Node.t) s,
  fold_left (followDrag anchors id dx dy) l nodes !! s
  = if bool_decide (s ∈ l /\ s <> id) then
      match nodes !! s, anchors !! s with
      | Some _, Some a => Some (Node.mk (DesignObject.x a + dx) (DesignObject.y a + dy))
      | _, _ => nodes !! s
      end
    else nodes !! s.
Proof.
  induction l as [|k l IH]; intros nodes s; cbn [fold_left].
  - rewrite bool_decide_eq_false_2; [reflexivity|].
    intros [H _]. revert H. apply not_elem_of_nil.
  - rewrite IH, followDrag_lookup.
    destruct (decide (s = k /\ s <> id)) as [[-> Hid]|Hn].
    + rewrite (bool_decide_eq_true_2 (k = k /\ k <> id)) by tauto.
      rewrite (bool_decide_eq_true_2 (k ∈ k :: l /\ k <> id))
        by (split; [apply list_elem_of_here | exact Hid]).
      destruct (nodes !! k) eqn:En, (anchors !! k) eqn:Ea;
        destruct (bool_decide (k ∈ l /\ k <> id)); reflexivity.
    + rewrite (bool_decide_eq_false_2 (s = k /\ s <> id)) by exact Hn.
      apply (f_equal (fun b : bool => if b then _ else _)).
      apply bool_decide_ext. rewrite elem_of_cons. tauto.
Qed.

Lemma dragMoveTo_fields id st p :
  App.objects (dragMoveTo id st p) = App.objects st
  /\ App.selectedIds (dragMoveTo id st p) = App.selectedIds st
  /\ App.history (dragMoveTo id st p) = App.history st
  /\ App.historyStep (dragMoveTo id st p) = App.historyStep st
  /\ App.dragStartAttrs (dragMoveTo id st p) = App.dragStartAttrs st.
Proof.
  unfold dragMoveTo, dispatch, targetEvent, moveNode. cbn [App.stage setStage].
  rewrite lookup_insert_eq. unfold onDragMove. cbn.
  destruct (includes _ _ && _); [|cbn; auto].
  destruct (App.dragStartAttrs st !! id); cbn; auto.
Qed.

Lemma two_members_length (l : list string) a b :
  In a l -> In b l -> a <> b -> (1 < length l)%nat.
Proof.
  destruct l as [|u [|v l]]; simpl; intros Ha Hb Hne; try lia; try tauto.
  destruct Ha as [<-|[]], Hb as [<-|[]]. congruence.
Qed.

Lemma dragMoveTo_stage id st p aid s :
  In id (App.selectedIds st) ->
  App.dragStartAttrs st !! id = Some aid ->
  App.stage (dragMoveTo id st p) !! s
  = if bool_decide (s = id) then Some (Node.mk (fst p) (snd p))
    else if bool_decide (s ∈ App.selectedIds st) then
      match App.stage st !! s, App.dragStartAttrs st !! s with
      | Some _, Some a =>
          Some (Node.mk (DesignObject.x a + (fst p - DesignObject.x aid))
                        (DesignObject.y a + (snd p - DesignObject.y aid)))
      | _, _ => App.stage st !! s
      end
    else App.stage st !! s.
Proof.
  intros Hsel Hanchor.
  unfold dragMoveTo, dispatch, targetEvent, moveNode. cbn [App.stage setStage].
  rewrite lookup_insert_eq. unfold onDragMove.
  cbn [DragEvent.id DragEvent.x DragEvent.y Node.x Node.y App.selectedIds
       App.dragStartAttrs App.stage setStage].
  rewrite (proj2 (includes_true _ _) Hsel). cbn [andb].
  destruct (1 <? length (App.selectedIds st))%nat eqn:Elen.
  - rewrite Hanchor. cbn [App.stage setStage]. rewrite followDrag_fold_lookup.
    destruct (decide (s = id)) as [->|Hne].
    + rewrite bool_decide_eq_false_2 by tauto.
      rewrite (bool_decide_eq_true_2 (id = id)) by reflexivity.
      apply lookup_insert_eq.
    + rewrite (bool_decide_eq_false_2 (s = id)) by exact Hne.
      rewrite lookup_insert_ne by congruence.
      destruct (decide (s ∈ App.selectedIds st)) as [Hin|Hin].
      * rewrite bool_decide_eq_true_2 by tauto.
        rewrite (bool_decide_eq_true_2 _ Hin). reflexivity.
      * rewrite bool_decide_eq_false_2 by tauto.
        rewrite (bool_decide_eq_false_2 _ Hin). reflexivity.
  - cbn [App.stage setStage].
    destruct (decide (s = id)) as [->|Hne].
    + rewrite (bool_decide_eq_true_2 (id = id)) by reflexivity.
      apply lookup_insert_eq.
    + rewrite (bool_decide_eq_false_2 (s = id)) by exact Hne.
      rewrite lookup_insert_ne by congruence.
      rewrite bool_decide_eq_false_2; [reflexivity|].
      intros Hin. apply list_elem_of_In in Hin.
      apply Nat.ltb_ge in Elen.
      pose proof (two_members_length _ _ _ Hin Hsel Hne). lia.
Qed.

Lemma dragMoveTo_keeps_nodes id st p s :
  is_Some (App.stage st !! s) -> is_Some (App.stage (dragMoveTo id st p) !! s).
Proof.
  intros Hs.
  unfold dragMoveTo, dispatch, targetEvent, moveNode. cbn [App.stage setStage].
  rewrite lookup_insert_eq. unfold onDragMove.
  cbn [DragEvent.id DragEvent.x DragEvent.y Node.x Node.y App.selectedIds
       App.dragStartAttrs App.stage setStage].
  assert (Hm : is_Some (<[id:=Node.mk (fst p) (snd p)]> (App.stage st) !! s)).
  { destruct (decide (id = s)) as [->|Hne].
    - rewrite lookup_insert_eq. eauto.
    - rewrite lookup_insert_ne by exact Hne. exact Hs. }
  destruct (includes _ _ && _); [|exact Hm].
  destruct (App.dragStartAttrs st !! id); [|exact Hm].
  cbn [App.stage setStage]. rewrite followDrag_fold_lookup.
  destruct Hm as [n Hn]. rewrite Hn.
  destruct (bool_decide _); [|eauto].
  destruct (App.dragStartAttrs st !! s); eauto.
Qed.

Lemma moves_fields id path : forall st,
  let st' := fold_left (dragMoveTo id) path st in
  App.objects st' = App.objects st
  /\ App.selectedIds st' = App.selectedIds st
  /\ App.history st' = App.history st
  /\ App.historyStep st' = App.historyStep st
  /\ App.dragStartAttrs st' = App.dragStartAttrs st
  /\ (forall s, is_Some (App.stage st !! s) -> is_Some (App.stage st' !! s)).
Proof.
  induction path as [|p path IH]; intros st; cbn [fold_left].
  - cbv zeta. repeat split; auto.
  - specialize (IH (dragMoveTo id st p)). cbv zeta in *.
    destruct IH as (H1 & H2 & H3 & H4 & H5 & H6).
    destruct (dragMoveTo_fields id st p) as (F1 & F2 & F3 & F4 & F5).
    rewrite H1, H2, H3, H4, H5. repeat split; auto.
    intros s Hs. apply H6, dragMoveTo_keeps_nodes, Hs.
Qed.

Section DragGesture.
Variables (st : App.t) (id : string) (a : DesignObject.t).
Hypothesis Hsync : synced st.
Hypothesis Hsel : In id (App.selectedIds st).
Hypothesis Ha : In a (App.objects st).
Hypothesis Haid : DesignObject.id a = id.

Lemma started_eq :
  (dispatch onDragStart id st)
  = setIsDragging true
      (setDragStartAttrs
         (fold_left (recordAnchor st) (App.selectedIds st) (App.dragStartAttrs st))
         st).
Proof.
  unfold dispatch, targetEvent.
  rewrite <- Haid, (Hsync a Ha), Haid. unfold onDragStart.
  cbn [DragEvent.id]. rewrite (proj2 (includes_true _ _) Hsel). reflexivity.
Qed.

Lemma started_anchor o :
  In o (App.objects st) -> In (DesignObject.id o) (App.selectedIds st) ->
  exists an, App.dragStartAttrs (dispatch onDragStart id st) !! DesignObject.id o = Some an
             /\ DesignObject.x an = DesignObject.x o
             /\ DesignObject.y an = DesignObject.y o.
Proof.
  intros Ho Hosel. rewrite started_eq. cbn [App.dragStartAttrs setIsDragging setDragStartAttrs].
  rewrite recordAnchor_fold_lookup.
  rewrite bool_decide_eq_true_2 by (apply list_elem_of_In; exact Hosel).
  unfold anchorOf. rewrite (Hsync o Ho).
  destruct (findObject_is_Some (App.objects st) (DesignObject.id o) o Ho eq_refl)
    as [o' Ho'].
  rewrite Ho'. eexists. split; [reflexivity|]. simpl. auto.
Qed.

Lemma same_id_same_position o :
  In o (App.objects st) -> DesignObject.id o = id ->
  DesignObject.x o = DesignObject.x a /\ DesignObject.y o = DesignObject.y a.
Proof.
  intros Ho Hid. pose proof (Hsync o Ho) as H1. pose proof (Hsync a Ha) as H2.
  rewrite Hid in H1. rewrite Haid in H2. rewrite H1 in H2.
  injection H2 as Hx Hy. auto.
Qed.

Lemma lockstep_after_move moves p o :
  In o (App.objects st) -> In (DesignObject.id o) (App.selectedIds st) ->
  App.stage (fold_left (dragMoveTo id) (moves ++ [p]) (dispatch onDragStart id st)) !! DesignObject.id o
  = Some (Node.mk (DesignObject.x o + (fst p - DesignObject.x a))
                  (DesignObject.y o + (snd p - DesignObject.y a))).
Proof.
  intros Ho Hosel. rewrite fold_left_app. cbn [fold_left].
  pose proof (moves_fields id moves (dispatch onDragStart id st)) as Hf. cbv zeta in Hf.
  destruct Hf as (_ & Hs & _ & _ & Hd & Hn).
  set (stm := fold_left (dragMoveTo id) moves (dispatch onDragStart id st)) in *.
  assert (HselS : App.selectedIds (dispatch onDragStart id st) = App.selectedIds st)
    by (rewrite started_eq; reflexivity).
  assert (HstageS : App.stage (dispatch onDragStart id st) = App.stage st)
    by (rewrite started_eq; reflexivity).
  destruct (started_anchor a Ha) as (aid & Haid1 & Haidx & Haidy);
    [rewrite Haid; exact Hsel|].
  rewrite Haid in Haid1.
  destruct (started_anchor o Ho Hosel) as (an & Han & Hanx & Hany).
  rewrite (dragMoveTo_stage id stm p aid).
  - destruct (decide (DesignObject.id o = id)) as [Hid|Hid].
    + rewrite bool_decide_eq_true_2 by exact Hid.
      destruct (same_id_same_position o Ho Hid) as [-> ->].
      f_equal. f_equal; lra.
    + rewrite bool_decide_eq_false_2 by exact Hid.
      rewrite Hs, HselS.
      rewrite bool_decide_eq_true_2 by (apply list_elem_of_In; exact Hosel).
      destruct (Hn (DesignObject.id o)) as [n Hnode].
      { rewrite HstageS, (Hsync o Ho). eauto. }
      rewrite Hnode, Hd, Han. f_equal. f_equal; lra.
  - rewrite Hs, HselS. exact Hsel.
  - rewrite Hd. exact Haid1.
Qed.

Lemma gesture_commits path dx dy :
  last path = Some (DesignObject.x a + dx, DesignObject.y a + dy) ->
  dragGesture id path st
  = setDragStartAttrs ∅
      (setIsDragging false
         (saveHistory (map (shifted (App.selectedIds st) dx dy) (App.objects st))
            (fold_left (dragMoveTo id) path (dispatch onDragStart id st)))).
Proof.
  intros Hlast. apply last_Some in Hlast as [moves ->].
  unfold dragGesture.
  set (stf := fold_left (dragMoveTo id) (moves ++ [_]) (dispatch onDragStart id st)).
  pose proof (moves_fields id (moves ++ [(DesignObject.x a + dx, DesignObject.y a + dy)])
                (dispatch onDragStart id st)) as Hf.
  cbv zeta in Hf. fold stf in Hf. destruct Hf as (Ho & Hs & _ & _ & _ & _).
  assert (HselS : App.selectedIds (dispatch onDragStart id st) = App.selectedIds st)
    by (rewrite started_eq; reflexivity).
  assert (HobjS : App.objects (dispatch onDragStart id st) = App.objects st)
    by (rewrite started_eq; reflexivity).
  assert (Hnode : forall o, In o (App.objects st) ->
            In (DesignObject.id o) (App.selectedIds st) ->
            App.stage stf !! DesignObject.id o
            = Some (Node.mk (DesignObject.x o + (DesignObject.x a + dx - DesignObject.x a))
                            (DesignObject.y o + (DesignObject.y a + dy - DesignObject.y a)))).
  { intros o Hin Hosel. unfold stf.
    exact (lockstep_after_move moves (DesignObject.x a + dx, DesignObject.y a + dy)
             o Hin Hosel). }
  assert (Htarget : is_Some (App.stage stf !! id)).
  { pose proof (Hnode a Ha) as Hn. rewrite Haid in Hn. rewrite (Hn Hsel). eauto. }
  destruct Htarget as [n Htarget].
  unfold dispatch, targetEvent. rewrite Htarget.
  unfold onDragEnd. cbn [DragEvent.id].
  rewrite Hs, HselS, Ho, HobjS. rewrite (proj2 (includes_true _ _) Hsel).
  do 3 f_equal. apply map_ext_in. intros o Hin. unfold shifted.
  destruct (includes (App.selectedIds st) (DesignObject.id o)) eqn:E; [|reflexivity].
  apply includes_true in E. rewrite (Hnode o Hin E). cbn [Node.x Node.y].
  unfold withPosition. f_equal; lra.
Qed.
End DragGesture.

Lemma map_lookup_position {A B} (f : A -> B) (l : list A) : forall (i : nat) (x : A),
  l !! i = Some x -> map f l !! i = Some (f x).
Proof.
  induction l as [|y l IH]; intros [|i] x H; try discriminate.
  - injection H as ->. reflexivity.
  - apply (IH i x H).
Qed.

(** C6: in a drag of the selected node [id] along any pointer path, after
    every move each selected object's live node sits at its pre-drag
    position plus the delta of the dragged node from its anchor; nothing is
    committed during the moves; at the end of a gesture that moved the
    dragged node by [(dx, dy)], every selected object is committed, at its
    place in the list, with [x] and [y] equal to its pre-drag [x] and [y]
    plus exactly [dx] and [dy] and every other field as before, the
    objects that are not selected are committed untouched, and the
    history grows by exactly one entry. *)
Theorem multi_drag_lockstep (st : App.t) (id : string) (a : DesignObject.t)
  (path : list (R * R)) (dx dy : R) :
  synced st ->
  In id (App.selectedIds st) ->
  In a (App.objects st) ->
  DesignObject.id a = id ->
  last path = Some (DesignObject.x a + dx, DesignObject.y a + dy) ->
  let started := dispatch onDragStart id st in
  let st' := dragGesture id path st in
  (forall moves p o,
      In o (App.objects st) -> In (DesignObject.id o) (App.selectedIds st) ->
      App.stage (fold_left (dragMoveTo id) (moves ++ [p]) started) !! DesignObject.id o
      = Some (Node.mk (DesignObject.x o + (fst p - DesignObject.x a))
                      (DesignObject.y o + (snd p - DesignObject.y a))))
  /\ (forall moves,
        App.history (fold_left (dragMoveTo id) moves started) = App.history st
        /\ App.historyStep (fold_left (dragMoveTo id) moves started) = App.historyStep st
        /\ App.objects (fold_left (dragMoveTo id) moves started) = App.objects st)
  /\ App.objects st' = map (shifted (App.selectedIds st) dx dy) (App.objects st)
  /\ (forall o, In o (App.objects st) ->
        In (DesignObject.id o) (App.selectedIds st) ->
        In (withPosition o (DesignObject.x o + dx) (DesignObject.y o + dy))
           (App.objects st'))
  /\ App.history st'
     = take (App.historyStep st + 1) (App.history st) ++ [App.objects st']
  /\ App.historyStep st' = length (take (App.historyStep st + 1) (App.history st))
  /\ length (App.objects st') = length (App.objects st)
  /\ (forall (i : nat) o, App.objects st !! i = Some o ->
        exists o', App.objects st' !! i = Some o'
          /\ (In (DesignObject.id o) (App.selectedIds st) ->
              DesignObject.x o' = DesignObject.x o + dx
              /\ DesignObject.y o' = DesignObject.y o + dy
              /\ o' = DesignObject.mk (DesignObject.id o) (DesignObject.type o)
                        (DesignObject.x o + dx) (DesignObject.y o + dy)
                        (DesignObject.width o) (DesignObject.height o)
                        (DesignObject.rotation o) (DesignObject.scaleX o)
                        (DesignObject.scaleY o) (DesignObject.src o)
                        (DesignObject.highResSrc o) (DesignObject.zIndex o))
          /\ (~ In (DesignObject.id o) (App.selectedIds st) -> o' = o)).
Proof.
  intros Hsync Hsel Ha Haid Hlast started st'.
  assert (Hstarted : App.history started = App.history st
                     /\ App.historyStep started = App.historyStep st
                     /\ App.objects started = App.objects st).
  { unfold started. rewrite (started_eq st id a Hsync Hsel Ha Haid). auto. }
  destruct Hstarted as (Hh & Hs & Ho).
  assert (Hmoves : forall moves,
        App.history (fold_left (dragMoveTo id) moves started) = App.history st
        /\ App.historyStep (fold_left (dragMoveTo id) moves started) = App.historyStep st
        /\ App.objects (fold_left (dragMoveTo id) moves started) = App.objects st).
  { intros moves. pose proof (moves_fields id moves started) as Hf. cbv zeta in Hf.
    destruct Hf as (F1 & _ & F3 & F4 & _). rewrite F1, F3, F4. auto. }
  assert (Hend : st' = setDragStartAttrs ∅
        (setIsDragging false
           (saveHistory (map (shifted (App.selectedIds st) dx dy) (App.objects st))
              (fold_left (dragMoveTo id) path started)))).
  { apply (gesture_commits st id a Hsync Hsel Ha Haid path dx dy Hlast). }
  destruct (Hmoves path) as (Hph & Phs & _).
  split; [|split; [exact Hmoves|]].
  - intros moves p o Hin Hosel.
    apply (lockstep_after_move st id a Hsync Hsel Ha Haid moves p o Hin Hosel).
  - rewrite Hend.
    cbn [App.objects App.history App.historyStep setDragStartAttrs setIsDragging].
    rewrite saveHistory_objects, saveHistory_history, saveHistory_step,
      saveHistory_history, Hph, Phs.
    split; [reflexivity|]. split; [|split; [reflexivity|split; [|split]]].
    + intros o Hin Hosel. apply in_map_iff. exists o. split; [|exact Hin].
      unfold shifted. now rewrite (proj2 (includes_true _ _) Hosel).
    + rewrite length_app. simpl. lia.
    + apply length_map.
    + intros i o Hi. exists (shifted (App.selectedIds st) dx dy o).
      split; [now apply map_lookup_position|]. unfold shifted. split.
      * intros Hosel. rewrite (proj2 (includes_true _ _) Hosel).
        repeat split.
      * intros Hosel.
        destruct (includes (App.selectedIds st) (DesignObject.id o)) eqn:E;
          [|reflexivity].
        apply includes_true in E. contradiction.
Qed.

Lemma dragApp_synced : synced dragApp.
Proof.
  intros o Hin. simpl in Hin.
  destruct Hin as [<-|[<-|[<-|[]]]]; reflexivity.
Qed.

Lemma multi_drag_lockstep_witness :
  exists b c,
    App.objects (dragGesture "A" dragPath dragApp) !! 1%nat = Some b
    /\ DesignObject.x b = 200 + 30 /\ DesignObject.y b = 40 + 40
    /\ App.objects (dragGesture "A" dragPath dragApp) !! 2%nat = Some c
    /\ DesignObject.x c = 50 + 30 /\ DesignObject.y c = 300 + 40.
Proof.
  destruct (multi_drag_lockstep dragApp "A" objA dragPath 30 40)
    as (_ & _ & _ & _ & _ & _ & _ & Hat).
  - exact dragApp_synced.
  - simpl. auto.
  - simpl. auto.
  - reflexivity.
  - reflexivity.
  - destruct (Hat 1%nat objB eq_refl) as (b & Hb & Hbsel & _).
    destruct (Hat 2%nat objC eq_refl) as (c & Hc & Hcsel & _).
    destruct Hbsel as (Hbx & Hby & _); [simpl; auto|].
    destruct Hcsel as (Hcx & Hcy & _); [simpl; auto|].
    exists b, c. repeat split; assumption.
Defined.

(** ** Export: validation *)

Lemma export_no_images w size o objects :
  List.filter isImage (o :: objects) = [] ->
  export w (Body.mk (Some size) (ObjectsArray (o :: objects)))
  = Outcome.mk (JsonError 400 errNoImageObjects None)
      [CreateCanvas (ceil (Size.width size * SCALE_FACTOR))
                    (ceil (Size.height size * SCALE_FACTOR))]
      (Some (newCanvas (ceil (Size.width size * SCALE_FACTOR))
                       (ceil (Size.height size * SCALE_FACTOR)))).
Proof.
  intros Hf. unfold export. cbn [Body.size Body.objects]. rewrite Hf. reflexivity.
Qed.

Lemma ceil_spec r : IZR (ceil r) - 1 < r <= IZR (ceil r).
Proof.
  unfold ceil. rewrite opp_IZR.
  destruct (base_Int_part (- r)) as [H1 H2]. lra.
Qed.

Lemma ceil_IZR k : ceil (IZR k) = k.
Proof.
  destruct (ceil_spec (IZR k)) as [H1 H2].
  apply le_IZR in H2.
  assert (H3 : (ceil (IZR k) < k + 1)%Z).
  { apply lt_IZR. rewrite plus_IZR. lra. }
  lia.
Qed.

(** C7 (as amended): a request without [size], without [objects], with
    an [objects] that is not an array or is empty, or with no image-kind
    object is answered with a 400 validation error; no asset is fetched
    and nothing is painted, and the answer does not depend on what a
    fetch or the encoder would have returned.  The first two checks
    reject before any work at all: no effect, no canvas.  The check for
    image-kind objects comes later: by then the raster canvas of the
    scaled sheet size and its 2D context have been allocated, and the
    request is rejected with that blank canvas left behind. *)
Theorem export_validation_rejects (w : World.t) (body : Body.t) :
  invalidBody body ->
  let out := export w body in
  (exists msg, Outcome.response out = JsonError 400 msg None)
  /\ List.filter isFetch (Outcome.effects out) = []
  /\ paintedOps out = []
  /\ (forall w', export w' body = out)
  /\ (Body.size body = None \/ Body.objects body = ObjectsMissing ->
      out = Outcome.mk (JsonError 400 errMissing None) [] None)
  /\ (forall size, Body.size body = Some size ->
      Body.objects body = ObjectsNotArray \/ Body.objects body = ObjectsArray [] ->
      out = Outcome.mk (JsonError 400 errNoObjects None) [] None)
  /\ (forall size objects, Body.size body = Some size ->
      Body.objects body = ObjectsArray objects -> objects <> [] ->
      List.filter isImage objects = [] ->
      out = Outcome.mk (JsonError 400 errNoImageObjects None)
              [CreateCanvas (ceil (Size.width size * SCALE_FACTOR))
                            (ceil (Size.height size * SCALE_FACTOR))]
              (Some (blankCanvas size))).
Proof.
  intros Hinv out.
  assert (Hearly : Body.size body = None \/ Body.objects body = ObjectsMissing ->
            out = Outcome.mk (JsonError 400 errMissing None) [] None).
  { subst out. destruct body as [[size|] objs]; cbn [Body.size Body.objects].
    - intros [H|H]; [discriminate|]. subst objs. reflexivity.
    - intros _. destruct objs; reflexivity. }
  assert (Hempty : forall size, Body.size body = Some size ->
            Body.objects body = ObjectsNotArray \/ Body.objects body = ObjectsArray [] ->
            out = Outcome.mk (JsonError 400 errNoObjects None) [] None).
  { subst out. destruct body as [bsize objs]; cbn [Body.size Body.objects].
    intros size -> [H|H]; subst objs; reflexivity. }
  assert (Hkind : forall size objects, Body.size body = Some size ->
            Body.objects body = ObjectsArray objects -> objects <> [] ->
            List.filter isImage objects = [] ->
            out = Outcome.mk (JsonError 400 errNoImageObjects None)
                    [CreateCanvas (ceil (Size.width size * SCALE_FACTOR))
                                  (ceil (Size.height size * SCALE_FACTOR))]
                    (Some (blankCanvas size))).
  { subst out. destruct body as [bsize objs]; cbn [Body.size Body.objects].
    intros size objects -> -> Hne Hf. destruct objects as [|o objects];
      [now contradiction Hne|].
    apply (export_no_images w size o objects Hf). }
  assert (Hcases : (Body.size body = None \/ Body.objects body = ObjectsMissing)
            \/ (exists size, Body.size body = Some size
                  /\ (Body.objects body = ObjectsNotArray
                      \/ Body.objects body = ObjectsArray []))
            \/ (exists size objects, Body.size body = Some size
                  /\ Body.objects body = ObjectsArray objects /\ objects <> []
                  /\ List.filter isImage objects = [])).
  { clear Hearly Hempty Hkind. subst out.
    destruct body as [[size|] objs]; cbn [Body.size Body.objects] in *;
      [|left; left; reflexivity].
    destruct objs as [| |[|o objects]];
      [left; right; reflexivity
      |right; left; exists size; auto
      |right; left; exists size; auto|].
    right. right. exists size, (o :: objects).
    repeat split; [discriminate|].
    destruct Hinv as [H|[H|[H|[H|(l & H1 & H2)]]]]; try discriminate.
    injection H1 as <-. exact H2. }
  assert (Hsame : forall w', export w' body = out).
  { intros w'. subst out. destruct body as [[size|] [| |[|o objects]]]; try reflexivity.
    destruct Hcases as [[H|H]|[(sz & _ & [H|H])|(sz & l & _ & H1 & _ & H2)]];
      try discriminate.
    cbn [Body.objects] in H1. injection H1 as <-.
    now rewrite !(export_no_images _ size o objects H2). }
  repeat split; try assumption;
    destruct Hcases as [H|[(sz & Hs & H)|(sz & l & Hs & Ho & Hne & Hf)]];
    rewrite ?(Hearly H), ?(Hempty sz Hs H), ?(Hkind sz l Hs Ho Hne Hf);
    cbn; eauto.
Qed.

Lemma export_validation_rejects_witness :
  export goodWorld textOnlyBody
  = Outcome.mk (JsonError 400 errNoImageObjects None)
      [CreateCanvas (ceil (Size.width sampleSize * SCALE_FACTOR))
                    (ceil (Size.height sampleSize * SCALE_FACTOR))]
      (Some (blankCanvas sampleSize))
  /\ List.filter isFetch (Outcome.effects (export goodWorld textOnlyBody)) = [].
Proof.
  destruct (export_validation_rejects goodWorld textOnlyBody)
    as (_ & Hfetch & _ & _ & _ & _ & Hkind).
  - right. right. right. right. eexists. split; reflexivity.
  - split; [|exact Hfetch].
    apply (Hkind sampleSize
             [ExportObject.mk "T" "text" 0 0 10 10 None None None None None]);
      [reflexivity|reflexivity|discriminate|reflexivity].
Defined.

(** C7 as first stated fails: a request with objects but none of image
    kind is rejected only after the raster canvas (here 6600 by 3600
    pixels for a 22 by 12 inch sheet) and its 2D context have been
    allocated, so the rejection does not come before all rendering
    work. *)
Lemma export_rejects_after_canvas_counterexample :
  invalidBody textOnlyBody
  /\ Outcome.response (export goodWorld textOnlyBody)
     = JsonError 400 errNoImageObjects None
  /\ Outcome.effects (export goodWorld textOnlyBody) = [CreateCanvas 6600 3600]
  /\ Outcome.surface (export goodWorld textOnlyBody) = Some (newCanvas 6600 3600).
Proof.
  assert (Hw : ceil (Size.width sampleSize * SCALE_FACTOR) = 6600%Z).
  { replace (Size.width sampleSize * SCALE_FACTOR) with (IZR 6600)
      by (unfold sampleSize, SCALE_FACTOR; cbn [Size.width]; lra).
    apply ceil_IZR. }
  assert (Hh : ceil (Size.height sampleSize * SCALE_FACTOR) = 3600%Z).
  { replace (Size.height sampleSize * SCALE_FACTOR) with (IZR 3600)
      by (unfold sampleSize, SCALE_FACTOR; cbn [Size.height]; lra).
    apply ceil_IZR. }
  split; [|split; [reflexivity|]].
  - right. right. right. right. eexists. split; reflexivity.
  - unfold textOnlyBody.
    rewrite (export_no_images goodWorld sampleSize
               (ExportObject.mk "T" "text" 0 0 10 10 None None None None None)
               [] eq_refl).
    cbn [Outcome.effects Outcome.surface]. rewrite Hw, Hh. split; reflexivity.
Qed.

(** ** Export: the draw loop *)

Lemma drawItem_spec ctx item :
  drawItem ctx item
  = Context2D.mk (Context2D.ctm ctx) (Context2D.saved ctx)
      (Context2D.drawn ctx ++ painted (Context2D.ctm ctx) [item]).
Proof.
  destruct ctx as [m saved drawn].
  destruct item as [[[image|] obj success error]|]; simpl;
    rewrite ?app_nil_r; reflexivity.
Qed.

Lemma painted_cons m item items :
  painted m (item :: items) = painted m [item] ++ painted m items.
Proof. unfold painted. simpl. now rewrite app_nil_r. Qed.

Lemma drawAll_spec items : forall ctx,
  drawAll items ctx
  = Context2D.mk (Context2D.ctm ctx) (Context2D.saved ctx)
      (Context2D.drawn ctx ++ painted (Context2D.ctm ctx) items).
Proof.
  unfold drawAll.
  induction items as [|item items IH]; intros ctx; cbn [fold_left].
  - destruct ctx; simpl. now rewrite app_nil_r.
  - rewrite IH, drawItem_spec. cbn [Context2D.ctm Context2D.saved Context2D.drawn].
    rewrite (painted_cons _ item items), app_assoc. reflexivity.
Qed.

Lemma numOr_positive s d : 0 < s -> numOr (Some s) d = Rabs s.
Proof.
  intros Hs. unfold numOr. destruct (Req_dec_T s 0); [lra|].
  symmetry. apply Rabs_pos_eq. lra.
Qed.

Lemma paintTransform_identity obj :
  paintTransform Matrix.identity obj
  = Matrix.mk (cos (destRotation obj)) (sin (destRotation obj))
              (- sin (destRotation obj)) (cos (destRotation obj))
              (destX obj + destWidth obj / 2) (destY obj + destHeight obj / 2).
Proof.
  unfold paintTransform, ctx_rotate, ctx_translate, Matrix.identity. simpl.
  f_equal; lra.
Qed.

(** C1 (as amended): the draw loop leaves the transform and the save
    stack as it found them and issues one draw per loaded item, in order.
    For each object the destination rectangle is
    [(x*S, y*S, width*S*sx, height*S*sy)] with [S = 300/96] and [sx], [sy]
    the scale factors as given, sign included ([1] when absent or zero);
    for positive factors these are the absolute magnitudes.  The image is
    drawn in a rectangle centred on the origin of a frame that is the
    rotation by [rotation*PI/180] about the centre of the destination
    rectangle.  An object with [width = 96], [scaleX = 1], [rotation = 0]
    at [x = 0] is drawn from pixel column 0 to 300. *)
Theorem export_draw_placement (items : list (option ImageData.t))
  (ctx : Context2D.t) (image : Image.t) (obj : ExportObject.t) :
  let sx := numOr (ExportObject.scaleX obj) 1 in
  let sy := numOr (ExportObject.scaleY obj) 1 in
  let theta := numOr (ExportObject.rotation obj) 0 * PI / 180 in
  let X := ExportObject.x obj * (300 / 96) in
  let Y := ExportObject.y obj * (300 / 96) in
  let op := paintOf Matrix.identity image obj in
  (Context2D.ctm (drawAll items ctx) = Context2D.ctm ctx
   /\ Context2D.saved (drawAll items ctx) = Context2D.saved ctx
   /\ Context2D.drawn (drawAll items ctx)
      = Context2D.drawn ctx ++ painted (Context2D.ctm ctx) items)
  /\ drawItem (Context2D.mk Matrix.identity [] [])
              (Some (ImageData.mk (Some image) obj true None))
     = Context2D.mk Matrix.identity [] [op]
  /\ (DrawOp.dw op = ExportObject.width obj * (300 / 96) * sx
      /\ DrawOp.dh op = ExportObject.height obj * (300 / 96) * sy)
  /\ (DrawOp.dx op + DrawOp.dw op / 2 = 0 /\ DrawOp.dy op + DrawOp.dh op / 2 = 0)
  /\ DrawOp.transform op
     = Matrix.mk (cos theta) (sin theta) (- sin theta) (cos theta)
                 (X + DrawOp.dw op / 2) (Y + DrawOp.dh op / 2)
  /\ (numOr (ExportObject.rotation obj) 0 = 0 ->
      Matrix.apply (DrawOp.transform op) (Point.mk (DrawOp.dx op) (DrawOp.dy op))
      = Point.mk X Y
      /\ Matrix.apply (DrawOp.transform op)
           (Point.mk (DrawOp.dx op + DrawOp.dw op) (DrawOp.dy op + DrawOp.dh op))
         = Point.mk (X + DrawOp.dw op) (Y + DrawOp.dh op))
  /\ (forall s, ExportObject.scaleX obj = Some s -> 0 < s ->
        DrawOp.dw op = ExportObject.width obj * (300 / 96) * Rabs s)
  /\ (forall s, ExportObject.scaleY obj = Some s -> 0 < s ->
        DrawOp.dh op = ExportObject.height obj * (300 / 96) * Rabs s)
  /\ (ExportObject.width obj = 96 -> ExportObject.scaleX obj = Some 1 ->
      ExportObject.rotation obj = Some 0 -> ExportObject.x obj = 0 ->
      DrawOp.dw op = 300
      /\ Point.x (Matrix.apply (DrawOp.transform op)
                    (Point.mk (DrawOp.dx op) (DrawOp.dy op))) = 0
      /\ Point.x (Matrix.apply (DrawOp.transform op)
                    (Point.mk (DrawOp.dx op + DrawOp.dw op)
                              (DrawOp.dy op + DrawOp.dh op))) = 300).
Proof.
  intros sx sy theta X Y op.
  assert (Hrot0 : numOr (ExportObject.rotation obj) 0 = 0 ->
                  cos (destRotation obj) = 1 /\ sin (destRotation obj) = 0).
  { intros H0. unfold destRotation. rewrite H0.
    replace (0 * PI / 180) with 0 by lra. split; [apply cos_0 | apply sin_0]. }
  split; [rewrite drawAll_spec; auto|].
  split; [rewrite drawItem_spec; reflexivity|].
  split; [split; reflexivity|].
  split; [unfold op, paintOf; simpl; split; lra|].
  split; [unfold op, paintOf; simpl; apply paintTransform_identity|].
  split.
  { intros H0. destruct (Hrot0 H0) as [Hc Hs].
    unfold op, paintOf. cbn [DrawOp.transform DrawOp.dx DrawOp.dy DrawOp.dw DrawOp.dh].
    rewrite paintTransform_identity. unfold Matrix.apply.
    cbn [Matrix.a Matrix.b Matrix.c Matrix.d Matrix.e Matrix.f Point.x Point.y].
    rewrite Hc, Hs. unfold X, Y, destX, destY, SCALE_FACTOR. split; f_equal; lra. }
  split.
  { intros s Hs Hpos. unfold op, paintOf, destWidth, SCALE_FACTOR. simpl.
    rewrite Hs, numOr_positive by exact Hpos. reflexivity. }
  split.
  { intros s Hs Hpos. unfold op, paintOf, destHeight, SCALE_FACTOR. simpl.
    rewrite Hs, numOr_positive by exact Hpos. reflexivity. }
  intros Hw Hsx Hr Hx.
  assert (H0 : numOr (ExportObject.rotation obj) 0 = 0).
  { rewrite Hr. unfold numOr. destruct (Req_dec_T 0 0); lra. }
  destruct (Hrot0 H0) as [Hc Hs].
  assert (Hdw : destWidth obj = 300).
  { unfold destWidth, SCALE_FACTOR. rewrite Hw, Hsx, numOr_positive by lra.
    rewrite Rabs_pos_eq by lra. lra. }
  unfold op, paintOf. cbn [DrawOp.transform DrawOp.dx DrawOp.dy DrawOp.dw DrawOp.dh].
  rewrite paintTransform_identity. unfold Matrix.apply.
  cbn [Matrix.a Matrix.b Matrix.c Matrix.d Matrix.e Matrix.f Point.x Point.y].
  rewrite Hc, Hs, Hdw. unfold destX, SCALE_FACTOR. rewrite Hx.
  repeat split; lra.
Qed.

Lemma export_draw_placement_witness :
  DrawOp.dw (paintOf Matrix.identity (sampleImage "a.png")
               (exportObject "A" 0 0 (Some 1) "a.png")) = 300.
Proof.
  destruct (export_draw_placement [] (Context2D.mk Matrix.identity [] [])
              (sampleImage "a.png") (exportObject "A" 0 0 (Some 1) "a.png"))
    as (_ & _ & _ & _ & _ & _ & _ & _ & Hex).
  destruct Hex as (H & _ & _); try reflexivity. exact H.
Defined.

(** C1 as first stated fails for a mirrored object: with [scaleX = -1]
    and [width = 96] the destination width is [-300], not
    [96 * S * |scaleX| = 300]; the rectangle extends to the left of [x*S]. *)
Lemma export_abs_scale_counterexample :
  let op := paintOf Matrix.identity (sampleImage "m.png") mirroredObject in
  paintedOps (export goodWorld (Body.mk (Some sampleSize) (ObjectsArray [mirroredObject])))
  = [op]
  /\ DrawOp.dw op = -300
  /\ DrawOp.dw op
     <> ExportObject.width mirroredObject * (300 / 96) * Rabs (-1)
  /\ Matrix.apply (DrawOp.transform op)
       (Point.mk (DrawOp.dx op + DrawOp.dw op) (DrawOp.dy op + DrawOp.dh op))
     = Point.mk (-300) 150.
Proof.
  cbv zeta.
  assert (Hn : numOr (Some (-1)) 1 = -1).
  { unfold numOr. destruct (Req_dec_T (-1) 0); lra. }
  assert (Hdw : destWidth mirroredObject = -300).
  { unfold destWidth, mirroredObject, exportObject, SCALE_FACTOR.
    cbn [ExportObject.width ExportObject.scaleX]. rewrite Hn. lra. }
  assert (Hdh : destHeight mirroredObject = 150).
  { unfold destHeight, mirroredObject, exportObject, SCALE_FACTOR.
    cbn [ExportObject.height ExportObject.scaleY].
    rewrite numOr_positive, Rabs_pos_eq by lra. lra. }
  assert (Hrot : destRotation mirroredObject = 0).
  { unfold destRotation, mirroredObject, exportObject.
    cbn [ExportObject.rotation]. unfold numOr. destruct (Req_dec_T 0 0); lra. }
  split; [|split; [|split]].
  - unfold export. simpl. unfold paintedOps. simpl. reflexivity.
  - exact Hdw.
  - unfold paintOf. simpl. rewrite Hdw. rewrite Rabs_left by lra. lra.
  - unfold paintOf. cbn [DrawOp.transform DrawOp.dx DrawOp.dy DrawOp.dw DrawOp.dh].
    rewrite paintTransform_identity, Hrot, cos_0, sin_0, Hdw, Hdh.
    unfold Matrix.apply, destX, destY, mirroredObject, exportObject, SCALE_FACTOR.
    simpl. f_equal; lra.
Qed.

(** ** Export: asset failures *)

Lemma successfulImages_spec w objects item :
  In item (successfulImages w objects) <->
  exists obj url img,
    In obj (List.filter isImage objects)
    /\ imageUrl obj = Some url
    /\ url <> EmptyString
    /\ World.fetchImage w url = Loaded img
    /\ item = Some (ImageData.mk (Some img) obj true None).
Proof.
  unfold successfulImages. rewrite filter_In, in_map_iff. split.
  - intros ((obj & Hload & Hin) & Hok). unfold loadImage in Hload.
    destruct (imageUrl obj) as [url|] eqn:Eurl.
    + destruct (bool_decide (url = EmptyString)) eqn:Ee.
      * subst item. discriminate.
      * apply bool_decide_eq_false in Ee.
        destruct (World.fetchImage w url) as [img|msg] eqn:Ef; subst item.
        -- exists obj, url, img. auto.
        -- discriminate.
    + subst item. discriminate.
  - intros (obj & url & img & Hin & Hurl & Hne & Hf & ->). split; [|reflexivity].
    exists obj. split; [|exact Hin]. unfold loadImage.
    now rewrite Hurl, bool_decide_eq_false_2, Hf.
Qed.

Lemma painted_length w objects :
  length (painted Matrix.identity (successfulImages w objects))
  = length (successfulImages w objects).
Proof.
  assert (H : forall item, In item (successfulImages w objects) ->
                exists d img, item = Some d /\ ImageData.image d = Some img).
  { intros item Hin. apply successfulImages_spec in Hin
      as (obj & url & img & _ & _ & _ & _ & ->). eauto. }
  induction (successfulImages w objects) as [|item items IH]; [reflexivity|].
  rewrite painted_cons, length_app, IH by (intros; apply H; simpl; auto).
  destruct (H item) as (d & img & -> & Himg); [simpl; auto|].
  simpl. rewrite Himg. reflexivity.
Qed.

Section ValidExport.
Variables (w : World.t) (size : Size.t) (objects : list ExportObject.t).
Hypothesis Himages : List.filter isImage objects <> [].

Lemma export_total_loss :
  successfulImages w objects = [] ->
  export w (Body.mk (Some size) (ObjectsArray objects))
  = Outcome.mk (JsonError 500 errLoadFailed None) (loadingEffects size objects)
      (Some (blankCanvas size)).
Proof.
  intros Hnone. unfold export, loadingEffects, blankCanvas.
  cbn [Body.size Body.objects].
  destruct objects as [|o l]; [now contradiction Himages|].
  destruct (List.filter isImage (o :: l)) as [|io ios] eqn:Ef;
    [now contradiction Himages|].
  cbn [length Nat.eqb].
  unfold successfulImages in Hnone. rewrite Ef in Hnone.
  rewrite Hnone. reflexivity.
Qed.

Lemma export_proceeds :
  successfulImages w objects <> [] ->
  export w (Body.mk (Some size) (ObjectsArray objects))
  = Outcome.mk
      (match World.encodePng w (paintedCanvas w size objects) with
       | Encoded buffer => PngAttachment buffer
       | EncodeFailed message => JsonError 500 errGenerate (Some (errConvert ++ message)%string)
       end)
      (if (length (successfulImages w objects)
           <? length (List.filter isImage objects))%nat
       then loadingEffects size objects
            ++ [WarnPartial (length (successfulImages w objects))
                            (length (List.filter isImage objects))]
       else loadingEffects size objects)
      (Some (paintedCanvas w size objects)).
Proof.
  intros Hsome. unfold export. cbn [Body.size Body.objects].
  destruct objects as [|o l]; [now contradiction Himages|].
  unfold paintedCanvas, loadingEffects, successfulImages in *.
  destruct (List.filter isImage (o :: l)) as [|io ios] eqn:Ef;
    [now contradiction Himages|].
  cbn [length Nat.eqb].
  destruct (List.filter isSuccessful (map (loadImage w) (io :: ios)))
    as [|it its] eqn:Es; [now contradiction Hsome|].
  cbn [length Nat.eqb]. rewrite drawAll_spec.
  cbn [Canvas.ctx newCanvas Context2D.ctm Context2D.saved Context2D.drawn app].
  destruct (World.encodePng w _); reflexivity.
Qed.
End ValidExport.

Lemma loading_has_no_partial_warning size objects k n :
  ~ In (WarnPartial k n) (loadingEffects size objects).
Proof.
  unfold loadingEffects. simpl. intros [H|H]; [discriminate|].
  apply in_concat in H as (l & Hl & Hin). apply in_map_iff in Hl as (obj & <- & _).
  unfold loadEffects in Hin.
  destruct (imageUrl obj) as [url|]; [destruct (bool_decide (url = EmptyString))|];
    simpl in Hin; destruct Hin as [H|[]]; discriminate.
Qed.

Lemma loadingEffects_fetch size objects url :
  In (Fetch url) (loadingEffects size objects) <->
  exists obj, In obj (List.filter isImage objects)
              /\ imageUrl obj = Some url /\ url <> EmptyString.
Proof.
  unfold loadingEffects. rewrite in_app_iff, in_concat. split.
  - intros [[H|[]]|(l & Hl & Hin)]; [discriminate|].
    apply in_map_iff in Hl as (obj & <- & Hobj). exists obj.
    unfold loadEffects in Hin. destruct (imageUrl obj) as [u|].
    + destruct (bool_decide (u = EmptyString)) eqn:E.
      * destruct Hin as [H|[]]; discriminate.
      * apply bool_decide_eq_false in E. destruct Hin as [H|[]].
        injection H as <-. auto.
    + destruct Hin as [H|[]]; discriminate.
  - intros (obj & Hobj & Hurl & Hne). right. exists (loadEffects obj). split.
    + apply in_map_iff. eauto.
    + unfold loadEffects. rewrite Hurl, bool_decide_eq_false_2 by exact Hne.
      simpl. auto.
Qed.

(** C3 (as amended): for a request that passes validation, the export
    answers with the asset-loading error (status 500, no raster bytes,
    nothing painted) if and only if none of the image objects' assets
    loaded.  When at least one loaded, the export goes on: exactly the
    loaded items are painted, in order, one draw each; the skipped ones
    are counted in a warning rather than ending the batch; and the answer
    is the encoded raster, unless encoding the finished surface fails,
    which is reported as a different error.  An asset counts as loaded
    when its object has a non-empty source and the fetch of that source
    succeeds; an object whose source is missing or the empty string is
    never fetched. *)
Theorem export_asset_failures (w : World.t) (size : Size.t)
  (objects : list ExportObject.t) :
  List.filter isImage objects <> [] ->
  let out := export w (Body.mk (Some size) (ObjectsArray objects)) in
  let imageObjects := List.filter isImage objects in
  let items := successfulImages w objects in
  (Outcome.response out = JsonError 500 errLoadFailed None <-> items = [])
  /\ (items = [] ->
      paintedOps out = [] /\ forall buffer, Outcome.response out <> PngAttachment buffer)
  /\ (items <> [] ->
      paintedOps out = painted Matrix.identity items
      /\ length (paintedOps out) = length items
      /\ (exists c, Outcome.surface out = Some c
            /\ Outcome.response out
               = match World.encodePng w c with
                 | Encoded buffer => PngAttachment buffer
                 | EncodeFailed message => JsonError 500 errGenerate (Some (errConvert ++ message)%string)
                 end)
      /\ (forall k n, In (WarnPartial k n) (Outcome.effects out) <->
            k = length items /\ n = length imageObjects /\ (k < n)%nat))
  /\ (forall item, In item items <->
        exists obj url img,
          In obj imageObjects /\ imageUrl obj = Some url
          /\ url <> EmptyString
          /\ World.fetchImage w url = Loaded img
          /\ item = Some (ImageData.mk (Some img) obj true None))
  /\ (forall url, In (Fetch url) (Outcome.effects out) <->
        exists obj, In obj imageObjects /\ imageUrl obj = Some url
                    /\ url <> EmptyString).
Proof.
  intros Himages out imageObjects items.
  assert (Hsome : items <> [] ->
            paintedOps out = painted Matrix.identity items
            /\ length (paintedOps out) = length items
            /\ (exists c, Outcome.surface out = Some c
                  /\ Outcome.response out
                     = match World.encodePng w c with
                       | Encoded buffer => PngAttachment buffer
                       | EncodeFailed message => JsonError 500 errGenerate (Some (errConvert ++ message)%string)
                       end)
            /\ (forall k n, In (WarnPartial k n) (Outcome.effects out) <->
                  k = length items /\ n = length imageObjects /\ (k < n)%nat)).
  { intros Hne. unfold out. rewrite (export_proceeds w size objects Himages Hne).
    cbn [Outcome.response Outcome.effects Outcome.surface paintedOps
         Canvas.ctx Context2D.drawn].
    split; [reflexivity|]. split; [apply painted_length|].
    split; [eexists; split; reflexivity|].
    intros k n. fold items imageObjects.
    destruct (length items <? length imageObjects)%nat eqn:E.
    - apply Nat.ltb_lt in E. rewrite in_app_iff. split.
      + intros [H|[H|[]]].
        * exfalso. revert H. apply loading_has_no_partial_warning.
        * injection H as <- <-. auto.
      + intros (-> & -> & _). right. simpl. auto.
    - apply Nat.ltb_ge in E. split.
      + intros H. exfalso. revert H. apply loading_has_no_partial_warning.
      + intros (-> & -> & Hlt). lia. }
  split; [|split; [|split; [exact Hsome|split]]].
  - split.
    + intros Hresp. destruct items as [|it its] eqn:Ei; [reflexivity|].
      exfalso. destruct Hsome as (_ & _ & (c & _ & Hr) & _); [discriminate|].
      rewrite Hresp in Hr. destruct (World.encodePng w c); discriminate.
    + intros Hnone. unfold out.
      now rewrite (export_total_loss w size objects Himages Hnone).
  - intros Hnone. unfold out.
    rewrite (export_total_loss w size objects Himages Hnone).
    split; [reflexivity|]. intros buffer. discriminate.
  - intros item. apply successfulImages_spec.
  - intros url. unfold out, imageObjects. clear Hsome.
    destruct (successfulImages w objects) as [|it its] eqn:Ei.
    + rewrite (export_total_loss w size objects Himages Ei).
      apply loadingEffects_fetch.
    + rewrite (export_proceeds w size objects Himages)
        by (rewrite Ei; discriminate).
      cbn [Outcome.effects]. rewrite <- loadingEffects_fetch.
      destruct (_ <? _)%nat; [|reflexivity].
      rewrite in_app_iff. split; [|auto].
      intros [H|[H|[]]]; [exact H|discriminate].
Qed.

Lemma export_asset_failures_witness :
  length (paintedOps
            (export goodWorld
               (Body.mk (Some sampleSize)
                  (ObjectsArray [ exportObject "A" 0 0 (Some 1) "a.png";
                                  exportObject "B" 100 0 (Some 1) "missing.png";
                                  exportObject "E" 150 0 (Some 1) "";
                                  exportObject "C" 200 0 (Some 1) "c.png" ]))))
  = 2%nat.
Proof.
  destruct (export_asset_failures goodWorld sampleSize
              [ exportObject "A" 0 0 (Some 1) "a.png";
                exportObject "B" 100 0 (Some 1) "missing.png";
                exportObject "E" 150 0 (Some 1) "";
                exportObject "C" 200 0 (Some 1) "c.png" ])
    as (_ & _ & Hsome & _).
  - discriminate.
  - destruct Hsome as (_ & Hlen & _); [discriminate|]. exact Hlen.
Defined.

(** An object whose source is the empty string is not fetched, even where
    that fetch would succeed: alone in a request, it ends the export with
    the asset-loading error. *)
Lemma export_empty_source_is_missing :
  export goodWorld
    (Body.mk (Some sampleSize) (ObjectsArray [exportObject "E" 0 0 (Some 1) ""]))
  = Outcome.mk (JsonError 500 errLoadFailed None)
      [CreateCanvas (ceil (22 * 96 * SCALE_FACTOR)) (ceil (12 * 96 * SCALE_FACTOR));
       WarnNoUrl "E"]
      (Some (blankCanvas sampleSize)).
Proof. reflexivity. Qed.

(** C3 as first stated fails: an export can end in an error, with no
    raster bytes, although an asset did load, namely when the finished
    surface cannot be encoded. *)
Lemma export_fails_with_loaded_asset_counterexample :
  let out := export encodeFailsWorld oneObjectBody in
  length (successfulImages encodeFailsWorld
            [exportObject "A" 0 0 (Some 1) "a.png"]) = 1%nat
  /\ Outcome.response out
     = JsonError 500 errGenerate
         (Some "Failed to convert canvas to buffer: Canvas buffer is empty"%string)
  /\ (forall buffer, Outcome.response out <> PngAttachment buffer).
Proof.
  cbv zeta. split; [reflexivity|]. split; [reflexivity|].
  intros buffer. discriminate.
Qed.

(** * Further properties of the code *)

(** ** Collision kernel *)

Lemma separatedOn_sym n a b : separatedOn n a b = separatedOn n b a.
Proof. unfold separatedOn. apply orb_comm. Qed.

Lemma forallb_pointwise {A} (f g : A -> bool) l :
  (forall x, f x = g x) -> forallb f l = forallb g l.
Proof. intros H. induction l as [|x l IH]; simpl; [reflexivity|]. now rewrite H, IH. Qed.

(** X1: the overlap test does not depend on the order of its two
    arguments. *)
Theorem doPolygonsIntersect_sym (a b : list Point.t) :
  doPolygonsIntersect a b = doPolygonsIntersect b a.
Proof.
  unfold doPolygonsIntersect. cbn [forallb]. rewrite !andb_true_r.
  rewrite andb_comm. f_equal; apply forallb_pointwise; intros n; f_equal;
    apply separatedOn_sym.
Qed.

Lemma combination_projected n ws : forall ps,
  projected n (combination ws ps)
  = match ws, ps with
    | w :: ws', p :: ps' => w * projected n p + projected n (combination ws' ps')
    | _, _ => 0
    end.
Proof.
  intros ps. destruct ws as [|w ws'], ps as [|p ps']; unfold projected; simpl; ring.
Qed.

Lemma hull_projection_bounds n m M ws : forall ps,
  length ws = length ps ->
  Forall (fun w => 0 <= w) ws ->
  (forall q, In q ps -> m <= projected n q <= M) ->
  m * weightSum ws <= projected n (combination ws ps) <= M * weightSum ws.
Proof.
  induction ws as [|w ws IH]; intros ps Hlen Hpos Hb.
  - rewrite combination_projected. simpl. lra.
  - destruct ps as [|p ps]; [discriminate|].
    rewrite combination_projected. cbn [weightSum].
    apply Forall_cons_1 in Hpos as [Hw Hpos].
    destruct (IH ps) as [IH1 IH2]; [simpl in Hlen; lia | exact Hpos
                                    | intros q Hq; apply Hb; right; exact Hq |].
    destruct (Hb p) as [Hp1 Hp2]; [left; reflexivity|].
    split; nra.
Qed.

Lemma inHull_nonempty polygon p : inHull polygon p -> polygon <> [].
Proof.
  intros (ws & Hlen & _ & Ht & _) ->. destruct ws; [simpl in Ht; lra|discriminate].
Qed.

(** No axis separates two polygons whose hulls share a point. *)
Lemma common_point_not_separated (a b : list Point.t) (p n : Point.t) :
  inHull a p -> inHull b p -> separatedOn n a b = false.
Proof.
  intros Ha Hb.
  pose proof (inHull_nonempty a p Ha) as Hna.
  pose proof (inHull_nonempty b p Hb) as Hnb.
  apply not_true_is_false. intros Hsep.
  apply (separatedOn_true_iff n a b Hna Hnb) in Hsep.
  destruct (projectRange_spec n a Hna)
    as (mA & MA & _ & HA & (pm & Hpm & Epm) & (pM & HpM & EpM)).
  destruct (projectRange_spec n b Hnb)
    as (mB & MB & _ & HB & (qm & Hqm & Eqm) & (qM & HqM & EqM)).
  destruct Ha as (wa & Hla & Hpa & Hta & Hca).
  destruct Hb as (wb & Hlb & Hpb & Htb & Hcb).
  pose proof (hull_projection_bounds n mA MA wa a Hla Hpa HA) as [A1 A2].
  pose proof (hull_projection_bounds n mB MB wb b Hlb Hpb HB) as [B1 B2].
  rewrite <- Hca, Hta in A1, A2. rewrite <- Hcb, Htb in B1, B2.
  destruct Hsep as [Hsep|Hsep].
  - specialize (Hsep pM qm HpM Hqm). lra.
  - specialize (Hsep pm qM Hpm HqM). lra.
Qed.

(** X2: the test never misses a real overlap: when the convex hulls of
    the two polygons have a point in common, no axis separates them and
    the answer is [true]. *)
Theorem doPolygonsIntersect_common_point (a b : list Point.t) (p : Point.t) :
  inHull a p -> inHull b p -> doPolygonsIntersect a b = true.
Proof.
  intros Ha Hb. apply doPolygonsIntersect_true_iff. intros n _.
  exact (common_point_not_separated a b p n Ha Hb).
Qed.

Lemma vertex_inHull polygon p : In p polygon -> inHull polygon p.
Proof.
  induction polygon as [|q polygon IH]; intros Hin; [destruct Hin|].
  destruct Hin as [->|Hin].
  - exists (1 :: map (fun _ => 0) polygon). split; [simpl; now rewrite length_map|].
    split; [constructor; [lra|]; apply Forall_forall; intros w Hw;
            apply list_elem_of_In, in_map_iff in Hw as (_ & <- & _); lra|].
    assert (Hz : forall l : list Point.t,
               weightSum (map (fun _ => 0) l) = 0
               /\ combination (map (fun _ => 0) l) l = Point.mk 0 0).
    { induction l as [|u l [IH1 IH2]]; [split; reflexivity|].
      simpl. rewrite IH1, IH2. simpl. split; [lra|]. f_equal; lra. }
    destruct (Hz polygon) as [Hz1 Hz2]. split.
    + simpl. rewrite Hz1. lra.
    + simpl. rewrite Hz2. simpl. destruct p as [px py]. simpl. f_equal; lra.
  - destruct (IH Hin) as (ws & Hlen & Hpos & Ht & Hc).
    exists (0 :: ws). split; [simpl; lia|]. split; [constructor; [lra|exact Hpos]|].
    split; [simpl; lra|]. simpl. rewrite <- Hc. destruct p as [px py]. simpl.
    f_equal; lra.
Qed.

Lemma doPolygonsIntersect_common_point_witness :
  doPolygonsIntersect (rectPolygon 0 0 2 2) (rectPolygon (0 + 2) (0 + 2) 1 1) = true.
Proof.
  apply (doPolygonsIntersect_common_point _ _ (Point.mk (0 + 2) (0 + 2)));
    apply vertex_inHull; simpl; auto.
Defined.

(** X3: a polygon always overlaps itself (two coincident pieces are
    always reported), and so do two polygons with a common vertex. *)
Theorem doPolygonsIntersect_coincident (a b : list Point.t) :
  doPolygonsIntersect a a = true
  /\ (forall p, In p a -> In p b -> doPolygonsIntersect a b = true).
Proof.
  split.
  - destruct a as [|p a]; [reflexivity|].
    apply doPolygonsIntersect_true_iff. intros n _.
    apply (common_point_not_separated _ _ p); apply vertex_inHull; simpl; auto.
  - intros p Ha Hb. apply doPolygonsIntersect_true_iff. intros n _.
    apply (common_point_not_separated _ _ p); apply vertex_inHull; assumption.
Qed.

Lemma doPolygonsIntersect_coincident_witness :
  doPolygonsIntersect (rectPolygon 0 0 2 2) (rectPolygon (0 + 2) 0 3 1) = true.
Proof.
  apply (proj2 (doPolygonsIntersect_coincident _ _) (Point.mk (0 + 2) 0)); simpl; auto.
Defined.

Lemma ltb_shift a b c : ltb (a + c) (b + c) = ltb a b.
Proof. unfold ltb. destruct (Rlt_dec (a + c) (b + c)), (Rlt_dec a b); try reflexivity; lra. Qed.

Lemma xltb_shift c u v : xltb (xshift c u) (xshift c v) = xltb u v.
Proof. destruct u, v; simpl; try reflexivity. apply ltb_shift. Qed.

Lemma projected_translate n dx dy p :
  projected n (translate dx dy p) = projected n p + projected n (Point.mk dx dy).
Proof. unfold projected, translate. simpl. ring. Qed.

Lemma projectRange_translate n dx dy polygon :
  projectRange n (map (translate dx dy) polygon)
  = (xshift (projected n (Point.mk dx dy)) (fst (projectRange n polygon)),
     xshift (projected n (Point.mk dx dy)) (snd (projectRange n polygon))).
Proof.
  unfold projectRange. set (c := projected n (Point.mk dx dy)).
  assert (H : forall acc,
             fold_left (projectStep n) (map (translate dx dy) polygon)
                       (xshift c (fst acc), xshift c (snd acc))
             = (xshift c (fst (fold_left (projectStep n) polygon acc)),
                xshift c (snd (fold_left (projectStep n) polygon acc)))).
  { induction polygon as [|p polygon IH]; intros acc; cbn [map fold_left]; [reflexivity|].
    rewrite <- IH. f_equal. unfold projectStep. cbn [fst snd].
    rewrite projected_translate. fold c.
    change (Finite (projected n p + c)) with (xshift c (Finite (projected n p))).
    rewrite !xltb_shift.
    destruct (xltb (Finite (projected n p)) (fst acc)),
             (xltb (snd acc) (Finite (projected n p))); reflexivity. }
  exact (H (Infinity, NegInfinity)).
Qed.

Lemma separatedOn_translate n dx dy a b :
  separatedOn n (map (translate dx dy) a) (map (translate dx dy) b) = separatedOn n a b.
Proof.
  unfold separatedOn. rewrite !projectRange_translate. cbn [fst snd].
  now rewrite !xltb_shift.
Qed.

Lemma vertex_translate dx dy polygon j :
  (j < length polygon)%nat ->
  vertex (map (translate dx dy) polygon) j = translate dx dy (vertex polygon j).
Proof.
  intros Hj. unfold vertex.
  rewrite (nth_indep _ (Point.mk 0 0) (translate dx dy (Point.mk 0 0)))
    by (rewrite length_map; exact Hj).
  apply map_nth.
Qed.

Lemma edgeNormals_translate dx dy polygon :
  edgeNormals (map (translate dx dy) polygon) = edgeNormals polygon.
Proof.
  unfold edgeNormals. rewrite length_map. apply map_ext_in. intros j Hj.
  apply in_seq in Hj. unfold edgeNormal. rewrite length_map.
  assert (Hm : ((j + 1) mod length polygon < length polygon)%nat)
    by (apply Nat.mod_upper_bound; lia).
  rewrite !vertex_translate by lia. unfold translate. simpl. apply point_eq; ring.
Qed.

Lemma getRotatedCorners_moved o buffer dx dy :
  getRotatedCorners (withPosition o (DesignObject.x o + dx) (DesignObject.y o + dy)) buffer
  = map (translate dx dy) (getRotatedCorners o buffer).
Proof.
  rewrite !getRotatedCorners_unfold. cbv zeta.
  unfold scaledWidth, scaledHeight, withPosition, translate.
  cbn [map Point.x Point.y DesignObject.x DesignObject.y DesignObject.width
       DesignObject.height DesignObject.rotation DesignObject.scaleX DesignObject.scaleY].
  corner_list; ring.
Qed.

(** X4: the overlap test depends only on the relative placement: moving
    both polygons by the same vector leaves the answer as it was; so
    moving two objects together, as a multi-object drag does, never
    changes whether they are reported as overlapping. *)
Theorem doPolygonsIntersect_translate (a b : list Point.t) (dx dy : R) :
  doPolygonsIntersect (map (translate dx dy) a) (map (translate dx dy) b)
  = doPolygonsIntersect a b
  /\ (forall (o1 o2 : DesignObject.t) (buffer : R),
        doPolygonsIntersect
          (getRotatedCorners
             (withPosition o1 (DesignObject.x o1 + dx) (DesignObject.y o1 + dy)) buffer)
          (getRotatedCorners
             (withPosition o2 (DesignObject.x o2 + dx) (DesignObject.y o2 + dy)) buffer)
        = doPolygonsIntersect (getRotatedCorners o1 buffer) (getRotatedCorners o2 buffer)).
Proof.
  assert (H : forall a b : list Point.t,
             doPolygonsIntersect (map (translate dx dy) a) (map (translate dx dy) b)
             = doPolygonsIntersect a b).
  { intros u v. unfold doPolygonsIntersect. cbn [forallb].
    rewrite !edgeNormals_translate.
    f_equal; [|f_equal]; apply forallb_pointwise; intros n;
      now rewrite separatedOn_translate. }
  split; [apply H|]. intros o1 o2 buffer. rewrite !getRotatedCorners_moved. apply H.
Qed.

(** ** Overlap check *)

Lemma quarter_inch : 0.25 * PPI = 24.
Proof. unfold PPI. lra. Qed.

Lemma upright_overlap_iff (a b : DesignObject.t) :
  upright a -> upright b ->
  (doPolygonsIntersect (getRotatedCorners a (0.25 * PPI))
                       (getRotatedCorners b (0.25 * PPI)) = true
   <-> within 48 a b).
Proof.
  intros (Ra & Wa & Ha) (Rb & Wb & Hb). rewrite quarter_inch.
  rewrite (unrotated_objects_overlap_iff a b 24 Ra Rb) by lra.
  unfold rangesIntersect, within. split; intros; repeat split; lra.
Qed.

(** X5: [checkOverlap] answers [false] whenever the list it looks at has
    at most one object; otherwise, for unrotated objects, it answers
    [true] exactly when some object with another id has its box within
    half an inch (48 units, twice the quarter-inch buffer) of the
    target's box on both axes.  Objects carrying the target's id are
    never compared. *)
Theorem checkOverlap_spec (objects : list DesignObject.t) (target : DesignObject.t)
  (potentialObjects : option (list DesignObject.t)) :
  let objList := default objects potentialObjects in
  ((length objList <= 1)%nat -> checkOverlap objects target potentialObjects = false)
  /\ ((1 < length objList)%nat -> upright target ->
      (forall o, In o objList -> upright o) ->
      (checkOverlap objects target potentialObjects = true
       <-> exists o, In o objList
                     /\ DesignObject.id o <> DesignObject.id target
                     /\ within 48 target o)).
Proof.
  intros objList.
  assert (Hl : match potentialObjects with Some l => l | None => objects end = objList)
    by (destruct potentialObjects; reflexivity).
  split.
  - intros Hlen. unfold checkOverlap. rewrite Hl.
    apply Nat.leb_le in Hlen. now rewrite Hlen.
  - intros Hlen Ht Hall. unfold checkOverlap. rewrite Hl.
    apply Nat.leb_gt in Hlen. rewrite Hlen. rewrite existsb_exists. split.
    + intros (o & Hin & Ho). exists o. split; [exact Hin|].
      destruct (bool_decide (DesignObject.id o = DesignObject.id target)) eqn:E;
        [discriminate|].
      apply bool_decide_eq_false in E. split; [exact E|].
      apply upright_overlap_iff; auto.
    + intros (o & Hin & Hid & Hw). exists o. split; [exact Hin|].
      rewrite bool_decide_eq_false_2 by exact Hid.
      apply upright_overlap_iff; auto.
Qed.

Lemma checkOverlap_spec_witness :
  checkOverlap [] objA (Some [objA; sampleObject "D" 150 20]) = true.
Proof.
  apply (proj2 (checkOverlap_spec [] objA (Some [objA; sampleObject "D" 150 20]))).
  - simpl. lia.
  - unfold upright, scaledWidth, scaledHeight. simpl.
    rewrite Rabs_pos_eq by lra. repeat split; lra.
  - intros o [<-|[<-|[]]]; unfold upright, scaledWidth, scaledHeight; simpl;
      rewrite Rabs_pos_eq by lra; repeat split; lra.
  - exists (sampleObject "D" 150 20). split; [simpl; auto|]. split; [discriminate|].
    unfold within, scaledWidth, scaledHeight. simpl.
    rewrite Rabs_pos_eq by lra. repeat split; lra.
Defined.

(** ** History: the objects shown *)

Lemma historyCurrent_invariant st : historyCurrent st -> historyInvariant st.
Proof.
  unfold historyCurrent, historyInvariant. intros H.
  apply lookup_lt_Some in H. lia.
Qed.

Lemma saveHistory_current newObjects st : historyCurrent (saveHistory newObjects st).
Proof.
  unfold historyCurrent. rewrite saveHistory_step, saveHistory_objects, saveHistory_history.
  rewrite length_app. simpl.
  replace (length (take (App.historyStep st + 1) (App.history st)) + 1 - 1)%nat
    with (length (take (App.historyStep st + 1) (App.history st)) + 0)%nat by lia.
  rewrite lookup_app_r by lia.
  replace (length (take (App.historyStep st + 1) (App.history st)) + 0
           - length (take (App.historyStep st + 1) (App.history st)))%nat
    with 0%nat by lia.
  reflexivity.
Qed.

Lemma undo_current st : historyCurrent st -> historyCurrent (undo st).
Proof.
  intros Hc. pose proof (historyCurrent_invariant st Hc) as Hi.
  unfold undo. destruct (0 <? App.historyStep st)%nat eqn:E; [|exact Hc].
  apply Nat.ltb_lt in E. unfold historyCurrent. simpl. unfold historyAt.
  destruct (lookup_lt_is_Some_2 (App.history st) (App.historyStep st - 1)) as [v Hv].
  { unfold historyInvariant in Hi. lia. }
  now rewrite Hv.
Qed.

Lemma redo_current st : historyCurrent st -> historyCurrent (redo st).
Proof.
  intros Hc. unfold redo.
  destruct (App.historyStep st <? length (App.history st) - 1)%nat eqn:E; [|exact Hc].
  apply Nat.ltb_lt in E. unfold historyCurrent. simpl. unfold historyAt.
  destruct (lookup_lt_is_Some_2 (App.history st) (App.historyStep st + 1)) as [v Hv];
    [lia|].
  now rewrite Hv.
Qed.

(** X6: after any sequence of commits, undos and redos from the initial
    state, the objects shown are the history entry under the cursor; a
    commit alone establishes this from any state. *)
Theorem history_shows_current_entry (ops : list HistoryOp) :
  historyCurrent (runOps ops initialApp)
  /\ (forall st newObjects, historyCurrent (saveHistory newObjects st))
  /\ (forall st, historyCurrent st -> historyCurrent (undo st))
  /\ (forall st, historyCurrent st -> historyCurrent (redo st)).
Proof.
  split; [|split; [intros; apply saveHistory_current
                  |split; [apply undo_current | apply redo_current]]].
  assert (H : forall st, historyCurrent st -> historyCurrent (runOps ops st)).
  { induction ops as [|op ops IH]; intros st Hc; simpl; [exact Hc|].
    apply IH. destruct op; simpl.
    - apply saveHistory_current.
    - now apply undo_current.
    - now apply redo_current. }
  apply H. reflexivity.
Qed.

Lemma history_shows_current_entry_witness :
  historyCurrent (undo (saveHistory [objA] initialApp)).
Proof.
  destruct (history_shows_current_entry []) as (_ & Hs & Hu & _).
  apply Hu, Hs.
Defined.

Lemma undo_saveHistory newObjects st :
  historyCurrent st ->
  App.objects (undo (saveHistory newObjects st)) = App.objects st
  /\ App.historyStep (undo (saveHistory newObjects st)) = App.historyStep st
  /\ App.history (undo (saveHistory newObjects st))
     = take (App.historyStep st + 1) (App.history st) ++ [newObjects].
Proof.
  intros Hc. pose proof (historyCurrent_invariant st Hc) as Hi.
  unfold historyInvariant in Hi.
  assert (Hlen : length (take (App.historyStep st + 1) (App.history st))
                 = (App.historyStep st + 1)%nat)
    by (rewrite length_take; lia).
  unfold undo. rewrite saveHistory_step, saveHistory_history, length_app, Hlen.
  cbn [length].
  replace (App.historyStep st + 1 + 1 - 1)%nat with (S (App.historyStep st)) by lia.
  cbn [Nat.ltb Nat.leb]. simpl.
  replace (App.historyStep st - 0)%nat with (App.historyStep st) by lia.
  split; [|split; [reflexivity|reflexivity]].
  unfold historyAt. rewrite lookup_app_l by lia.
  rewrite lookup_take_lt by lia. unfold historyCurrent in Hc. now rewrite Hc.
Qed.

(** X7: undo takes back the last commit: from a state whose objects are
    the entry under the cursor, committing and then undoing shows the
    objects from before the commit, and a redo after that shows the
    committed ones again. *)
Theorem undo_takes_back_commit (newObjects : list DesignObject.t) (st : App.t) :
  historyCurrent st ->
  App.objects (undo (saveHistory newObjects st)) = App.objects st
  /\ App.objects (redo (undo (saveHistory newObjects st))) = newObjects
  /\ App.history (redo (undo (saveHistory newObjects st)))
     = App.history (saveHistory newObjects st)
  /\ App.historyStep (redo (undo (saveHistory newObjects st)))
     = App.historyStep (saveHistory newObjects st).
Proof.
  intros Hc. pose proof (historyCurrent_invariant st Hc) as Hi.
  unfold historyInvariant in Hi.
  destruct (undo_saveHistory newObjects st Hc) as (Ho & Hs & Hh).
  split; [exact Ho|].
  assert (Hlen : length (take (App.historyStep st + 1) (App.history st))
                 = (App.historyStep st + 1)%nat)
    by (rewrite length_take; lia).
  set (U := undo (saveHistory newObjects st)) in *.
  unfold redo. rewrite Hs, Hh, length_app, Hlen. cbn [length].
  assert (E : (App.historyStep st <? App.historyStep st + 1 + 1 - 1)%nat = true)
    by (apply Nat.ltb_lt; lia).
  rewrite E.
  cbn [App.objects App.history App.historyStep setSelectedIds setObjects setHistoryStep].
  rewrite Hh, saveHistory_step, saveHistory_history, length_app, Hlen. cbn [length].
  split; [|split; [reflexivity|lia]].
  unfold historyAt. rewrite lookup_app_r by lia. rewrite Hlen.
  replace (App.historyStep st + 1 - (App.historyStep st + 1))%nat with 0%nat by lia.
  reflexivity.
Qed.

Lemma undo_takes_back_commit_witness :
  App.objects (undo (saveHistory [objA; objB] (saveHistory [objA] initialApp))) = [objA].
Proof.
  refine (proj1 (undo_takes_back_commit [objA; objB] (saveHistory [objA] initialApp) _)).
  reflexivity.
Defined.

(** ** Adding and deleting objects *)

Lemma existsb_id_true (objects : list DesignObject.t) id :
  existsb (fun o => bool_decide (DesignObject.id o = id)) objects = true
  <-> In id (objectIds objects).
Proof.
  rewrite existsb_exists. unfold objectIds. rewrite in_map_iff. split.
  - intros (o & Hin & Hid). apply bool_decide_eq_true in Hid. eauto.
  - intros (o & Hid & Hin). exists o. split; [exact Hin|].
    now apply bool_decide_eq_true.
Qed.

Lemma addObject_fresh (obj : DesignObject.t) (ed : Editor.t) :
  ~ In (DesignObject.id obj) (objectIds (App.objects (Editor.app ed))) ->
  App.objects (Editor.app (addObject obj ed)) = App.objects (Editor.app ed) ++ [obj]
  /\ App.selectedIds (Editor.app (addObject obj ed)) = [DesignObject.id obj].
Proof.
  intros Hn. unfold addObject.
  destruct (existsb _ (App.objects (Editor.app ed))) eqn:E.
  - apply existsb_id_true in E. contradiction.
  - simpl. auto.
Qed.

(** X8: [addObject] does nothing when an object with the same id is
    already on the sheet; otherwise it appends the object, selects it
    alone, switches to the select tool and commits once.  Either way the
    ids on the sheet stay pairwise distinct. *)
Theorem addObject_spec (obj : DesignObject.t) (ed : Editor.t) :
  let st := Editor.app ed in
  let st' := Editor.app (addObject obj ed) in
  (In (DesignObject.id obj) (objectIds (App.objects st)) -> addObject obj ed = ed)
  /\ (~ In (DesignObject.id obj) (objectIds (App.objects st)) ->
      App.objects st' = App.objects st ++ [obj]
      /\ App.selectedIds st' = [DesignObject.id obj]
      /\ Editor.activeTool (addObject obj ed) = Select
      /\ App.history st'
         = take (App.historyStep st + 1) (App.history st) ++ [App.objects st ++ [obj]])
  /\ (NoDup (objectIds (App.objects st)) -> NoDup (objectIds (App.objects st'))).
Proof.
  intros st st'. unfold st', addObject. fold st.
  destruct (existsb _ (App.objects st)) eqn:E.
  - apply existsb_id_true in E. split; [reflexivity|]. split; [tauto|]. auto.
  - assert (Hn : ~ In (DesignObject.id obj) (objectIds (App.objects st))).
    { intros H. apply existsb_id_true in H. congruence. }
    split; [tauto|]. split.
    + intros _. simpl. auto.
    + intros Hnd. simpl. unfold objectIds. rewrite map_app. simpl.
      apply NoDup_app. split; [exact Hnd|]. split.
      * intros x Hx Hk. apply list_elem_of_In in Hk. destruct Hk as [Hk|[]].
        subst x. apply Hn. apply list_elem_of_In, Hx.
      * apply NoDup_singleton.
Qed.

Lemma addObject_spec_witness :
  App.objects (Editor.app (addObject objA initialEditor)) = [] ++ [objA].
Proof.
  destruct (addObject_spec objA initialEditor) as (_ & H & _).
  destruct H as (H & _); [simpl; tauto|]. exact H.
Defined.

Lemma NoDup_ids_filter (f : DesignObject.t -> bool) objects :
  NoDup (objectIds objects) -> NoDup (objectIds (List.filter f objects)).
Proof.
  unfold objectIds. induction objects as [|o objects IH]; simpl; intros Hnd.
  - constructor.
  - apply NoDup_cons in Hnd as [Hni Hnd]. destruct (f o); simpl; [|now apply IH].
    apply NoDup_cons. split; [|now apply IH].
    intros Hin. apply Hni. apply list_elem_of_In in Hin.
    apply in_map_iff in Hin as (u & Hu & Hf). apply filter_In in Hf as [Hf _].
    apply list_elem_of_In, in_map_iff. eauto.
Qed.

(** X9: [handleDelete] does nothing, and commits nothing, when nothing is
    selected; otherwise it removes exactly the objects whose id is
    selected, keeps the others in order, clears the selection and commits
    once, so that one undo brings the deleted objects back. *)
Theorem handleDelete_spec (st : App.t) :
  (App.selectedIds st = [] -> handleDelete st = st)
  /\ (App.selectedIds st <> [] ->
      App.objects (handleDelete st)
      = List.filter (fun o => negb (includes (App.selectedIds st) (DesignObject.id o)))
                    (App.objects st)
      /\ (forall o, In o (App.objects (handleDelete st)) <->
                    In o (App.objects st)
                    /\ ~ In (DesignObject.id o) (App.selectedIds st))
      /\ App.selectedIds (handleDelete st) = []
      /\ App.history (handleDelete st)
         = take (App.historyStep st + 1) (App.history st)
           ++ [App.objects (handleDelete st)]
      /\ (NoDup (objectIds (App.objects st)) ->
          NoDup (objectIds (App.objects (handleDelete st))))
      /\ (historyCurrent st -> App.objects (undo (handleDelete st)) = App.objects st)).
Proof.
  unfold handleDelete. split.
  - intros ->. reflexivity.
  - intros Hne. destruct (App.selectedIds st) as [|s sel] eqn:Es; [congruence|].
    cbn [length Nat.ltb Nat.leb].
    cbn [App.objects App.selectedIds App.history setSelectedIds].
    rewrite saveHistory_objects, saveHistory_history.
    split; [reflexivity|]. split.
    { intros o. rewrite filter_In, negb_true_iff, includes_false. tauto. }
    split; [reflexivity|]. split; [reflexivity|]. split.
    { apply NoDup_ids_filter. }
    intros Hc.
    set (newObjects := List.filter _ (App.objects st)).
    destruct (undo_saveHistory newObjects st Hc) as (Ho & _).
    unfold undo in *.
    cbn [App.historyStep App.history App.objects setSelectedIds setObjects
         setHistoryStep] in *.
    destruct (0 <? App.historyStep (saveHistory newObjects st))%nat; exact Ho.
Qed.

Lemma handleDelete_spec_witness :
  App.objects (handleDelete marqueeApp) = [objA; objB].
Proof.
  destruct (handleDelete_spec marqueeApp) as (_ & H).
  destruct H as (H & _); [discriminate|]. rewrite H. reflexivity.
Defined.

(** X10: [deleteSingle id] removes every object with that id and no
    other, takes [id] (and nothing else) out of the selection, and
    commits once, also when no object had that id. *)
Theorem deleteSingle_spec (id : string) (st : App.t) :
  (forall o, In o (App.objects (deleteSingle id st)) <->
             In o (App.objects st) /\ DesignObject.id o <> id)
  /\ (forall s, In s (App.selectedIds (deleteSingle id st)) <->
                In s (App.selectedIds st) /\ s <> id)
  /\ App.history (deleteSingle id st)
     = take (App.historyStep st + 1) (App.history st)
       ++ [App.objects (deleteSingle id st)]
  /\ (~ In id (objectIds (App.objects st)) ->
      App.objects (deleteSingle id st) = App.objects st)
  /\ (NoDup (objectIds (App.objects st)) ->
      NoDup (objectIds (App.objects (deleteSingle id st)))).
Proof.
  unfold deleteSingle.
  cbn [App.objects App.selectedIds App.history setSelectedIds].
  rewrite saveHistory_objects, saveHistory_history.
  split; [|split; [|split; [reflexivity|split]]].
  - intros o. rewrite filter_In, negb_true_iff, bool_decide_eq_false. tauto.
  - intros s. rewrite filter_In, negb_true_iff, bool_decide_eq_false. tauto.
  - intros Hn. apply forallb_filter_id. apply forallb_forall. intros o Ho.
    apply negb_true_iff, bool_decide_eq_false. intros Hid. apply Hn.
    unfold objectIds. apply in_map_iff. eauto.
  - apply NoDup_ids_filter.
Qed.

Lemma deleteSingle_spec_witness :
  App.objects (deleteSingle "Z" marqueeApp) = App.objects marqueeApp.
Proof.
  destruct (deleteSingle_spec "Z" marqueeApp) as (_ & _ & _ & H & _).
  apply H. simpl. intros [H1|[H1|[H1|[]]]]; discriminate.
Defined.

(** ** Duplicating *)

Lemma duplicate_fold gen sel count objects : forall acc,
  fold_left (duplicateStep gen sel count) objects acc
  = (fst acc ++ copiesFrom gen count (length (fst acc))
                  (List.filter (fun o => includes sel (DesignObject.id o)) objects),
     snd acc ++ objectIds (copiesFrom gen count (length (fst acc))
                  (List.filter (fun o => includes sel (DesignObject.id o)) objects))).
Proof.
  induction objects as [|o objects IH]; intros [copies ids]; cbn [fold_left List.filter].
  - simpl. now rewrite !app_nil_r.
  - rewrite IH. unfold duplicateStep at 1 2 3 4. cbn [fst snd].
    destruct (includes sel (DesignObject.id o)); cbn [fst snd]; [|reflexivity].
    rewrite length_app. cbn [length copiesFrom objectIds map].
    replace (length copies + 1)%nat with (S (length copies)) by lia.
    rewrite <- !app_assoc. reflexivity.
Qed.

Lemma copiesFrom_lookup gen count picked : forall k i o,
  picked !! i = Some o ->
  copiesFrom gen count k picked !! i
  = Some (duplicateOf count (gen (k + i)%nat) (k + i) o).
Proof.
  induction picked as [|p picked IH]; intros k i o Hi; [discriminate|].
  destruct i as [|i]; simpl in *.
  - injection Hi as ->. now rewrite Nat.add_0_r.
  - rewrite (IH (S k) i o Hi).
    replace (S k + i)%nat with (k + S i)%nat by lia. reflexivity.
Qed.

Lemma copiesFrom_length gen count picked : forall k,
  length (copiesFrom gen count k picked) = length picked.
Proof. induction picked as [|p picked IH]; intros k; simpl; [reflexivity|]. now rewrite IH. Qed.

Lemma copiesFrom_ids gen count picked : forall k,
  objectIds (copiesFrom gen count k picked) = map gen (seq k (length picked)).
Proof.
  induction picked as [|p picked IH]; intros k; simpl; [reflexivity|].
  f_equal. apply IH.
Qed.

(** X11: [handleDuplicate] changes nothing when no object on the sheet is
    selected.  Otherwise it keeps the objects and appends one copy of
    every selected object in list order: the i-th copy carries the i-th
    generated id, has [x] and [y] 30 units larger than its original,
    [zIndex = objects.length + i], and every other field as the original.
    It selects exactly the copies and commits once.  When the generated
    ids are new and pairwise distinct, the ids on the sheet stay pairwise
    distinct. *)
Theorem handleDuplicate_spec (gen : nat -> string) (st : App.t) :
  let picked := pickedObjects st in
  let st' := handleDuplicate gen st in
  (picked = [] -> st' = st)
  /\ (picked <> [] ->
      (exists copies,
          App.objects st' = App.objects st ++ copies
          /\ length copies = length picked
          /\ (forall (i : nat) o, picked !! i = Some o ->
                copies !! i
                = Some (DesignObject.mk (gen i) (DesignObject.type o)
                          (DesignObject.x o + 30) (DesignObject.y o + 30)
                          (DesignObject.width o) (DesignObject.height o)
                          (DesignObject.rotation o) (DesignObject.scaleX o)
                          (DesignObject.scaleY o) (DesignObject.src o)
                          (DesignObject.highResSrc o)
                          (INR (length (App.objects st) + i)))))
      /\ (forall (i : nat) o, picked !! i = Some o ->
            App.objects st' !! (length (App.objects st) + i)%nat
            = Some (DesignObject.mk (gen i) (DesignObject.type o)
                      (DesignObject.x o + 30) (DesignObject.y o + 30)
                      (DesignObject.width o) (DesignObject.height o)
                      (DesignObject.rotation o) (DesignObject.scaleX o)
                      (DesignObject.scaleY o) (DesignObject.src o)
                      (DesignObject.highResSrc o)
                      (INR (length (App.objects st) + i))))
      /\ (forall (i : nat) o, App.objects st !! i = Some o ->
            App.objects st' !! i = Some o)
      /\ length (App.objects st') = (length (App.objects st) + length picked)%nat
      /\ App.selectedIds st' = map gen (seq 0 (length picked))
      /\ App.history st'
         = take (App.historyStep st + 1) (App.history st) ++ [App.objects st']
      /\ App.historyStep st' = length (take (App.historyStep st + 1) (App.history st))
      /\ (NoDup (objectIds (App.objects st)) ->
          NoDup (map gen (seq 0 (length picked))) ->
          (forall i, (i < length picked)%nat ->
                     ~ In (gen i) (objectIds (App.objects st))) ->
          NoDup (objectIds (App.objects st')))).
Proof.
  intros picked st'. unfold st', handleDuplicate.
  rewrite duplicate_fold. cbn [fst snd length app]. fold (pickedObjects st). fold picked.
  set (copies := copiesFrom gen (length (App.objects st)) 0 picked).
  assert (Hlen : length copies = length picked) by apply copiesFrom_length.
  assert (Hcopy : forall (i : nat) o, picked !! i = Some o ->
            copies !! i
            = Some (DesignObject.mk (gen i) (DesignObject.type o)
                      (DesignObject.x o + 30) (DesignObject.y o + 30)
                      (DesignObject.width o) (DesignObject.height o)
                      (DesignObject.rotation o) (DesignObject.scaleX o)
                      (DesignObject.scaleY o) (DesignObject.src o)
                      (DesignObject.highResSrc o)
                      (INR (length (App.objects st) + i)))).
  { intros i o Hi. unfold copies. now rewrite (copiesFrom_lookup _ _ _ 0 i o Hi). }
  split.
  - intros Hp. destruct (length (App.selectedIds st) =? 0)%nat; [reflexivity|].
    unfold copies. rewrite Hp. reflexivity.
  - intros Hp.
    assert (Hsel : (length (App.selectedIds st) =? 0)%nat = false).
    { apply Nat.eqb_neq. intros H0. apply Hp. unfold picked, pickedObjects.
      destruct (App.selectedIds st); [|discriminate].
      clear. induction (App.objects st) as [|o l IH]; [reflexivity|]. simpl. exact IH. }
    rewrite Hsel.
    assert (Hpos : (0 <? length copies)%nat = true).
    { apply Nat.ltb_lt. rewrite Hlen. destruct picked; [congruence|simpl; lia]. }
    rewrite Hpos.
    cbn [App.objects App.selectedIds App.history App.historyStep setSelectedIds].
    rewrite saveHistory_objects, saveHistory_history, saveHistory_step,
      saveHistory_history.
    split; [exists copies; auto|].
    split.
    { intros i o Hi. rewrite lookup_app_r by lia.
      replace (length (App.objects st) + i - length (App.objects st))%nat with i by lia.
      now apply Hcopy. }
    split; [intros i o Hi; now apply lookup_app_l_Some|].
    split; [rewrite length_app; lia|].
    split; [apply copiesFrom_ids|]. split; [reflexivity|].
    split; [rewrite length_app; simpl; lia|].
    intros Hnd Hgen Hfresh. unfold objectIds. rewrite map_app.
    fold (objectIds (App.objects st)). fold (objectIds copies).
    unfold copies. rewrite copiesFrom_ids.
    apply NoDup_app. split; [exact Hnd|]. split; [|exact Hgen].
    intros x Hx Hk. apply list_elem_of_In in Hx, Hk.
    apply in_map_iff in Hk as (i & <- & Hi). apply in_seq in Hi.
    apply (Hfresh i); [lia|exact Hx].
Qed.

Lemma handleDuplicate_spec_witness :
  App.objects
    (handleDuplicate (fun k => if (k =? 0)%nat then "N0" else "N1") marqueeApp)
    !! 3%nat
  = Some (DesignObject.mk "N0" "image" (50 + 30) (300 + 30) 96 48 0 1 1
            "thumb.png" (Some "full.png"%string) (INR (3 + 0)))
  /\ App.selectedIds
       (handleDuplicate (fun k => if (k =? 0)%nat then "N0" else "N1") marqueeApp)
     = ["N0"%string].
Proof.
  destruct (handleDuplicate_spec (fun k => if (k =? 0)%nat then "N0" else "N1")
              marqueeApp) as (_ & H).
  destruct H as (_ & Hat & _ & _ & Hsel & _); [discriminate|].
  split; [|exact Hsel]. exact (Hat 0%nat objC eq_refl).
Defined.

(** ** Patching objects *)

Lemma getUpdatedObjects_ids objects id attrs :
  Patch.id attrs = None ->
  objectIds (getUpdatedObjects objects id attrs) = objectIds objects.
Proof.
  intros Hid. unfold objectIds, getUpdatedObjects. rewrite map_map.
  apply map_ext. intros o. destruct (bool_decide (DesignObject.id o = id)); [|reflexivity].
  unfold applyPatch. simpl. now rewrite Hid.
Qed.

Lemma getUpdatedObjects_lookup objects id attrs i :
  getUpdatedObjects objects id attrs !! i
  = (fun o => if bool_decide (DesignObject.id o = id) then applyPatch o attrs else o)
      <$> objects !! i.
Proof. unfold getUpdatedObjects. apply list_lookup_fmap. Qed.

Lemma findObject_getUpdatedObjects objects id attrs :
  Patch.id attrs = None ->
  findObject (getUpdatedObjects objects id attrs) id
  = (fun o => applyPatch o attrs) <$> findObject objects id.
Proof.
  intros Hid. unfold findObject, getUpdatedObjects.
  induction objects as [|o objects IH]; [reflexivity|]. cbn [map find].
  destruct (bool_decide (DesignObject.id o = id)) eqn:E.
  - assert (E' : bool_decide (DesignObject.id (applyPatch o attrs) = id) = true).
    { unfold applyPatch. simpl. rewrite Hid. exact E. }
    rewrite E'. reflexivity.
  - rewrite E. exact IH.
Qed.

(** X12: [onTransformEnd] rewrites position, rotation and scale of the
    objects carrying the event's id from the live node and nothing else:
    every object keeps its place in the list, its id, type, width,
    height, sources and zIndex; objects with another id are untouched;
    the result is committed once; the anchors left by
    [onTransformStart] stay in the anchor map. *)
Theorem onTransformEnd_spec (e : TransformEvent.t) (st : App.t) :
  let st' := onTransformEnd e st in
  length (App.objects st') = length (App.objects st)
  /\ objectIds (App.objects st') = objectIds (App.objects st)
  /\ (forall i o, App.objects st !! i = Some o ->
        DesignObject.id o <> TransformEvent.id e ->
        App.objects st' !! i = Some o)
  /\ (forall i o, App.objects st !! i = Some o ->
        DesignObject.id o = TransformEvent.id e ->
        App.objects st' !! i
        = Some (DesignObject.mk (DesignObject.id o) (DesignObject.type o)
                  (TransformEvent.x e) (TransformEvent.y e)
                  (DesignObject.width o) (DesignObject.height o)
                  (TransformEvent.rotation e)
                  (TransformEvent.scaleX e) (TransformEvent.scaleY e)
                  (DesignObject.src o) (DesignObject.highResSrc o)
                  (DesignObject.zIndex o)))
  /\ App.history st'
     = take (App.historyStep st + 1) (App.history st) ++ [App.objects st']
  /\ App.dragStartAttrs st' = App.dragStartAttrs st
  /\ App.isDragging st' = false.
Proof.
  intros st'. unfold st', onTransformEnd.
  cbn [App.objects App.history App.dragStartAttrs App.isDragging setIsDragging].
  rewrite saveHistory_objects, saveHistory_history.
  split; [unfold getUpdatedObjects; apply length_map|].
  split; [apply getUpdatedObjects_ids; reflexivity|].
  split; [|split; [|repeat split]].
  - intros i o Hi Hid. rewrite getUpdatedObjects_lookup, Hi. simpl.
    now rewrite bool_decide_eq_false_2.
  - intros i o Hi Hid. rewrite getUpdatedObjects_lookup, Hi. simpl.
    now rewrite bool_decide_eq_true_2.
Qed.

Lemma onTransformEnd_spec_witness :
  App.objects (onTransformEnd (TransformEvent.mk "A" 1 2 45 2 2) marqueeApp) !! 1%nat
  = Some objB.
Proof.
  destruct (onTransformEnd_spec (TransformEvent.mk "A" 1 2 45 2 2) marqueeApp)
    as (_ & _ & H & _).
  apply H; [reflexivity|discriminate].
Defined.

(** ** The size inputs *)

Lemma selectedObject_Some st so :
  selectedObject st = Some so ->
  App.selectedIds st = [DesignObject.id so] /\ In so (App.objects st).
Proof.
  unfold selectedObject. destruct (App.selectedIds st) as [|id [|]]; try discriminate.
  intros H. apply findObject_Some in H as [Hin <-]. auto.
Qed.

(** X13: typing a positive number [val] into the width input rescales
    the selected object so that the input shows [val] again, keeps the
    ratio of its two scale factors, changes no other object and commits
    nothing (the commit comes with [onCommit]); anything that is not a
    number greater than 0 is ignored.  (Object of non-zero width and
    non-zero [scaleX].) *)
Theorem widthInputChange_spec (parsed : option R) (st : App.t) (so : DesignObject.t) :
  selectedObject st = Some so ->
  DesignObject.width so <> 0 -> DesignObject.scaleX so <> 0 ->
  ((forall val, parsed = Some val -> val <= 0) -> widthInputChange parsed st = st)
  /\ (forall val, parsed = Some val -> 0 < val ->
      let st' := widthInputChange parsed st in
      exists so',
        selectedObject st' = Some so'
        /\ shownWidth so' = val
        /\ DesignObject.scaleY so' * DesignObject.scaleX so
           = DesignObject.scaleY so * DesignObject.scaleX so'
        /\ shownHeight so' * shownWidth so = shownHeight so * shownWidth so'
        /\ objectIds (App.objects st') = objectIds (App.objects st)
        /\ (forall i o, App.objects st !! i = Some o ->
              DesignObject.id o <> DesignObject.id so ->
              App.objects st' !! i = Some o)
        /\ App.history st' = App.history st
        /\ App.historyStep st' = App.historyStep st
        /\ historyCurrent (sizeInputCommit st')
        /\ App.objects (sizeInputCommit st') = App.objects st').
Proof.
  intros Hso Hw Hsx. split.
  - intros Hbad. unfold widthInputChange. destruct parsed as [val|]; [|reflexivity].
    rewrite Hso. unfold gtb. specialize (Hbad val eq_refl).
    destruct (ltb 0 val) eqn:E; [|reflexivity]. apply ltb_true_iff in E. lra.
  - intros val -> Hpos st'. unfold st', widthInputChange. rewrite Hso.
    unfold gtb. rewrite (proj2 (ltb_true_iff 0 val) Hpos).
    set (sx := val * PPI / DesignObject.width so).
    set (sy := sx * (DesignObject.scaleY so / DesignObject.scaleX so)).
    destruct (selectedObject_Some st so Hso) as [Hsel Hin].
    exists (applyPatch so (scalePatch sx sy)).
    split.
    { unfold selectedObject. cbn [App.selectedIds App.objects setObjects].
      rewrite Hsel, findObject_getUpdatedObjects by reflexivity.
      unfold selectedObject in Hso. rewrite Hsel in Hso. now rewrite Hso. }
    cbn [App.objects App.history App.historyStep setObjects].
    unfold shownWidth, shownHeight, applyPatch, scalePatch, PPI in *. simpl.
    split; [unfold sx; field; exact Hw|].
    split; [unfold sy; field; exact Hsx|].
    split; [unfold sy; field; exact Hsx|].
    split; [apply getUpdatedObjects_ids; reflexivity|].
    split.
    { intros i o Hi Hid. rewrite getUpdatedObjects_lookup, Hi. simpl.
      now rewrite bool_decide_eq_false_2. }
    split; [reflexivity|]. split; [reflexivity|].
    split; [apply saveHistory_current|reflexivity].
Qed.

Lemma widthInputChange_spec_witness :
  exists so',
    selectedObject
      (widthInputChange (Some 2) (setSelectedIds ["A"%string] marqueeApp)) = Some so'
    /\ shownWidth so' = 2.
Proof.
  destruct (widthInputChange_spec (Some 2) (setSelectedIds ["A"%string] marqueeApp) objA)
    as (_ & H).
  - reflexivity.
  - simpl. lra.
  - simpl. lra.
  - destruct (H 2 eq_refl) as (so' & H1 & H2 & _); [lra|]. eauto.
Defined.

(** ** Placing an uploaded file *)

Lemma mod10_bounds (n : nat) : 0 <= INR (n mod 10) <= 9.
Proof.
  assert (H : (n mod 10 < 10)%nat) by (apply Nat.mod_upper_bound; lia).
  split; [apply pos_INR|].
  replace 9 with (INR 9) by (simpl; lra). apply le_INR. lia.
Qed.

(** X14: [addToCanvas] places nothing while the file is still uploading.
    Otherwise, for a new id, the placed object is the last on the sheet,
    is scaled uniformly, is shown at most 10 inches (960 units) wide, at
    its own width when that is at most 10 inches, and sits on the
    diagonal between (50, 50) and (230, 230). *)
Theorem addToCanvas_spec (newId : string) (file : UploadedFile.t) (ed : Editor.t) :
  (UploadedFile.isUploading file = true -> addToCanvas newId file ed = ed)
  /\ (UploadedFile.isUploading file = false ->
      ~ In newId (objectIds (App.objects (Editor.app ed))) ->
      0 < UploadedFile.width file ->
      exists o,
        App.objects (Editor.app (addToCanvas newId file ed))
        = App.objects (Editor.app ed) ++ [o]
        /\ DesignObject.id o = newId
        /\ DesignObject.width o = UploadedFile.width file
        /\ DesignObject.height o = UploadedFile.height file
        /\ DesignObject.scaleX o = DesignObject.scaleY o
        /\ 0 < DesignObject.scaleX o <= 1
        /\ DesignObject.width o * DesignObject.scaleX o <= 10 * PPI
        /\ (UploadedFile.width file <= 10 * PPI -> DesignObject.scaleX o = 1)
        /\ (10 * PPI < UploadedFile.width file ->
            DesignObject.width o * DesignObject.scaleX o = 10 * PPI)
        /\ DesignObject.x o = DesignObject.y o
        /\ 50 <= DesignObject.x o <= 230
        /\ DesignObject.rotation o = 0
        /\ App.selectedIds (Editor.app (addToCanvas newId file ed)) = [newId]).
Proof.
  split.
  - intros Hup. unfold addToCanvas. now rewrite Hup.
  - intros Hup Hfresh Hw. unfold addToCanvas. rewrite Hup.
    set (o := DesignObject.mk newId _ _ _ _ _ _ _ _ _ _ _).
    destruct (addObject_fresh o ed Hfresh) as (Hobjs & Hsel).
    exists o. split; [exact Hobjs|]. split; [reflexivity|].
    split; [reflexivity|]. split; [reflexivity|]. split; [reflexivity|].
    pose proof (mod10_bounds (length (App.objects (Editor.app ed)))) as Hm.
    assert (Hnum : 0 < DesignObject.scaleX o <= 1
                   /\ DesignObject.width o * DesignObject.scaleX o <= 10 * PPI
                   /\ (UploadedFile.width file <= 10 * PPI -> DesignObject.scaleX o = 1)
                   /\ (10 * PPI < UploadedFile.width file ->
                       DesignObject.width o * DesignObject.scaleX o = 10 * PPI)).
    { unfold o, gtb, PPI. cbn [DesignObject.scaleX DesignObject.width].
      destruct (ltb (10 * 96) (UploadedFile.width file)) eqn:E.
      - apply ltb_true_iff in E.
        assert (Hs : 10 * 96 / UploadedFile.width file * UploadedFile.width file
                     = 10 * 96) by (field; lra).
        assert (Hpos : 0 < 10 * 96 / UploadedFile.width file)
          by (apply Rdiv_lt_0_compat; lra).
        assert (Hle : 10 * 96 / UploadedFile.width file <= 1).
        { apply Rmult_le_reg_r with (UploadedFile.width file); [exact Hw|]. lra. }
        split; [lra|]. split; [rewrite Rmult_comm; lra|].
        split; [intros Hc; lra|]. intros _. rewrite Rmult_comm. exact Hs.
      - apply ltb_false_iff in E.
        split; [lra|]. split; [lra|]. split; [reflexivity|]. intros Hc. lra. }
    destruct Hnum as (N1 & N2 & N3 & N4).
    split; [exact N1|]. split; [exact N2|]. split; [exact N3|]. split; [exact N4|].
    split; [reflexivity|]. split; [unfold o; cbn [DesignObject.x]; lra|].
    split; [reflexivity|exact Hsel].
Qed.

Lemma addToCanvas_spec_witness :
  exists o,
    App.objects (Editor.app (addToCanvas "N"
       (UploadedFile.mk "f" "t.png" None 1920 1080 "big.png" false) initialEditor))
    = [] ++ [o]
    /\ DesignObject.width o * DesignObject.scaleX o <= 10 * PPI.
Proof.
  destruct (addToCanvas_spec "N"
              (UploadedFile.mk "f" "t.png" None 1920 1080 "big.png" false)
              initialEditor) as (_ & H).
  destruct H as (o & H1 & _ & _ & _ & _ & _ & H2 & _).
  - reflexivity.
  - simpl. tauto.
  - simpl. lra.
  - exists o. auto.
Defined.

(** ** Clicking on the stage *)

(** X15: with the select tool (no space bar, no middle button), a click
    on an object with a modifier key toggles that object in the
    selection and leaves the membership of every other id as it was; a
    plain click on an unselected object selects it alone; a plain click
    on a selected object keeps the selection (so that a group can be
    dragged).  In hand mode, and on a transformer handle, a press never
    changes the selection.  Objects and history are never touched. *)
Theorem handleStageMouseDown_selection (e : StageMouseEvent.t) (ed : Editor.t)
  (clickedId : string) :
  let sel := App.selectedIds (Editor.app ed) in
  let sel' := App.selectedIds (Editor.app (handleStageMouseDown e ed)) in
  (Editor.activeTool ed = Select -> Editor.isSpacePressed ed = false ->
   StageMouseEvent.button e <> 1%nat ->
   StageMouseEvent.target e = OnNode (Some clickedId) ->
   (isMultiSelect e = true ->
    (In clickedId sel' <-> ~ In clickedId sel)
    /\ (forall id, id <> clickedId -> (In id sel' <-> In id sel)))
   /\ (isMultiSelect e = false ->
       (~ In clickedId sel -> sel' = [clickedId])
       /\ (In clickedId sel -> sel' = sel)))
  /\ ((Editor.activeTool ed = Hand \/ Editor.isSpacePressed ed = true
       \/ StageMouseEvent.button e = 1%nat
       \/ StageMouseEvent.target e = OnTransformer) -> sel' = sel)
  /\ App.objects (Editor.app (handleStageMouseDown e ed)) = App.objects (Editor.app ed)
  /\ App.history (Editor.app (handleStageMouseDown e ed)) = App.history (Editor.app ed)
  /\ App.historyStep (Editor.app (handleStageMouseDown e ed))
     = App.historyStep (Editor.app ed).
Proof.
  intros sel sel'. split; [|split].
  - intros Htool Hspace Hbtn Htarget. unfold sel', handleStageMouseDown.
    rewrite Htarget, Htool, Hspace.
    rewrite (proj2 (Nat.eqb_neq _ _) Hbtn). cbn [isSelectTool negb orb].
    fold sel. split.
    + intros Hm. rewrite Hm. destruct (includes sel clickedId) eqn:E.
      * apply includes_true in E. cbn [onApp Editor.app App.selectedIds setSelectedIds].
        split.
        -- rewrite filter_In, negb_true_iff, bool_decide_eq_false. tauto.
        -- intros id Hid. rewrite filter_In, negb_true_iff, bool_decide_eq_false. tauto.
      * apply includes_false in E. cbn [onApp Editor.app App.selectedIds setSelectedIds].
        split.
        -- rewrite in_app_iff. simpl. tauto.
        -- intros id Hid. rewrite in_app_iff. simpl. split; [|tauto].
           intros [H|[H|[]]]; [exact H|congruence].
    + intros Hm. rewrite Hm. destruct (includes sel clickedId) eqn:E.
      * apply includes_true in E. split; [tauto|reflexivity].
      * apply includes_false in E. split; [reflexivity|tauto].
  - intros Hhand. unfold sel', handleStageMouseDown.
    destruct (StageMouseEvent.target e) eqn:Et; [reflexivity| |].
    + destruct Hhand as [H|[H|[H|H]]]; try discriminate.
      * rewrite H. reflexivity.
      * rewrite H. rewrite orb_true_r. reflexivity.
      * rewrite H. rewrite !orb_true_r. reflexivity.
    + destruct Hhand as [H|[H|[H|H]]]; try discriminate.
      * rewrite H. reflexivity.
      * rewrite H. rewrite orb_true_r. reflexivity.
      * rewrite H. rewrite !orb_true_r. reflexivity.
  - unfold handleStageMouseDown.
    destruct (StageMouseEvent.target e) as [| |[id|]]; [auto| | |];
      destruct (negb (isSelectTool (Editor.activeTool ed)) || Editor.isSpacePressed ed
                || (StageMouseEvent.button e =? 1)%nat); [auto| |auto| |auto|];
      destruct (isSelectTool (Editor.activeTool ed)); [|auto| |auto|auto|auto].
    + destruct (isMultiSelect e); auto.
    + destruct (isMultiSelect e), (includes (App.selectedIds (Editor.app ed)) id); auto.
Qed.

Lemma handleStageMouseDown_selection_witness :
  App.selectedIds
    (Editor.app
       (handleStageMouseDown
          (StageMouseEvent.mk (OnNode (Some "B"%string)) 0 false false false (Point.mk 0 0))
          (onApp (fun _ => marqueeApp) initialEditor)))
  = ["B"%string].
Proof.
  destruct (handleStageMouseDown_selection
              (StageMouseEvent.mk (OnNode (Some "B"%string)) 0 false false false
                                  (Point.mk 0 0))
              (onApp (fun _ => marqueeApp) initialEditor) "B") as (H & _).
  assert (Hbtn : 0%nat <> 1%nat) by discriminate.
  destruct (H eq_refl eq_refl Hbtn eq_refl) as (_ & Hplain).
  destruct (Hplain eq_refl) as (H1 & _). apply H1.
  simpl. intros [H2|[]]. discriminate.
Defined.

(** ** The marquee *)

Lemma Rmin_plus_Rabs a b : Rmin a b + Rabs (b - a) = Rmax a b.
Proof.
  unfold Rmin, Rmax, Rabs.
  destruct (Rle_dec a b), (Rcase_abs (b - a)); lra.
Qed.

Lemma handleMouseMove_box e ed prev :
  App.isPanning (Editor.app ed) = false ->
  App.selectionBox (Editor.app ed) = Some prev ->
  handleMouseMove e ed
  = onApp (setSelectionBox
             (Some (spanBox (Point.mk (SelectionBox.startX prev) (SelectionBox.startY prev))
                            (MouseMoveEvent.localPos e)))) ed.
Proof.
  intros Hp Hb. unfold handleMouseMove. now rewrite Hp, Hb.
Qed.

(** X16: while a marquee is open (and the sheet is not being panned), a
    pointer move makes the marquee the rectangle between the press point
    and the pointer, whatever the direction of the drag: its left and top
    edge are the smaller, its right and bottom edge the larger of the two
    coordinates, so width and height are never negative.  While panning,
    a move shifts the pan by the pointer movement and leaves the marquee
    alone. *)
Theorem handleMouseMove_spans (e : MouseMoveEvent.t) (ed : Editor.t)
  (prev : SelectionBox.t) :
  App.selectionBox (Editor.app ed) = Some prev ->
  (App.isPanning (Editor.app ed) = false ->
   exists sb,
     App.selectionBox (Editor.app (handleMouseMove e ed)) = Some sb
     /\ SelectionBox.startX sb = SelectionBox.startX prev
     /\ SelectionBox.startY sb = SelectionBox.startY prev
     /\ SelectionBox.x sb
        = Rmin (SelectionBox.startX prev) (Point.x (MouseMoveEvent.localPos e))
     /\ SelectionBox.x sb + SelectionBox.width sb
        = Rmax (SelectionBox.startX prev) (Point.x (MouseMoveEvent.localPos e))
     /\ SelectionBox.y sb
        = Rmin (SelectionBox.startY prev) (Point.y (MouseMoveEvent.localPos e))
     /\ SelectionBox.y sb + SelectionBox.height sb
        = Rmax (SelectionBox.startY prev) (Point.y (MouseMoveEvent.localPos e))
     /\ 0 <= SelectionBox.width sb /\ 0 <= SelectionBox.height sb
     /\ Editor.pan (handleMouseMove e ed) = Editor.pan ed)
  /\ (App.isPanning (Editor.app ed) = true ->
      App.selectionBox (Editor.app (handleMouseMove e ed)) = Some prev
      /\ Editor.pan (handleMouseMove e ed)
         = Point.mk (Point.x (Editor.pan ed) + MouseMoveEvent.movementX e)
                    (Point.y (Editor.pan ed) + MouseMoveEvent.movementY e)).
Proof.
  intros Hb. split.
  - intros Hp. rewrite (handleMouseMove_box e ed prev Hp Hb).
    eexists. split; [reflexivity|]. unfold spanBox.
    cbn [SelectionBox.startX SelectionBox.startY SelectionBox.x SelectionBox.y
         SelectionBox.width SelectionBox.height Point.x Point.y].
    rewrite !Rmin_plus_Rabs. repeat split; try reflexivity; apply Rabs_pos.
  - intros Hp. unfold handleMouseMove. rewrite Hp. simpl. auto.
Qed.

Lemma handleMouseMove_spans_witness :
  exists sb,
    App.selectionBox
      (Editor.app (handleMouseMove (MouseMoveEvent.mk 0 0 (Point.mk (-5) 7))
                     (onApp (fun _ => marqueeApp) initialEditor))) = Some sb
    /\ 0 <= SelectionBox.width sb.
Proof.
  destruct (handleMouseMove_spans (MouseMoveEvent.mk 0 0 (Point.mk (-5) 7))
              (onApp (fun _ => marqueeApp) initialEditor) sampleMarquee eq_refl)
    as (H & _).
  destruct (H eq_refl) as (sb & H1 & _ & _ & _ & _ & _ & _ & H2 & _). eauto.
Defined.

Lemma onApp_setSelectionBox_twice a b ed :
  onApp (setSelectionBox a) (onApp (setSelectionBox b) ed) = onApp (setSelectionBox a) ed.
Proof. reflexivity. Qed.

Lemma marquee_moves path : forall ed prev p1,
  App.isPanning (Editor.app ed) = false ->
  App.selectionBox (Editor.app ed) = Some prev ->
  fold_left (fun s p => handleMouseMove (MouseMoveEvent.mk 0 0 p) s) (path ++ [p1]) ed
  = onApp (setSelectionBox
             (Some (spanBox (Point.mk (SelectionBox.startX prev) (SelectionBox.startY prev))
                            p1))) ed.
Proof.
  induction path as [|p path IH]; intros ed prev p1 Hp Hb; cbn [app fold_left].
  - now rewrite (handleMouseMove_box _ ed prev Hp Hb).
  - rewrite (handleMouseMove_box _ ed prev Hp Hb).
    rewrite (IH _ (spanBox (Point.mk (SelectionBox.startX prev) (SelectionBox.startY prev))
                           p) p1); [reflexivity| exact Hp | reflexivity].
Qed.

Lemma marqueeHits_spanBox_sym p0 p1 o :
  marqueeHits (spanBox p0 p1) o = marqueeHits (spanBox p1 p0) o.
Proof.
  unfold marqueeHits, spanBox.
  cbn [SelectionBox.x SelectionBox.y SelectionBox.width SelectionBox.height].
  rewrite (Rmin_comm (Point.x p1)), (Rmin_comm (Point.y p1)).
  rewrite (Rabs_minus_sym (Point.x p0)), (Rabs_minus_sym (Point.y p0)). reflexivity.
Qed.

(** X17: a whole marquee gesture on the empty stage (press at [p0], any
    moves, last pointer position [p1], release) selects the ids of the
    objects that pass the release handler's test against the rectangle
    between [p0] and [p1]: every object of non-negative signed size whose
    unrotated box intersects that rectangle is among them, every object
    among them intersects it, and an object mirrored on an axis is among
    them only when the rectangle reaches past both ends of its extent on
    that axis.  When no object passes, the selection is empty, or the
    previous one if shift, ctrl or meta was held at the press.  The
    result is the same when the gesture is made from [p1] to [p0]; the
    marquee is gone afterwards and the objects are as before. *)
Theorem marqueeGesture_spec (shiftKey ctrlKey metaKey : bool) (p0 p1 : Point.t)
  (path path' : list Point.t) (ed : Editor.t) :
  readyToSelect ed ->
  let st := Editor.app ed in
  let st' := Editor.app (marqueeGesture shiftKey ctrlKey metaKey p0 (path ++ [p1]) ed) in
  let hits := map DesignObject.id (List.filter (marqueeHits (spanBox p0 p1)) (App.objects st)) in
  App.selectedIds st'
  = (if (0 <? length hits)%nat then hits
     else if shiftKey || ctrlKey || metaKey then App.selectedIds st else [])
  /\ SelectionBox.x (spanBox p0 p1) = Rmin (Point.x p0) (Point.x p1)
  /\ SelectionBox.x (spanBox p0 p1) + SelectionBox.width (spanBox p0 p1)
     = Rmax (Point.x p0) (Point.x p1)
  /\ SelectionBox.y (spanBox p0 p1) = Rmin (Point.y p0) (Point.y p1)
  /\ SelectionBox.y (spanBox p0 p1) + SelectionBox.height (spanBox p0 p1)
     = Rmax (Point.y p0) (Point.y p1)
  /\ (forall o, In o (App.objects st) -> unmirrored o ->
        Rmin (Point.x p0) (Point.x p1) < boxRight o ->
        Rmax (Point.x p0) (Point.x p1) > boxLeft o ->
        Rmin (Point.y p0) (Point.y p1) < boxBottom o ->
        Rmax (Point.y p0) (Point.y p1) > boxTop o ->
        In (DesignObject.id o) (App.selectedIds st'))
  /\ (forall id, In id hits ->
        exists o, In o (App.objects st) /\ DesignObject.id o = id
                  /\ boxesMeet (spanBox p0 p1) o
                  /\ (DesignObject.width o * DesignObject.scaleX o < 0 ->
                      Rmin (Point.x p0) (Point.x p1) < boxLeft o
                      /\ boxRight o < Rmax (Point.x p0) (Point.x p1))
                  /\ (DesignObject.height o * DesignObject.scaleY o < 0 ->
                      Rmin (Point.y p0) (Point.y p1) < boxTop o
                      /\ boxBottom o < Rmax (Point.y p0) (Point.y p1)))
  /\ App.selectedIds st'
     = App.selectedIds
         (Editor.app (marqueeGesture shiftKey ctrlKey metaKey p1 (path' ++ [p0]) ed))
  /\ App.selectionBox st' = None
  /\ App.objects st' = App.objects st.
Proof.
  intros (Htool & Hspace & Hpan) st st' hits.
  assert (Hgesture : forall q0 q1 qs,
            Editor.app (marqueeGesture shiftKey ctrlKey metaKey q0 (qs ++ [q1]) ed)
            = handleMouseUp
                (setSelectionBox (Some (spanBox q0 q1))
                   (if shiftKey || ctrlKey || metaKey then st
                    else setSelectedIds [] st))).
  { intros [q0x q0y] q1 qs. unfold marqueeGesture, handleStageMouseDown.
    cbn [StageMouseEvent.target StageMouseEvent.button StageMouseEvent.localPos
         isMultiSelect StageMouseEvent.shiftKey StageMouseEvent.ctrlKey
         StageMouseEvent.metaKey].
    rewrite Htool, Hspace. cbn [isSelectTool negb orb Nat.eqb].
    destruct shiftKey, ctrlKey, metaKey; cbn [orb];
      (rewrite (marquee_moves qs _ (SelectionBox.mk q0x q0y q0x q0y 0 0) q1);
       [reflexivity | exact Hpan | reflexivity]). }
  assert (Hsel : forall q0 q1 qs,
            App.selectedIds
              (Editor.app (marqueeGesture shiftKey ctrlKey metaKey q0 (qs ++ [q1]) ed))
            = (let h := map DesignObject.id
                          (List.filter (marqueeHits (spanBox q0 q1)) (App.objects st)) in
               if (0 <? length h)%nat then h
               else if shiftKey || ctrlKey || metaKey then App.selectedIds st else [])).
  { intros q0 q1 qs. rewrite Hgesture.
    rewrite (handleMouseUp_selection _ (spanBox q0 q1)) by reflexivity. cbv zeta.
    destruct (shiftKey || ctrlKey || metaKey); reflexivity. }
  assert (Hx : SelectionBox.x (spanBox p0 p1) + SelectionBox.width (spanBox p0 p1)
               = Rmax (Point.x p0) (Point.x p1)).
  { unfold spanBox. cbn [SelectionBox.x SelectionBox.width]. apply Rmin_plus_Rabs. }
  assert (Hy : SelectionBox.y (spanBox p0 p1) + SelectionBox.height (spanBox p0 p1)
               = Rmax (Point.y p0) (Point.y p1)).
  { unfold spanBox. cbn [SelectionBox.y SelectionBox.height]. apply Rmin_plus_Rabs. }
  split; [apply Hsel|]. split; [reflexivity|]. split; [exact Hx|].
  split; [reflexivity|]. split; [exact Hy|].
  split; [|split; [|split; [|split]]].
  - intros o Hin Hpos H1 H2 H3 H4. unfold st'. rewrite Hsel. cbv zeta.
    assert (Hhit : marqueeHits (spanBox p0 p1) o = true).
    { apply marqueeHits_iff. apply boxesMeet_unmirrored; [exact Hpos|].
      unfold boxesMeet. rewrite Hx, Hy. unfold spanBox.
      cbn [SelectionBox.x SelectionBox.y]. auto. }
    assert (Hf : In o (List.filter (marqueeHits (spanBox p0 p1)) (App.objects st)))
      by (apply filter_In; auto).
    destruct (List.filter (marqueeHits (spanBox p0 p1)) (App.objects st)) as [|u l] eqn:E;
      [destruct Hf|].
    cbn [map length Nat.ltb Nat.leb]. rewrite <- E in Hf.
    change (In (DesignObject.id o) (map DesignObject.id (u :: l))).
    rewrite <- E. now apply in_map.
  - intros id Hid. unfold hits in Hid. apply in_map_iff in Hid as (o & Hid & Ho).
    apply filter_In in Ho as [Ho Hhit]. apply marqueeHits_iff in Hhit.
    exists o. split; [exact Ho|]. split; [exact Hid|].
    split; [now apply marqueeOverlap_boxesMeet|].
    destruct Hhit as (H1 & H2 & H3 & H4). rewrite Hx in H2. rewrite Hy in H4.
    unfold spanBox in H1, H3. cbn [SelectionBox.x SelectionBox.y] in H1, H3.
    split; intros Hneg.
    + unfold boxLeft, boxRight.
      rewrite (Rmin_right (DesignObject.x o)), (Rmax_left (DesignObject.x o)) by lra.
      lra.
    + unfold boxTop, boxBottom.
      rewrite (Rmin_right (DesignObject.y o)), (Rmax_left (DesignObject.y o)) by lra.
      lra.
  - unfold st'. rewrite !Hsel. cbv zeta.
    assert (Hf : List.filter (marqueeHits (spanBox p0 p1)) (App.objects st)
                 = List.filter (marqueeHits (spanBox p1 p0)) (App.objects st)).
    { apply filter_ext. intros o. apply marqueeHits_spanBox_sym. }
    now rewrite Hf.
  - unfold st'. rewrite Hgesture. unfold handleMouseUp. simpl.
    repeat match goal with |- context [if ?c then _ else _] => destruct c end;
      reflexivity.
  - unfold st'. rewrite Hgesture. unfold handleMouseUp. simpl.
    repeat match goal with |- context [if ?c then _ else _] => destruct c end;
      reflexivity.
Qed.

Lemma marqueeGesture_spec_witness :
  In "A"%string
     (App.selectedIds
        (Editor.app (marqueeGesture false true false (Point.mk 150 100)
                       ([] ++ [Point.mk 0 0])
                       (onApp (fun _ => setObjects [objA; objB; objC] initialApp)
                              initialEditor))))
  /\ App.selectionBox
       (Editor.app (marqueeGesture false true false (Point.mk 150 100)
                      ([] ++ [Point.mk 0 0])
                      (onApp (fun _ => setObjects [objA; objB; objC] initialApp)
                             initialEditor)))
     = None.
Proof.
  destruct (marqueeGesture_spec false true false (Point.mk 150 100) (Point.mk 0 0) [] []
              (onApp (fun _ => setObjects [objA; objB; objC] initialApp) initialEditor))
    as (_ & _ & _ & _ & _ & Hin & _ & _ & H & _).
  - repeat split.
  - split; [|exact H].
    apply (Hin objA).
    + simpl. auto.
    + unfold unmirrored. simpl. lra.
    + unfold boxRight. simpl. rewrite Rmin_right, Rmax_right by lra. lra.
    + unfold boxLeft. simpl. rewrite Rmax_left, Rmin_left by lra. lra.
    + unfold boxBottom. simpl. rewrite Rmin_right, Rmax_right by lra. lra.
    + unfold boxTop. simpl. rewrite Rmax_left, Rmin_left by lra. lra.
Defined.

(** ** Zoom and pan *)

Lemma zoom_bounds : MIN_ZOOM = 1 / 10 /\ MAX_ZOOM = 3.
Proof. unfold MIN_ZOOM, MAX_ZOOM. split; lra. Qed.

Lemma clamp_in_range z : MIN_ZOOM <= Rmax MIN_ZOOM (Rmin MAX_ZOOM z) <= MAX_ZOOM.
Proof.
  destruct zoom_bounds as [-> ->]. unfold Rmax, Rmin.
  destruct (Rle_dec 3 z), (Rle_dec (1/10) _); lra.
Qed.

Lemma handleWheel_zoom rect e ed :
  Editor.isSpacePressed ed = true -> WheelEvent.deltaY e <> 0 ->
  handleWheel (Some rect) e ed
  = let scaleBy := 1.01 + Rmax 0.04 (Rabs (WheelEvent.deltaY e) * 0.001) in
    let newZoom :=
      Rmax MIN_ZOOM
        (Rmin MAX_ZOOM (if ltb (WheelEvent.deltaY e) 0
                        then Editor.zoom ed * scaleBy else Editor.zoom ed / scaleBy)) in
    let m := wheelMouse rect e in
    setPan (Point.mk
              (Point.x m - (Point.x m - Point.x (Editor.pan ed)) * (newZoom / Editor.zoom ed))
              (Point.y m - (Point.y m - Point.y (Editor.pan ed)) * (newZoom / Editor.zoom ed)))
           (setZoom newZoom ed).
Proof.
  intros Hs Hd. unfold handleWheel. rewrite Hs. cbn [negb].
  destruct (Req_dec_T (WheelEvent.deltaY e) 0); [contradiction|]. reflexivity.
Qed.

(** X18: a wheel turn with the space bar down zooms about the pointer:
    the new zoom lies between [MIN_ZOOM] and [MAX_ZOOM], the sheet point
    under the pointer is the same before and after, turning up
    ([deltaY < 0]) never zooms out and turning down never zooms in.
    (Zoom positive before the turn; for the direction, zoom in range.) *)
Theorem handleWheel_zooms_about_pointer (rect : DOMRect.t) (e : WheelEvent.t)
  (ed : Editor.t) :
  Editor.isSpacePressed ed = true -> WheelEvent.deltaY e <> 0 ->
  0 < Editor.zoom ed ->
  let ed' := handleWheel (Some rect) e ed in
  zoomInRange ed'
  /\ sheetPointAt ed' (wheelMouse rect e) = sheetPointAt ed (wheelMouse rect e)
  /\ (zoomInRange ed ->
      (WheelEvent.deltaY e < 0 -> Editor.zoom ed <= Editor.zoom ed')
      /\ (0 < WheelEvent.deltaY e -> Editor.zoom ed' <= Editor.zoom ed))
  /\ Editor.app ed' = Editor.app ed.
Proof.
  intros Hs Hd Hz ed'. unfold ed'. rewrite (handleWheel_zoom rect e ed Hs Hd). cbv zeta.
  set (scaleBy := 1.01 + Rmax 0.04 (Rabs (WheelEvent.deltaY e) * 0.001)).
  set (raw := if ltb (WheelEvent.deltaY e) 0
              then Editor.zoom ed * scaleBy else Editor.zoom ed / scaleBy).
  set (newZoom := Rmax MIN_ZOOM (Rmin MAX_ZOOM raw)).
  pose proof (clamp_in_range raw) as Hrange. fold newZoom in Hrange.
  assert (Hnz : 0 < newZoom) by (destruct zoom_bounds as [Hm _]; lra).
  assert (Hsb : 1 < scaleBy).
  { unfold scaleBy. pose proof (Rmax_l 0.04 (Rabs (WheelEvent.deltaY e) * 0.001)). lra. }
  split; [exact Hrange|]. split; [|split; [|reflexivity]].
  - unfold sheetPointAt. cbn [Editor.pan Editor.zoom setPan setZoom Point.x Point.y].
    apply point_eq; field; lra.
  - intros [Hlo Hhi]. cbn [Editor.zoom setPan setZoom].
    destruct zoom_bounds as [Hmin Hmax].
    split; intros Hdir.
    + assert (Hraw : raw = Editor.zoom ed * scaleBy).
      { unfold raw. now rewrite (proj2 (ltb_true_iff _ _) Hdir). }
      assert (Hge : Editor.zoom ed <= raw) by (rewrite Hraw; nra).
      unfold newZoom, Rmax, Rmin.
      destruct (Rle_dec MAX_ZOOM raw), (Rle_dec MIN_ZOOM _); lra.
    + assert (Hraw : raw = Editor.zoom ed / scaleBy).
      { unfold raw. rewrite (proj2 (ltb_false_iff _ _)); [reflexivity|lra]. }
      assert (Hle : raw <= Editor.zoom ed).
      { rewrite Hraw. apply Rmult_le_reg_r with scaleBy; [lra|].
        unfold Rdiv. rewrite Rmult_assoc, Rinv_l by lra. nra. }
      unfold newZoom, Rmax, Rmin.
      destruct (Rle_dec MAX_ZOOM raw), (Rle_dec MIN_ZOOM _); lra.
Qed.

Lemma handleWheel_zooms_about_pointer_witness :
  zoomInRange
    (handleWheel (Some (DOMRect.mk 0 0 800 600)) (WheelEvent.mk 0 (-100) 10 20)
       (Editor.mk initialApp (SizeOption.mk "22 x 12 in" (22 * PPI) (12 * PPI))
                  0.5 (Point.mk 0 0) Select true [])).
Proof.
  refine (proj1 (handleWheel_zooms_about_pointer _ _ _ _ _ _)).
  - reflexivity.
  - simpl. lra.
  - simpl. lra.
Defined.

(** X19: the zoom never leaves the range from [MIN_ZOOM] to [MAX_ZOOM]:
    it starts at 0.5, and no wheel event (with or without the space bar,
    with or without a container) and neither zoom button takes it out. *)
Theorem zoom_stays_in_range (ops : list ViewOp) :
  zoomInRange (fold_left applyViewOp ops initialEditor)
  /\ (forall ed op, zoomInRange ed -> zoomInRange (applyViewOp ed op)).
Proof.
  assert (Hstep : forall ed op, zoomInRange ed -> zoomInRange (applyViewOp ed op)).
  { intros ed op Hin. destruct op as [container e| |]; cbn [applyViewOp].
    - unfold handleWheel. destruct container as [rect|]; [|exact Hin].
      destruct (negb (Editor.isSpacePressed ed)); [exact Hin|].
      destruct (Req_dec_T (WheelEvent.deltaY e) 0); [exact Hin|].
      unfold zoomInRange. cbn [Editor.zoom setPan setZoom]. apply clamp_in_range.
    - unfold zoomIn, zoomInRange in *. cbn [Editor.zoom setZoom].
      destruct zoom_bounds as [Hmin Hmax]. rewrite Hmin, Hmax in *.
      unfold Rmin. destruct (Rle_dec 3 _); lra.
    - unfold zoomOut, zoomInRange in *. cbn [Editor.zoom setZoom].
      destruct zoom_bounds as [Hmin Hmax]. rewrite Hmin, Hmax in *.
      unfold Rmax. destruct (Rle_dec (1/10) _); lra. }
  split; [|exact Hstep].
  assert (H : forall ed, zoomInRange ed -> zoomInRange (fold_left applyViewOp ops ed)).
  { induction ops as [|op ops IH]; intros ed Hin; cbn [fold_left]; [exact Hin|].
    apply IH, Hstep, Hin. }
  apply H. unfold zoomInRange, initialEditor. cbn [Editor.zoom].
  destruct zoom_bounds as [-> ->]. lra.
Qed.

Lemma zoom_stays_in_range_witness : zoomInRange (zoomIn initialEditor).
Proof.
  destruct (zoom_stays_in_range []) as (H0 & Hstep).
  exact (Hstep initialEditor ZoomIn H0).
Defined.

(** ** Loading a saved design *)

(** X20: loading a design replaces the history by the single entry of
    the loaded objects and leaves the cursor where it was.  Hence the
    History invariant holds afterwards exactly when the cursor was 0; in
    that case, for a design that carries objects, the loaded objects are
    shown and are the entry under the cursor, and neither undo nor redo
    changes anything: a loaded design cannot be undone. *)
Theorem applyLoadedDesign_history (data : DesignData.t) (ed : Editor.t) :
  let st := Editor.app ed in
  let st' := Editor.app (applyLoadedDesign data ed) in
  App.history st' = [default [] (DesignData.objects data)]
  /\ App.historyStep st' = App.historyStep st
  /\ (historyInvariant st' <-> App.historyStep st = 0%nat)
  /\ (forall objects, DesignData.objects data = Some objects ->
        App.objects st' = objects
        /\ (App.historyStep st = 0%nat ->
            historyCurrent st' /\ undo st' = st' /\ redo st' = st')).
Proof.
  intros st st'.
  assert (Hh : App.history st' = [default [] (DesignData.objects data)]).
  { unfold st', applyLoadedDesign.
    destruct (DesignData.objects data), (DesignData.size data),
      (DesignData.uploadedFiles data); reflexivity. }
  assert (Hs : App.historyStep st' = App.historyStep st).
  { unfold st', applyLoadedDesign.
    destruct (DesignData.objects data), (DesignData.size data),
      (DesignData.uploadedFiles data); reflexivity. }
  split; [exact Hh|]. split; [exact Hs|]. split.
  - unfold historyInvariant. rewrite Hh, Hs. simpl. lia.
  - intros objects Hobj.
    assert (Ho : App.objects st' = objects).
    { unfold st', applyLoadedDesign. rewrite Hobj.
      destruct (DesignData.size data), (DesignData.uploadedFiles data); reflexivity. }
    split; [exact Ho|]. intros H0. split; [|split].
    + unfold historyCurrent. rewrite Hh, Hs, H0, Ho, Hobj. reflexivity.
    + apply undo_at_zero. now rewrite Hs.
    + apply redo_at_tip. rewrite Hh, Hs, H0. reflexivity.
Qed.

Lemma applyLoadedDesign_history_witness :
  undo (Editor.app (applyLoadedDesign (DesignData.mk (Some [objA; objB]) None None)
                      initialEditor))
  = Editor.app (applyLoadedDesign (DesignData.mk (Some [objA; objB]) None None)
                  initialEditor).
Proof.
  destruct (applyLoadedDesign_history (DesignData.mk (Some [objA; objB]) None None)
              initialEditor) as (_ & _ & _ & H).
  destruct (H [objA; objB] eq_refl) as (_ & H0).
  destruct (H0 eq_refl) as (_ & Hu & _). exact Hu.
Defined.

(** ** From the editor to the export *)

Lemma isImage_toExportObject o :
  isImage (toExportObject o) = bool_decide (DesignObject.type o = "image"%string).
Proof. reflexivity. Qed.

Lemma filter_isImage_all objects :
  (forall o, In o objects -> DesignObject.type o = "image"%string) ->
  List.filter isImage (map toExportObject objects) = map toExportObject objects.
Proof.
  intros Hall. apply forallb_filter_id. apply forallb_forall. intros x Hx.
  apply in_map_iff in Hx as (o & <- & Ho). rewrite isImage_toExportObject.
  apply bool_decide_eq_true. now apply Hall.
Qed.

(** X21: [handleExport] sends nothing when the sheet is empty, or when
    some image lacks its high-resolution source and the user declines;
    otherwise it sends the sheet size and the objects as they are, and
    such a request (all objects of type image) is never turned away by
    the server's validation: the answer is the asset-loading error, the
    encoding error or the raster, never a 400. *)
Theorem exportRequest_passes_validation (confirmed : bool) (ed : Editor.t)
  (w : World.t) :
  let objects := App.objects (Editor.app ed) in
  (objects = [] -> exportRequest confirmed ed = None)
  /\ (List.filter lacksHighRes objects <> [] -> confirmed = false ->
      exportRequest confirmed ed = None)
  /\ (objects <> [] ->
      (confirmed = true \/ List.filter lacksHighRes objects = []) ->
      exportRequest confirmed ed = Some (Editor.size ed, objects)
      /\ ((forall o, In o objects -> DesignObject.type o = "image"%string) ->
          forall msg details,
            Outcome.response (export w (toBody (Editor.size ed, objects)))
            <> JsonError 400 msg details)).
Proof.
  intros objects. unfold exportRequest. fold objects. split; [|split].
  - intros ->. reflexivity.
  - intros Hl ->. destruct objects as [|o l] eqn:E; [reflexivity|].
    cbn [length Nat.eqb].
    destruct (List.filter lacksHighRes (o :: l)); [congruence|reflexivity].
  - intros Hne Hok. split.
    + destruct objects as [|o l] eqn:E; [congruence|]. cbn [length Nat.eqb].
      destruct Hok as [Hok | Hok]; rewrite Hok; [now rewrite andb_false_r|reflexivity].
    + intros Hall msg details.
      assert (Himg : List.filter isImage (map toExportObject objects) <> []).
      { rewrite (filter_isImage_all objects Hall).
        destruct objects; [congruence|discriminate]. }
      unfold toBody. cbn [fst snd].
      set (size := Size.mk _ _).
      destruct (successfulImages w (map toExportObject objects)) as [|it its] eqn:Es.
      * rewrite (export_total_loss w size _ Himg Es). discriminate.
      * rewrite (export_proceeds w size _ Himg) by (rewrite Es; discriminate).
        cbn [Outcome.response]. destruct (World.encodePng w _); discriminate.
Qed.

Lemma exportRequest_passes_validation_witness :
  exportRequest true (onApp (fun _ => marqueeApp) initialEditor)
  = Some (Editor.size (onApp (fun _ => marqueeApp) initialEditor), [objA; objB; objC]).
Proof.
  destruct (exportRequest_passes_validation true
              (onApp (fun _ => marqueeApp) initialEditor) goodWorld) as (_ & _ & H).
  destruct H as (H & _); [discriminate|left; reflexivity|]. exact H.
Defined.

Lemma numOr_self r : numOr (Some r) 0 = r.
Proof. unfold numOr. destruct (Req_dec_T r 0); congruence. Qed.

Lemma numOr_nonzero r d : r <> 0 -> numOr (Some r) d = r.
Proof. intros H. unfold numOr. destruct (Req_dec_T r 0); congruence. Qed.

Lemma drawnCorners_unfold image (o : DesignObject.t) :
  0 < DesignObject.scaleX o -> 0 < DesignObject.scaleY o ->
  drawnCorners (paintOf Matrix.identity image (toExportObject o))
  = map toRaster (cornersAboutCentre o 0).
Proof.
  intros Hx Hy. unfold drawnCorners, paintOf.
  cbn [DrawOp.transform DrawOp.dx DrawOp.dy DrawOp.dw DrawOp.dh].
  rewrite paintTransform_identity.
  unfold destRotation, destX, destY, destWidth, destHeight, toExportObject.
  cbn [ExportObject.rotation ExportObject.x ExportObject.y ExportObject.width
       ExportObject.height ExportObject.scaleX ExportObject.scaleY].
  rewrite numOr_self, !numOr_nonzero by lra.
  unfold cornersAboutCentre, inflatedBox, rectPolygon, rotateAbout, centre,
    scaledWidth, scaledHeight, toRaster, Matrix.apply.
  rewrite !Rabs_pos_eq by lra.
  cbn [map Point.x Point.y Matrix.a Matrix.b Matrix.c Matrix.d Matrix.e Matrix.f].
  unfold SCALE_FACTOR. corner_list; field.
Qed.

(** X22: for an object of positive scale, the export draws the image on
    the raster rectangle that is the object's box turned about the box's
    own centre and scaled by 300/96; for an unrotated object this is the
    rectangle the editor shows (the corners of [getRotatedCorners] with no
    buffer), scaled by 300/96. *)
Theorem export_draws_box_about_centre (image : Image.t) (o : DesignObject.t) :
  0 < DesignObject.scaleX o -> 0 < DesignObject.scaleY o ->
  let op := paintOf Matrix.identity image (toExportObject o) in
  drawItem (Context2D.mk Matrix.identity [] [])
           (Some (ImageData.mk (Some image) (toExportObject o) true None))
  = Context2D.mk Matrix.identity [] [op]
  /\ drawnCorners op = map toRaster (cornersAboutCentre o 0)
  /\ (DesignObject.rotation o = 0 ->
      drawnCorners op = map toRaster (getRotatedCorners o 0)).
Proof.
  intros Hx Hy op. split; [rewrite drawItem_spec; reflexivity|].
  split; [apply drawnCorners_unfold; assumption|].
  intros Hrot. unfold op. rewrite drawnCorners_unfold by assumption. f_equal.
  rewrite getRotatedCorners_unrotated by exact Hrot.
  unfold cornersAboutCentre. rewrite Hrot, no_turn.
  unfold inflatedBox, rectPolygon, rotateAbout.
  cbn [map Point.x Point.y]. rewrite cos_0, sin_0. corner_list; ring.
Qed.

Lemma export_draws_box_about_centre_witness :
  drawnCorners (paintOf Matrix.identity (sampleImage "a.png") (toExportObject objA))
  = map toRaster (getRotatedCorners objA 0).
Proof.
  destruct (export_draws_box_about_centre (sampleImage "a.png") objA) as (_ & _ & H).
  - simpl. lra.
  - simpl. lra.
  - apply H. reflexivity.
Defined.

Lemma centroid_toRaster corners :
  centroid (map toRaster corners) = toRaster (centroid corners).
Proof.
  assert (H : fold_right (fun p acc => Point.x p + acc) 0 (map toRaster corners)
              = fold_right (fun p acc => Point.x p + acc) 0 corners * SCALE_FACTOR
              /\ fold_right (fun p acc => Point.y p + acc) 0 (map toRaster corners)
                 = fold_right (fun p acc => Point.y p + acc) 0 corners * SCALE_FACTOR).
  { induction corners as [|p l [IH1 IH2]]; cbn [map fold_right]; [split; ring|].
    rewrite IH1, IH2. unfold toRaster. cbn [Point.x Point.y]. split; ring. }
  destruct H as [H1 H2]. unfold centroid. rewrite H1, H2.
  unfold toRaster. cbn [Point.x Point.y]. unfold SCALE_FACTOR. apply point_eq; field.
Qed.

(** X23: the centre of the rectangle the export draws is the centre of
    the object's unrotated box, whatever the rotation, while the editor
    turns the box about its top-left corner.  The two centres agree
    exactly when the rotation is a whole number of turns ([cos] of the
    angle is 1); for every other angle the printed piece sits elsewhere
    than on screen.  (Positive scale and size.) *)
Theorem export_centre_agrees_iff_unturned (image : Image.t) (o : DesignObject.t) :
  0 < DesignObject.scaleX o -> 0 < DesignObject.scaleY o ->
  0 < DesignObject.width o -> 0 < DesignObject.height o ->
  let op := paintOf Matrix.identity image (toExportObject o) in
  centroid (drawnCorners op) = toRaster (centre o)
  /\ (centroid (drawnCorners op) = toRaster (centroid (getRotatedCorners o 0))
      <-> cos (DesignObject.rotation o * PI / 180) = 1).
Proof.
  intros Hx Hy Hw Hh op.
  assert (Hc : centroid (drawnCorners op) = toRaster (centre o)).
  { unfold op. rewrite drawnCorners_unfold by assumption.
    rewrite centroid_toRaster. f_equal.
    apply (cornersAboutCentre_centroid o 0). }
  split; [exact Hc|]. rewrite Hc.
  assert (HW : 0 < scaledWidth o)
    by (unfold scaledWidth; rewrite Rabs_pos_eq by lra; nra).
  assert (HH : 0 < scaledHeight o)
    by (unfold scaledHeight; rewrite Rabs_pos_eq by lra; nra).
  rewrite getRotatedCorners_unfold. cbv zeta.
  pose proof (sin_cos_unit (DesignObject.rotation o * PI / 180)) as Hu.
  set (c := cos _) in *. set (s := sin _) in *.
  set (W := scaledWidth o) in *. set (H := scaledHeight o) in *.
  unfold centroid, centre, toRaster, SCALE_FACTOR. fold W H.
  cbn [fold_right Point.x Point.y]. split.
  - intros Heq. injection Heq as E1 E2.
    assert (F1 : W * (c - 1) = H * s) by lra.
    assert (F2 : W * s = - (H * (c - 1))) by lra.
    assert (F3 : (c - 1) * (W * W + H * H) = 0) by nra.
    assert (F4 : 0 < W * W + H * H) by nra.
    assert (F5 : c - 1 = 0) by nra. lra.
  - intros Hc1.
    assert (Hs0 : s = 0) by nra.
    rewrite Hc1, Hs0. apply point_eq; lra.
Qed.

Lemma export_centre_agrees_iff_unturned_witness :
  centroid (drawnCorners (paintOf Matrix.identity (sampleImage "a.png")
                            (toExportObject objA)))
  = toRaster (centre objA).
Proof.
  refine (proj1 (export_centre_agrees_iff_unturned (sampleImage "a.png") objA _ _ _ _));
    simpl; lra.
Defined.

(** ** Export: what is fetched and what is ignored *)

Lemma filter_isImage_idem objects :
  List.filter isImage (List.filter isImage objects) = List.filter isImage objects.
Proof.
  apply forallb_filter_id. apply forallb_forall. intros o Ho.
  now apply filter_In in Ho as [_ Ho].
Qed.

(** X24: objects that are not of type image play no part in an export:
    as long as one image object is present, the outcome (answer, effects
    and painted surface) is the one of the request with the other objects
    left out. *)
Theorem export_ignores_other_kinds (w : World.t) (size : Size.t)
  (objects : list ExportObject.t) :
  List.filter isImage objects <> [] ->
  export w (Body.mk (Some size) (ObjectsArray objects))
  = export w (Body.mk (Some size) (ObjectsArray (List.filter isImage objects))).
Proof.
  intros Himg.
  assert (Himg' : List.filter isImage (List.filter isImage objects) <> [])
    by (rewrite filter_isImage_idem; exact Himg).
  assert (Hs : successfulImages w (List.filter isImage objects)
               = successfulImages w objects)
    by (unfold successfulImages; now rewrite filter_isImage_idem).
  assert (Hl : loadingEffects size (List.filter isImage objects)
               = loadingEffects size objects)
    by (unfold loadingEffects; now rewrite filter_isImage_idem).
  assert (Hp : paintedCanvas w size (List.filter isImage objects)
               = paintedCanvas w size objects)
    by (unfold paintedCanvas; now rewrite Hs).
  destruct (successfulImages w objects) as [|it its] eqn:E.
  - rewrite (export_total_loss w size objects Himg E).
    rewrite (export_total_loss w size _ Himg') by congruence.
    now rewrite Hl.
  - rewrite (export_proceeds w size objects Himg) by (rewrite E; discriminate).
    rewrite (export_proceeds w size _ Himg') by congruence.
    rewrite Hs, Hl, Hp, filter_isImage_idem, ?E. reflexivity.
Qed.

Lemma export_ignores_other_kinds_witness :
  export goodWorld
    (Body.mk (Some sampleSize)
       (ObjectsArray [ ExportObject.mk "T" "text" 0 0 10 10 None None None None None;
                       exportObject "A" 0 0 (Some 1) "a.png" ]))
  = export goodWorld oneObjectBody.
Proof.
  apply (export_ignores_other_kinds goodWorld sampleSize
           [ ExportObject.mk "T" "text" 0 0 10 10 None None None None None;
             exportObject "A" 0 0 (Some 1) "a.png" ]).
  discriminate.
Defined.

Lemma loadEffects_fetches imageObjects :
  (forall o url, In o imageObjects -> imageUrl o = Some url -> url <> EmptyString) ->
  List.filter isFetch (concat (map loadEffects imageObjects))
  = map Fetch (flat_map (fun o => match imageUrl o with
                                  | Some url => [url] | None => [] end) imageObjects).
Proof.
  induction imageObjects as [|o l IH]; [reflexivity|]. intros Hne.
  cbn [map concat flat_map].
  rewrite List.filter_app, map_app, IH by (intros; eapply Hne; simpl; eauto).
  f_equal. unfold loadEffects.
  destruct (imageUrl o) as [url|] eqn:E; [|reflexivity].
  rewrite bool_decide_eq_false_2 by (eapply Hne; simpl; eauto). reflexivity.
Qed.

Lemma imageUrl_nonempty o url :
  ExportObject.src o <> Some EmptyString -> imageUrl o = Some url -> url <> EmptyString.
Proof.
  intros Hsrc. unfold imageUrl, strOr.
  destruct (ExportObject.highResSrc o) as [h|].
  - destruct (bool_decide (h = EmptyString)) eqn:E.
    + intros Hu Hnil. subst url. congruence.
    + apply bool_decide_eq_false in E. intros Hu. injection Hu as <-. exact E.
  - intros Hu Hnil. subst url. congruence.
Qed.

(** X25: for a request that passes validation (sources, where given, not
    the empty string), every image object that has a source is fetched
    exactly once, in list order, whatever the other fetches return (a
    failed asset never stops the loading of the others); the URL asked
    for is the high-resolution source when the object has a non-empty
    one, else the thumbnail; an object with neither is not fetched, and
    the empty URL is never asked for. *)
Theorem export_fetches_each_asset_once (w : World.t) (size : Size.t)
  (objects : list ExportObject.t) :
  List.filter isImage objects <> [] ->
  (forall o, In o objects -> ExportObject.src o <> Some EmptyString) ->
  List.filter isFetch
    (Outcome.effects (export w (Body.mk (Some size) (ObjectsArray objects))))
  = map Fetch (requestedUrls objects)
  /\ (forall url, In url (requestedUrls objects) -> url <> EmptyString)
  /\ (forall o url, ExportObject.highResSrc o = Some url -> url <> EmptyString ->
        imageUrl o = Some url)
  /\ (forall o, truthyStr (ExportObject.highResSrc o) = false ->
        imageUrl o = ExportObject.src o)
  /\ (forall o, ExportObject.highResSrc o = None -> ExportObject.src o = None ->
        imageUrl o = None).
Proof.
  intros Himg Hsrc. split; [|split; [|split; [|split]]].
  - assert (Hl : List.filter isFetch (loadingEffects size objects)
                 = map Fetch (requestedUrls objects)).
    { unfold loadingEffects, requestedUrls. cbn [app List.filter isFetch].
      apply loadEffects_fetches. intros o url Ho Hu.
      apply filter_In in Ho as [Ho _].
      exact (imageUrl_nonempty o url (Hsrc o Ho) Hu). }
    destruct (successfulImages w objects) as [|it its] eqn:E.
    + rewrite (export_total_loss w size objects Himg E). exact Hl.
    + rewrite (export_proceeds w size objects Himg) by (rewrite E; discriminate).
      cbn [Outcome.effects].
      destruct (_ <? _)%nat; [|exact Hl].
      rewrite List.filter_app, Hl. cbn [List.filter isFetch]. apply app_nil_r.
  - intros url Hin. unfold requestedUrls in Hin.
    apply in_flat_map in Hin as (o & Ho & Hu). apply filter_In in Ho as [Ho _].
    destruct (imageUrl o) as [u|] eqn:E; [|destruct Hu].
    destruct Hu as [<-|[]]. exact (imageUrl_nonempty o u (Hsrc o Ho) E).
  - intros o url Hh Hne. unfold imageUrl, strOr. rewrite Hh.
    now rewrite bool_decide_eq_false_2.
  - intros o Hh. unfold imageUrl, strOr, truthyStr in *.
    destruct (ExportObject.highResSrc o) as [h|]; [|reflexivity].
    apply negb_false_iff in Hh. now rewrite Hh.
  - intros o Hh Hs. unfold imageUrl, strOr. now rewrite Hh, Hs.
Qed.

Lemma export_fetches_each_asset_once_witness :
  List.filter isFetch
    (Outcome.effects
       (export goodWorld
          (Body.mk (Some sampleSize)
             (ObjectsArray [ exportObject "A" 0 0 (Some 1) "a.png";
                             exportObject "B" 100 0 (Some 1) "missing.png";
                             exportObject "C" 200 0 (Some 1) "c.png" ]))))
  = [Fetch "a.png"; Fetch "missing.png"; Fetch "c.png"].
Proof.
  refine (proj1 (export_fetches_each_asset_once goodWorld sampleSize
                   [ exportObject "A" 0 0 (Some 1) "a.png";
                     exportObject "B" 100 0 (Some 1) "missing.png";
                     exportObject "C" 200 0 (Some 1) "c.png" ] _ _)).
  - discriminate.
  - intros o [<-|[<-|[<-|[]]]]; discriminate.
Defined.

(** ** Export: the size of the raster *)

(** X26: the raster of an export is the smallest whole number of pixels
    covering the sheet at 300/96 pixels per unit (in each direction at
    least the scaled size and less than one pixel more); for a sheet of
    [n] by [m] inches (96 units per inch) it is exactly [300 n] by
    [300 m] pixels. *)
Theorem export_canvas_size (w : World.t) (size : Size.t) (o : ExportObject.t)
  (objects : list ExportObject.t) :
  exists c,
    Outcome.surface (export w (Body.mk (Some size) (ObjectsArray (o :: objects))))
    = Some c
    /\ IZR (Canvas.width c) - 1 < Size.width size * (300 / 96) <= IZR (Canvas.width c)
    /\ IZR (Canvas.height c) - 1 < Size.height size * (300 / 96) <= IZR (Canvas.height c)
    /\ (forall n m : Z,
          Size.width size = IZR n * 96 -> Size.height size = IZR m * 96 ->
          Canvas.width c = (300 * n)%Z /\ Canvas.height c = (300 * m)%Z).
Proof.
  assert (Hc : exists c,
             Outcome.surface (export w (Body.mk (Some size) (ObjectsArray (o :: objects))))
             = Some c
             /\ Canvas.width c = ceil (Size.width size * SCALE_FACTOR)
             /\ Canvas.height c = ceil (Size.height size * SCALE_FACTOR)).
  { unfold export. cbn [Body.size Body.objects].
    destruct (length (List.filter isImage (o :: objects)) =? 0)%nat;
      [eexists; split; [reflexivity|split; reflexivity]|].
    destruct (length _ =? 0)%nat;
      [eexists; split; [reflexivity|split; reflexivity]|].
    destruct (World.encodePng w _); eexists; split; try reflexivity; split; reflexivity. }
  destruct Hc as (c & Hs & Hw & Hh). exists c. split; [exact Hs|].
  rewrite Hw, Hh. unfold SCALE_FACTOR.
  split; [apply ceil_spec|]. split; [apply ceil_spec|].
  intros n m Hn Hm. rewrite Hn, Hm.
  replace (IZR n * 96 * (300 / 96)) with (IZR (300 * n)) by (rewrite mult_IZR; lra).
  replace (IZR m * 96 * (300 / 96)) with (IZR (300 * m)) by (rewrite mult_IZR; lra).
  now rewrite !ceil_IZR.
Qed.

Lemma export_canvas_size_witness :
  exists c,
    Outcome.surface (export goodWorld oneObjectBody) = Some c
    /\ Canvas.width c = (300 * 22)%Z /\ Canvas.height c = (300 * 12)%Z.
Proof.
  destruct (export_canvas_size goodWorld sampleSize
              (exportObject "A" 0 0 (Some 1) "a.png") []) as (c & Hs & _ & _ & H).
  exists c. split; [exact Hs|]. apply H; unfold sampleSize; simpl; lra.
Defined.
